(** * OVC spatial QC core: a shallow embedding and its verified properties

    The development follows the Python sources

    - [core/geometry.py]        (null checks, area, extent, intersection, buffer)
    - [core/spatial_ops.py]     (grid index, classification, pairwise overlaps)
    - [checks/building_overlap.py] (the checker's own copy of the overlap scan)
    - [checks/road_qc/engine.py] (dangles, disconnected roads, self-intersections)

    Conventions of the embedding.

    - Python [float] values are idealised as rationals [Q]; NaN and rounding
      are outside that model.  Python [int] values are [Z].
    - [x // c] followed by [int(...)] is [Qfloor (x / c)]; the
      [ZeroDivisionError] at [c = 0] is written out where [c] is an input.
    - The road engine is embedded a second time with its coordinate
      operations as parameters ([Engine]), and these are instantiated with
      the kernel's binary64 floats ([Binary64]), which round, overflow and
      raise as the code does.  Properties that depend on how a sum or a
      product is rounded are stated there.
    - A Python [dict] that is iterated is an association list in insertion
      order, read with [dict_get]; dictionaries that are only looked up are
      [gmap]s, Python [set]s are [gset]s.
    - A raised exception is [None] in the [option] monad ([Raised] for the
      provider's own calls, which the sources guard with [try]/[except]).
    - The arcpy geometry object is an interface ([ArcGeometry]); a concrete
      instance over axis-aligned rectangles is used to run the code. *)

From Stdlib Require Import QArith Qround Lqa Lia ZArith String Ascii Sorted.
From Corelib Require PrimFloat SpecFloat FloatOps.
From stdpp Require Import gmap strings list fin_maps.

(* ===================================================================== *)
(** * Part I: the program                                                 *)
(* ===================================================================== *)

(** ** Python numerics *)

Module Py.

(** [a <= b], [a < b], [a == b] on floats, as booleans. *)
Definition le (a b : Q) : bool := Qle_bool a b.
Definition lt (a b : Q) : bool := negb (Qle_bool b a).
Definition eq (a b : Q) : bool := Qeq_bool a b.

(** [max(a, b)]: Python returns the first maximal argument. *)
Definition max (a b : Q) : Q := if lt a b then b else a.

(** [min(a, b)]: Python returns the first minimal argument. *)
Definition min (a b : Q) : Q := if lt b a then b else a.

(** [abs(a)]. *)
Definition abs (a : Q) : Q := if lt a 0 then (- a)%Q else a.

(** [int(x // c)] for [c <> 0]. *)
Definition floordiv (x c : Q) : Z := Qfloor (x / c).

(** [int(x // c)] with the [ZeroDivisionError] of [c == 0].  Over the
    rationals no quotient is infinite; the [OverflowError] and [ValueError]
    of [int] on an infinite or NaN binary64 quotient are in
    [Binary64.floordiv_int]. *)
Definition floordiv_checked (x c : Q) : option Z :=
  if eq c 0 then None else Some (floordiv x c).

(** [range(a, b)]. *)
Definition range (a b : Z) : list Z := seqZ a (b - a).

(** [d[k]] on an insertion-ordered dictionary; [None] is [KeyError]. *)
Fixpoint dict_get {V : Type} (d : list (Z * V)) (k : Z) : option V :=
  match d with
  | [] => None
  | (k', v) :: rest => if decide (k' = k) then Some v else dict_get rest k
  end.

(** [s.lower()] on ASCII. *)
Definition ascii_lower (c : ascii) : ascii :=
  let n := nat_of_ascii c in
  if ((65 <=? n)%nat && (n <=? 90)%nat)%bool then ascii_of_nat (n + 32) else c.

Fixpoint lower (s : string) : string :=
  match s with
  | EmptyString => EmptyString
  | String c rest => String (ascii_lower c) (lower rest)
  end.

(** [needle in hay] on strings. *)
Definition str_in (needle hay : string) : bool :=
  match index 0 needle hay with
  | Some _ => true
  | None => false
  end.

End Py.

(** ** The geometry provider and [core/geometry.py] *)

(** Outcome of a call into arcpy that the sources wrap in [try]/[except]. *)
Inductive Attempt (A : Type) : Type :=
| Ok (a : A)
| Raised.
Arguments Ok {A} a.
Arguments Raised {A}.

(** [(xmin, ymin, xmax, ymax)]. *)
Definition Extent : Type := (Q * Q * Q * Q)%type.

Definition e_xmin (e : Extent) : Q := e.1.1.1.
Definition e_ymin (e : Extent) : Q := e.1.1.2.
Definition e_xmax (e : Extent) : Q := e.1.2.
Definition e_ymax (e : Extent) : Q := e.2.

(** The attributes and methods of an arcpy geometry that the core reads.
    Attribute reads ([pointCount], [type], [area], [length]) are taken to
    succeed; [extent], [intersect] and [buffer] may raise. *)
Class ArcGeometry (G : Type) : Type := {
  pointCount : G -> Z;
  geom_type : G -> string;
  geom_area : G -> Q;
  geom_length : G -> Q;
  geom_extent : G -> Attempt Extent;
  geom_intersect : G -> G -> Z -> Attempt (option G);
  geom_buffer : G -> Q -> Attempt (option G)
}.

Module Geometry.
Section Provider.
Context {G : Type} `{ArcGeometry G}.

(** [is_geometry_null]: a Python value that may be [None]. *)
Definition is_geometry_null (geometry : option G) : bool :=
  match geometry with
  | None => true
  | Some g =>
      if (pointCount g =? 0)%Z then true
      else
        let geom_ty := Py.lower (geom_type g) in
        if (Py.str_in "polygon" geom_ty && Py.eq (geom_area g) 0)%bool then true
        else if (Py.str_in "line" geom_ty && Py.eq (geom_length g) 0)%bool then true
        else false
  end.

(** [get_geometry_area]. *)
Definition get_geometry_area (geometry : option G) : Q :=
  if is_geometry_null geometry then 0%Q
  else match geometry with
       | None => 0%Q
       | Some g =>
           let area := geom_area g in
           if Py.eq area 0 then 0%Q else area
       end.

(** [get_intersection_geometry]. *)
Definition get_intersection_geometry
    (geom_a geom_b : option G) (dimension : Z) : option G :=
  match geom_a, geom_b with
  | Some a, Some b =>
      if (is_geometry_null geom_a || is_geometry_null geom_b)%bool then None
      else match geom_intersect a b dimension with
           | Raised => None
           | Ok intersection =>
               if is_geometry_null intersection then None
               else if Py.le (get_geometry_area intersection) 0 then None
               else intersection
           end
  | _, _ => None
  end.

(** [get_geometry_extent]. *)
Definition get_geometry_extent (geometry : option G) : option Extent :=
  if is_geometry_null geometry then None
  else match geometry with
       | None => None
       | Some g =>
           match geom_extent g with
           | Ok extent => Some extent
           | Raised => None
           end
       end.

(** [validate_polygon_geometry]. *)
Definition validate_polygon_geometry (geometry : option G) : bool :=
  if is_geometry_null geometry then false
  else match geometry with
       | None => false
       | Some g =>
           if negb (String.eqb (Py.lower (geom_type g)) "polygon") then false
           else if Py.le (get_geometry_area geometry) 0 then false
           else true
       end.

(** [validate_line_geometry]. *)
Definition validate_line_geometry (geometry : option G) : bool :=
  if is_geometry_null geometry then false
  else match geometry with
       | None => false
       | Some g =>
           if negb (Py.str_in "line" (Py.lower (geom_type g))) then false
           else if Py.le (geom_length g) 0 then false
           else true
       end.

(** [buffer_geometry]: the result is a Python value ([None] or a
    geometry). *)
Definition buffer_geometry (geometry : option G) (distance : Q) : option G :=
  if is_geometry_null geometry then None
  else if Py.le distance 0 then geometry
  else match geometry with
       | None => None
       | Some g =>
           match geom_buffer g distance with
           | Ok buffered => buffered
           | Raised => None
           end
       end.

End Provider.
End Geometry.

(** ** [core/spatial_ops.py] *)

(** Loop in the exception monad: [for x in l: a = f(a, x)], where the body
    may raise. *)
Fixpoint foldl_opt {A B : Type} (f : A -> B -> option A) (a : A) (l : list B)
  : option A :=
  match l with
  | [] => Some a
  | x :: rest => match f a x with
                 | Some a' => foldl_opt f a' rest
                 | None => None
                 end
  end.

Module SpatialOps.
Section Provider.
Context {G : Type} `{ArcGeometry G}.

(** [@dataclass OverlapResult]. *)
Record OverlapResult : Type := mkOverlapResult {
  fid_a : Z;
  fid_b : Z;
  overlap_geometry : G;
  overlap_area : Q;
  overlap_ratio : Q;
  overlap_type : string
}.

(** [class SpatialIndex]. *)
Record SpatialIndex : Type := mkSpatialIndex {
  cell_size : Q;
  grid : gmap (Z * Z) (list Z);
  geometries : gmap Z G;
  extents : gmap Z Extent
}.

(** [SpatialIndex.__init__]. *)
Definition SpatialIndex_init (cell_size : Q) : SpatialIndex :=
  mkSpatialIndex cell_size ∅ ∅ ∅.

(** The four lines [col_min = int(xmin // self.cell_size)] ... that open
    [insert], [query_candidates] and [query_by_extent]; the result is
    [(col_min, col_max, row_min, row_max)]. *)
Definition cell_bounds (cs : Q) (extent : Extent) : option (Z * Z * Z * Z) :=
  let '(xmin, ymin, xmax, ymax) := extent in
  match Py.floordiv_checked xmin cs, Py.floordiv_checked xmax cs,
        Py.floordiv_checked ymin cs, Py.floordiv_checked ymax cs with
  | Some col_min, Some col_max, Some row_min, Some row_max =>
      Some (col_min, col_max, row_min, row_max)
  | _, _, _, _ => None
  end.

(** [if key not in self.grid: self.grid[key] = []] then
    [self.grid[key].append(fid)]. *)
Definition grid_append (fid : Z) (grid : gmap (Z * Z) (list Z)) (key : Z * Z)
  : gmap (Z * Z) (list Z) :=
  <[key := default [] (grid !! key) ++ [fid]]> grid.

(** The two nested [for] loops of [insert]. *)
Definition insert_cells (fid : Z) (grid : gmap (Z * Z) (list Z))
    (bounds : Z * Z * Z * Z) : gmap (Z * Z) (list Z) :=
  let '(col_min, col_max, row_min, row_max) := bounds in
  foldl (fun g col =>
           foldl (fun g' row => grid_append fid g' (col, row))
                 g (Py.range row_min (row_max + 1)))
        grid (Py.range col_min (col_max + 1)).

(** [SpatialIndex.insert]. *)
Definition insert (self : SpatialIndex) (fid : Z) (geometry : option G)
  : option SpatialIndex :=
  if Geometry.is_geometry_null geometry then Some self
  else match Geometry.get_geometry_extent geometry, geometry with
       | Some extent, Some g =>
           let geometries' := <[fid := g]> (geometries self) in
           let extents' := <[fid := extent]> (extents self) in
           match cell_bounds (cell_size self) extent with
           | None => None
           | Some bounds =>
               Some (mkSpatialIndex (cell_size self)
                       (insert_cells fid (grid self) bounds)
                       geometries' extents')
           end
       | _, _ => Some self
       end.

(** The two nested [for] loops of the queries: the union of the buckets of
    the cells in range. *)
Definition collect_cells (grid : gmap (Z * Z) (list Z))
    (bounds : Z * Z * Z * Z) : gset Z :=
  let '(col_min, col_max, row_min, row_max) := bounds in
  foldl (fun c col =>
           foldl (fun c' row =>
                    match grid !! (col, row) with
                    | Some bucket => c' ∪ list_to_set bucket
                    | None => c'
                    end)
                 c (Py.range row_min (row_max + 1)))
        ∅ (Py.range col_min (col_max + 1)).

(** [SpatialIndex.query_candidates].  [list(candidates)] enumerates a
    Python set in an unspecified order; [elements] fixes one, and the
    properties of Part II use only which ids are in the list. *)
Definition query_candidates (self : SpatialIndex) (fid : Z) : option (list Z) :=
  match extents self !! fid with
  | None => Some []
  | Some extent =>
      match cell_bounds (cell_size self) extent with
      | None => None
      | Some bounds =>
          let candidates := collect_cells (grid self) bounds in
          Some (elements (candidates ∖ {[fid]}))
      end
  end.

(** [SpatialIndex.query_by_extent]. *)
Definition query_by_extent (self : SpatialIndex) (extent : Extent)
  : option (list Z) :=
  match cell_bounds (cell_size self) extent with
  | None => None
  | Some bounds => Some (elements (collect_cells (grid self) bounds))
  end.

(** [extents_intersect]. *)
Definition extents_intersect (extent_a extent_b : Extent) : bool :=
  negb (Py.lt (e_xmax extent_a) (e_xmin extent_b)
        || Py.lt (e_xmax extent_b) (e_xmin extent_a)
        || Py.lt (e_ymax extent_a) (e_ymin extent_b)
        || Py.lt (e_ymax extent_b) (e_ymin extent_a)).

(** [classify_overlap]. *)
Definition classify_overlap
    (overlap_ratio duplicate_threshold partial_threshold : Q) : string :=
  if Py.le duplicate_threshold overlap_ratio then "DUPLICATE"
  else if Py.le partial_threshold overlap_ratio then "PARTIAL"
  else "SLIVER".

(** The first loop of [find_pairwise_overlaps]:
    [(extents, total_width, total_height)]. *)
Definition collect_extents (features : list (Z * option G))
  : gmap Z Extent * Q * Q :=
  foldl (fun acc item =>
           let '(extents, total_width, total_height) := acc in
           match Geometry.get_geometry_extent item.2 with
           | Some extent =>
               (<[item.1 := extent]> extents,
                total_width + (e_xmax extent - e_xmin extent),
                total_height + (e_ymax extent - e_ymin extent))%Q
           | None => acc
           end)
        (∅, 0%Q, 0%Q) features.

(** [avg_size] and [cell_size] from the collected extents. *)
Definition derived_cell_size (extents : gmap Z Extent)
    (total_width total_height : Q) : Q :=
  let avg_size :=
    Py.max ((total_width + total_height)
            / (2 * inject_Z (Z.of_nat (size extents))))%Q 10%Q in
  (avg_size * 2)%Q.

(** [for fid, geom in features.items(): sindex.insert(fid, geom)]. *)
Definition build_index (cs : Q) (features : list (Z * option G))
  : option SpatialIndex :=
  foldl_opt (fun sindex item => insert sindex item.1 item.2)
            (SpatialIndex_init cs) features.

(** Loop state: [processed_pairs] and the results yielded so far. *)
Definition ScanState : Type := (gset (Z * Z) * list OverlapResult)%type.

(** Body of [for fid_b in candidates]. *)
Definition overlap_inner (features : list (Z * option G))
    (extents : gmap Z Extent)
    (min_overlap_area duplicate_threshold partial_threshold : Q)
    (fid_a : Z) (geom_a : option G) (area_a : Q) (extent_a : Extent)
    (st : ScanState) (fid_b : Z) : option ScanState :=
  let '(processed_pairs, results) := st in
  let pair_key := (Z.min fid_a fid_b, Z.max fid_a fid_b) in
  if decide (pair_key ∈ processed_pairs) then Some st
  else
    let processed_pairs := {[pair_key]} ∪ processed_pairs in
    match Py.dict_get features fid_b with
    | None => None
    | Some geom_b =>
        if negb (Geometry.validate_polygon_geometry geom_b)
        then Some (processed_pairs, results)
        else
          let area_b := Geometry.get_geometry_area geom_b in
          if Py.le area_b 0 then Some (processed_pairs, results)
          else match extents !! fid_b with
               | None => Some (processed_pairs, results)
               | Some extent_b =>
                   if negb (extents_intersect extent_a extent_b)
                   then Some (processed_pairs, results)
                   else
                     match Geometry.get_intersection_geometry geom_a geom_b 4 with
                     | None => Some (processed_pairs, results)
                     | Some intersection =>
                         let overlap_area :=
                           Geometry.get_geometry_area (Some intersection) in
                         if Py.lt overlap_area min_overlap_area
                         then Some (processed_pairs, results)
                         else
                           let min_area := Py.min area_a area_b in
                           let overlap_ratio :=
                             if Py.lt 0 min_area
                             then (overlap_area / min_area)%Q else 0%Q in
                           let overlap_type :=
                             classify_overlap overlap_ratio
                               duplicate_threshold partial_threshold in
                           Some (processed_pairs,
                                 results ++
                                   [mkOverlapResult fid_a fid_b intersection
                                      overlap_area overlap_ratio overlap_type])
                     end
               end
    end.

(** Body of [for idx, fid_a in enumerate(fids)]; the progress callback has
    no effect on the results. *)
Definition overlap_outer (features : list (Z * option G))
    (sindex : SpatialIndex) (extents : gmap Z Extent)
    (min_overlap_area duplicate_threshold partial_threshold : Q)
    (st : ScanState) (fid_a : Z) : option ScanState :=
  match Py.dict_get features fid_a with
  | None => None
  | Some geom_a =>
      if negb (Geometry.validate_polygon_geometry geom_a) then Some st
      else
        let area_a := Geometry.get_geometry_area geom_a in
        if Py.le area_a 0 then Some st
        else match extents !! fid_a with
             | None => Some st
             | Some extent_a =>
                 match query_candidates sindex fid_a with
                 | None => None
                 | Some candidates =>
                     foldl_opt
                       (overlap_inner features extents min_overlap_area
                          duplicate_threshold partial_threshold
                          fid_a geom_a area_a extent_a)
                       st candidates
                 end
             end
  end.

(** The common body of [find_pairwise_overlaps] (from "Build spatial
    index" on) and of [BuildingOverlapChecker._find_overlaps]; it returns
    the final loop state. *)
Definition overlap_scan (features : list (Z * option G))
    (min_overlap_area duplicate_threshold partial_threshold : Q)
  : option ScanState :=
  let '(extents, total_width, total_height) := collect_extents features in
  if decide (size extents = 0%nat) then Some (∅, [])
  else
    let cs := derived_cell_size extents total_width total_height in
    match build_index cs features with
    | None => None
    | Some sindex =>
        let fids := features.*1 in
        foldl_opt
          (overlap_outer features sindex extents min_overlap_area
             duplicate_threshold partial_threshold)
          (∅, []) fids
    end.

(** [find_pairwise_overlaps]: the sequence of yielded records. *)
Definition find_pairwise_overlaps (features : list (Z * option G))
    (min_overlap_area duplicate_threshold partial_threshold : Q)
  : option (list OverlapResult) :=
  match features with
  | [] => Some []
  | _ =>
      match overlap_scan features min_overlap_area
              duplicate_threshold partial_threshold with
      | Some st => Some st.2
      | None => None
      end
  end.

(** [BuildingOverlapChecker._find_overlaps], with the two thresholds of
    [self.config]. *)
Definition BuildingOverlapChecker_find_overlaps
    (duplicate_ratio_min partial_ratio_min : Q)
    (geometries : list (Z * option G)) (min_area : Q)
  : option (list OverlapResult) :=
  if (length geometries <? 2)%nat then Some []
  else
    match overlap_scan geometries min_area
            duplicate_ratio_min partial_ratio_min with
    | Some st => Some st.2
    | None => None
    end.

End Provider.

Arguments OverlapResult G : clear implicits.
Arguments SpatialIndex G : clear implicits.
Arguments ScanState G : clear implicits.

End SpatialOps.

(** ** [checks/road_qc/engine.py] *)

Module RoadQC.

(** [(x, y)]. *)
Definition Point : Type := (Q * Q)%type.

(** [(road_fid, x, y, endpoint_index)]. *)
Definition Endpoint : Type := (Z * Q * Q * Z)%type.

(** [(fid, x, y)], the entries of the spatial hash. *)
Definition HashEntry : Type := (Z * Q * Q)%type.

Definition ep_fid (ep : Endpoint) : Z := ep.1.1.1.
Definition ep_x (ep : Endpoint) : Q := ep.1.1.2.
Definition ep_y (ep : Endpoint) : Q := ep.1.2.

(** [enumerate(l)]. *)
Definition enumerate {A : Type} (l : list A) : list (Z * A) :=
  imap (fun i a => (Z.of_nat i, a)) l.

(** The literals [1e-9] and [1e-12]. *)
Definition eps_cell : Q := 1 # 1000000000.
Definition eps_denom : Q := 1 # 1000000000000.

(** [_grid_key].  Its callers pass [cell = max(tolerance, 1e-9)], which is
    positive, so the division never raises. *)
Definition _grid_key (x y cell : Q) : Z * Z :=
  (Py.floordiv x cell, Py.floordiv y cell).

(** [grid[key].append(v)] on a [defaultdict(list)]. *)
Definition hash_append (grid : gmap (Z * Z) (list HashEntry))
    (key : Z * Z) (v : HashEntry) : gmap (Z * Z) (list HashEntry) :=
  <[key := default [] (grid !! key) ++ [v]]> grid.

(** Step 1 of [find_dangles], inner loop:
    [for i, (x, y) in enumerate(pts)]. *)
Definition flatten_points (cell : Q) (fid : Z)
    (st : list Endpoint * gmap (Z * Z) (list HashEntry))
    (pts : list Point) : list Endpoint * gmap (Z * Z) (list HashEntry) :=
  foldl (fun st ip =>
           let '(i, (x, y)) := ip in
           (st.1 ++ [(fid, x, y, i)],
            hash_append st.2 (_grid_key x y cell) (fid, x, y)))
        st (enumerate pts).

(** Step 1 of [find_dangles]: [(all_eps, grid)]. *)
Definition flatten_roads (cell : Q)
    (endpoints_by_road : list (Z * list Point))
  : list Endpoint * gmap (Z * Z) (list HashEntry) :=
  foldl (fun st item => flatten_points cell item.1 st item.2)
        ([], ∅) endpoints_by_road.

(** [(x - ox) ** 2 + (y - oy) ** 2 <= tol_sq], without rounding; as the
    code rounds it: [Binary64.within]. *)
Definition within (x y ox oy tol_sq : Q) : bool :=
  Py.le ((x - ox) ^ 2 + (y - oy) ^ 2)%Q tol_sq.

(** [for ofid, ox, oy in bucket], returning [connected]. *)
Fixpoint scan_bucket (fid : Z) (x y tol_sq : Q) (bucket : list HashEntry)
  : bool :=
  match bucket with
  | [] => false
  | (ofid, ox, oy) :: rest =>
      if decide (ofid = fid) then scan_bucket fid x y tol_sq rest
      else if within x y ox oy tol_sq then true
      else scan_bucket fid x y tol_sq rest
  end.

(** [for dy in (-1, 0, 1)], returning [connected]. *)
Fixpoint scan_dy (grid : gmap (Z * Z) (list HashEntry)) (gx gy dx : Z)
    (fid : Z) (x y tol_sq : Q) (dys : list Z) : bool :=
  match dys with
  | [] => false
  | dy :: rest =>
      match grid !! ((gx + dx)%Z, (gy + dy)%Z) with
      | None => scan_dy grid gx gy dx fid x y tol_sq rest
      | Some bucket =>
          if scan_bucket fid x y tol_sq bucket then true
          else scan_dy grid gx gy dx fid x y tol_sq rest
      end
  end.

(** [for dx in (-1, 0, 1)], returning [connected]. *)
Fixpoint scan_dx (grid : gmap (Z * Z) (list HashEntry)) (gx gy : Z)
    (fid : Z) (x y tol_sq : Q) (dxs : list Z) : bool :=
  match dxs with
  | [] => false
  | dx :: rest =>
      if scan_dy grid gx gy dx fid x y tol_sq [-1; 0; 1]%Z then true
      else scan_dx grid gx gy fid x y tol_sq rest
  end.

(** The value of [connected] after the 3x3 neighbourhood scan of one
    endpoint. *)
Definition is_connected (grid : gmap (Z * Z) (list HashEntry))
    (cell tol_sq : Q) (ep : Endpoint) : bool :=
  let '(fid, x, y, _) := ep in
  let '(gx, gy) := _grid_key x y cell in
  scan_dx grid gx gy fid x y tol_sq [-1; 0; 1]%Z.

(** [find_dangles]. *)
Definition find_dangles (endpoints_by_road : list (Z * list Point))
    (tolerance : Q) : list Endpoint :=
  let cell := Py.max tolerance eps_cell in
  let tol_sq := (tolerance * tolerance)%Q in
  let '(all_eps, grid) := flatten_roads cell endpoints_by_road in
  foldl (fun dangles ep =>
           if is_connected grid cell tol_sq ep then dangles
           else dangles ++ [ep])
        [] all_eps.

(** [dangle_count[fid] += 1] over the dangles, on a [defaultdict(int)]. *)
Definition count_dangles (dangles : list Endpoint) : gmap Z Z :=
  foldl (fun dangle_count ep =>
           <[ep_fid ep := (default 0 (dangle_count !! ep_fid ep) + 1)%Z]>
             dangle_count)
        ∅ dangles.

(** [find_disconnected]. *)
Definition find_disconnected (endpoints_by_road : list (Z * list Point))
    (tolerance : Q) : list Z * list Endpoint :=
  let dangles := find_dangles endpoints_by_road tolerance in
  let dangle_count := count_dangles dangles in
  let disconnected :=
    (filter (fun item : Z * list Point =>
               (Z.of_nat (length item.2)
                <= default 0 (dangle_count !! item.1))%Z)
            endpoints_by_road).*1 in
  (disconnected, dangles).

(** [_cross2d], without rounding; as the code rounds it:
    [Binary64._cross2d]. *)
Definition _cross2d (ox oy ax ay bx by_ : Q) : Q :=
  ((ax - ox) * (by_ - oy) - (ay - oy) * (bx - ox))%Q.

(** [_on_segment]. *)
Definition _on_segment (px py qx qy rx ry : Q) : bool :=
  (Py.le (Py.min px rx) qx && Py.le qx (Py.max px rx)
   && Py.le (Py.min py ry) qy && Py.le qy (Py.max py ry))%bool.

(** [_segments_cross]. *)
Definition _segments_cross (p1 q1 p2 q2 : Point) : bool :=
  let d1 := _cross2d p2.1 p2.2 q2.1 q2.2 p1.1 p1.2 in
  let d2 := _cross2d p2.1 p2.2 q2.1 q2.2 q1.1 q1.2 in
  let d3 := _cross2d p1.1 p1.2 q1.1 q1.2 p2.1 p2.2 in
  let d4 := _cross2d p1.1 p1.2 q1.1 q1.2 q2.1 q2.2 in
  if (((Py.lt 0 d1 && Py.lt d2 0) || (Py.lt d1 0 && Py.lt 0 d2))
      && ((Py.lt 0 d3 && Py.lt d4 0) || (Py.lt d3 0 && Py.lt 0 d4)))%bool
  then true
  else if (Py.eq d1 0 && _on_segment p2.1 p2.2 p1.1 p1.2 q2.1 q2.2)%bool
  then true
  else if (Py.eq d2 0 && _on_segment p2.1 p2.2 q1.1 q1.2 q2.1 q2.2)%bool
  then true
  else if (Py.eq d3 0 && _on_segment p1.1 p1.2 p2.1 p2.2 q1.1 q1.2)%bool
  then true
  else if (Py.eq d4 0 && _on_segment p1.1 p1.2 q2.1 q2.2 q1.1 q1.2)%bool
  then true
  else false.

(** [_intersection_point], without rounding; as the code rounds it:
    [Binary64._intersection_point]. *)
Definition _intersection_point (p1 q1 p2 q2 : Point) : option Point :=
  let '(x1, y1) := p1 in
  let '(x2, y2) := q1 in
  let '(x3, y3) := p2 in
  let '(x4, y4) := q2 in
  let denom := ((x1 - x2) * (y3 - y4) - (y1 - y2) * (x3 - x4))%Q in
  if Py.lt (Py.abs denom) eps_denom then None
  else
    let t := (((x1 - x3) * (y3 - y4) - (y1 - y3) * (x3 - x4)) / denom)%Q in
    Some ((x1 + t * (x2 - x1))%Q, (y1 + t * (y2 - y1))%Q).

(** [part[i]]; every index the loops below use is within [0, len(part))]
    (lemma [segment_indices_in_range]), so no [IndexError] arises. *)
Definition at_index (part : list Point) (i : Z) : Point :=
  nth (Z.to_nat i) part (0%Q, 0%Q).

(** [for j in range(i + 2, n - 1)]: the first reported point, if any. *)
Fixpoint scan_j (part : list Point) (i : Z) (js : list Z) : option Point :=
  match js with
  | [] => None
  | j :: rest =>
      if _segments_cross (at_index part i) (at_index part (i + 1))
                         (at_index part j) (at_index part (j + 1))
      then match _intersection_point
                   (at_index part i) (at_index part (i + 1))
                   (at_index part j) (at_index part (j + 1)) with
           | Some pt => Some pt
           | None => scan_j part i rest
           end
      else scan_j part i rest
  end.

(** [for i in range(n - 1)]. *)
Fixpoint scan_i (part : list Point) (n : Z) (is_ : list Z) : option Point :=
  match is_ with
  | [] => None
  | i :: rest =>
      match scan_j part i (Py.range (i + 2) (n - 1)) with
      | Some pt => Some pt
      | None => scan_i part n rest
      end
  end.

(** [for part in parts]. *)
Fixpoint scan_parts (parts : list (list Point)) : option Point :=
  match parts with
  | [] => None
  | part :: rest =>
      let n := Z.of_nat (length part) in
      if (n <? 4)%Z then scan_parts rest
      else match scan_i part n (Py.range 0 (n - 1)) with
           | Some pt => Some pt
           | None => scan_parts rest
           end
  end.

(** [find_self_intersections]. *)
Definition find_self_intersections
    (vertices_by_road : list (Z * list (list Point))) : list (Z * Q * Q) :=
  foldl (fun results item =>
           match scan_parts item.2 with
           | Some pt => results ++ [(item.1, pt.1, pt.2)]
           | None => results
           end)
        [] vertices_by_road.

End RoadQC.

(** ** The specification's reading of a dangle *)

Module DangleSpec.
Import RoadQC.

(** Every endpoint of every road, in the order of the mapping. *)
Definition all_endpoints (endpoints_by_road : list (Z * list Point))
  : list Endpoint :=
  flat_map (fun item : Z * list Point =>
              imap (fun i (p : Point) => (item.1, p.1, p.2, Z.of_nat i)) item.2)
           endpoints_by_road.

(** Some endpoint of a different road lies within squared distance
    [tolerance * tolerance] of [ep]. *)
Definition has_neighbour (eps : list Endpoint) (tolerance : Q)
    (ep : Endpoint) : bool :=
  existsb (fun o => negb (ep_fid o =? ep_fid ep)%Z
                    && within (ep_x ep) (ep_y ep) (ep_x o) (ep_y o)
                         (tolerance * tolerance)%Q)
          eps.

(** The endpoints with no such neighbour. *)
Definition naive_dangles (endpoints_by_road : list (Z * list Point))
    (tolerance : Q) : list Endpoint :=
  let eps := all_endpoints endpoints_by_road in
  List.filter (fun ep => negb (has_neighbour eps tolerance ep)) eps.

(** The number of dangles that belong to road [fid]. *)
Definition dangles_of (fid : Z) (dangles : list Endpoint) : Z :=
  Z.of_nat (length (List.filter (fun ep => (ep_fid ep =? fid)%Z) dangles)).

End DangleSpec.

(** ** A geometry provider over axis-aligned rectangles

    A small concrete instance of [ArcGeometry], used to run the code on
    explicit inputs: a geometry is a type label, a vertex count and a
    bounding rectangle. *)

Module Rect.

Record RectGeom : Type := mkRect {
  rg_type : string;
  rg_points : Z;
  rg_extent : Extent
}.

Definition width (e : Extent) : Q := (e_xmax e - e_xmin e)%Q.
Definition height (e : Extent) : Q := (e_ymax e - e_ymin e)%Q.

Definition is_polygon (g : RectGeom) : bool :=
  String.eqb (rg_type g) "Polygon".

Definition rect_area (g : RectGeom) : Q :=
  if is_polygon g then (width (rg_extent g) * height (rg_extent g))%Q else 0%Q.

Definition rect_length (g : RectGeom) : Q :=
  (2 * (width (rg_extent g) + height (rg_extent g)))%Q.

(** The common rectangle of two polygons, when it has positive width and
    height. *)
Definition rect_intersect (a b : RectGeom) (dimension : Z)
  : Attempt (option RectGeom) :=
  let ea := rg_extent a in
  let eb := rg_extent b in
  let i : Extent :=
    (Py.max (e_xmin ea) (e_xmin eb), Py.max (e_ymin ea) (e_ymin eb),
     Py.min (e_xmax ea) (e_xmax eb), Py.min (e_ymax ea) (e_ymax eb)) in
  if (is_polygon a && is_polygon b
      && Py.lt (e_xmin i) (e_xmax i) && Py.lt (e_ymin i) (e_ymax i))%bool
  then Ok (Some (mkRect "Polygon" 5 i))
  else Ok None.

(** The rectangle grown by [distance] on every side. *)
Definition rect_buffer (g : RectGeom) (distance : Q)
  : Attempt (option RectGeom) :=
  let e := rg_extent g in
  Ok (Some (mkRect "Polygon" 5
              ((e_xmin e - distance)%Q, (e_ymin e - distance)%Q,
               (e_xmax e + distance)%Q, (e_ymax e + distance)%Q))).

#[global] Instance rect_geometry : ArcGeometry RectGeom := {|
  pointCount := rg_points;
  geom_type := rg_type;
  geom_area := rect_area;
  geom_length := rect_length;
  geom_extent := fun g => Ok (rg_extent g);
  geom_intersect := rect_intersect;
  geom_buffer := rect_buffer
|}.

(** The polygon with corners [(x0, y0)] and [(x1, y1)]. *)
Definition box (x0 y0 x1 y1 : Q) : option RectGeom :=
  Some (mkRect "Polygon" 5 (x0, y0, x1, y1)).

End Rect.

(** ** Invariants and specification-side predicates

    The predicates in which the properties of Part II are stated: what the
    spatial hash and the grid index hold, what the scan has established
    about a record, and when two segments meet. *)

Module RoadInv.
Import RoadQC.

(** What step 1 maintains: the flat list [eps] and a hash [g] that holds,
    under the key of its coordinates, one entry per endpoint of [eps]. *)
Definition hash_ok (cell : Q) (eps : list Endpoint)
    (g : gmap (Z * Z) (list HashEntry)) : Prop :=
  forall key (e : HashEntry),
    e ∈ default [] (g !! key)
    <-> (exists i, (e.1.1, e.1.2, e.2, i) ∈ eps)
        /\ _grid_key e.1.2 e.2 cell = key.

(** An entry of another road, within [t], in the bucket of [key]. *)
Definition hit (g : gmap (Z * Z) (list HashEntry)) (key : Z * Z)
    (fid : Z) (x y t : Q) : Prop :=
  exists e : HashEntry, e ∈ default [] (g !! key) /\ e.1.1 <> fid
            /\ within x y e.1.2 e.2 t = true.

End RoadInv.

Module IndexInv.

(** The ids stored under a grid key. *)
Definition bucket (g : gmap (Z * Z) (list Z)) (key : Z * Z) : list Z :=
  default [] (g !! key).

(** [key] is one of the cells of the rectangle of cells [bounds]. *)
Definition in_bounds (bounds : Z * Z * Z * Z) (key : Z * Z) : Prop :=
  let '(col_min, col_max, row_min, row_max) := bounds in
  (col_min <= key.1 <= col_max)%Z /\ (row_min <= key.2 <= row_max)%Z.

(** A rectangle: [xmin <= xmax] and [ymin <= ymax]. *)
Definition extent_wf (e : Extent) : Prop :=
  (e_xmin e <= e_xmax e)%Q /\ (e_ymin e <= e_ymax e)%Q.

Section Provider.
Context {G : Type} `{ArcGeometry G}.

(** The [extents] dictionary that the first loop of the scan builds. *)
Definition extent_map (features : list (Z * option G)) : gmap Z Extent :=
  (SpatialOps.collect_extents features).1.1.

(** What [build_index cs features] establishes. *)
Record index_inv (cs : Q) (features : list (Z * option G))
    (idx : SpatialOps.SpatialIndex G) : Prop := mk_index_inv {
  inv_cell_size : SpatialOps.cell_size idx = cs;
  inv_extents : SpatialOps.extents idx = extent_map features;
  inv_dom : forall fid e,
      SpatialOps.extents idx !! fid = Some e ->
      exists geom, (fid, geom) ∈ features
                   /\ Geometry.get_geometry_extent geom = Some e;
  inv_covers : forall fid e b key,
      SpatialOps.extents idx !! fid = Some e ->
      SpatialOps.cell_bounds cs e = Some b ->
      in_bounds b key -> fid ∈ bucket (SpatialOps.grid idx) key;
  inv_members : forall key x,
      x ∈ bucket (SpatialOps.grid idx) key ->
      is_Some (SpatialOps.extents idx !! x);
  inv_exact : NoDup features.*1 ->
      forall key x,
        x ∈ bucket (SpatialOps.grid idx) key ->
        exists e b, SpatialOps.extents idx !! x = Some e
                    /\ SpatialOps.cell_bounds cs e = Some b
                    /\ in_bounds b key
}.

End Provider.

End IndexInv.

Module ScanInv.
Section Provider.
Context {G : Type} `{ArcGeometry G}.

(** [pair_key = (min(fid_a, fid_b), max(fid_a, fid_b))]. *)
Definition pair_key (a b : Z) : Z * Z := (Z.min a b, Z.max a b).

(** The unordered id pair of a record. *)
Definition result_key (r : SpatialOps.OverlapResult G) : Z * Z :=
  pair_key (SpatialOps.fid_a r) (SpatialOps.fid_b r).

(** A feature that passes the three checks the scan makes on either side of
    a pair: a valid polygon, of positive area, with an extent. *)
Definition usable (features : list (Z * option G)) (extents : gmap Z Extent)
    (fid : Z) : Prop :=
  exists geom e,
    Py.dict_get features fid = Some geom
    /\ Geometry.validate_polygon_geometry geom = true
    /\ (0 < Geometry.get_geometry_area geom)%Q
    /\ extents !! fid = Some e.

(** Everything the emission path has established about a yielded record. *)
Definition emitted (features : list (Z * option G)) (extents : gmap Z Extent)
    (min_overlap_area duplicate_threshold partial_threshold : Q)
    (r : SpatialOps.OverlapResult G) : Prop :=
  exists geom_a geom_b ea eb,
    Py.dict_get features (SpatialOps.fid_a r) = Some geom_a
    /\ Py.dict_get features (SpatialOps.fid_b r) = Some geom_b
    /\ Geometry.validate_polygon_geometry geom_a = true
    /\ Geometry.validate_polygon_geometry geom_b = true
    /\ (0 < Geometry.get_geometry_area geom_a)%Q
    /\ (0 < Geometry.get_geometry_area geom_b)%Q
    /\ extents !! SpatialOps.fid_a r = Some ea
    /\ extents !! SpatialOps.fid_b r = Some eb
    /\ SpatialOps.extents_intersect ea eb = true
    /\ Geometry.get_intersection_geometry geom_a geom_b 4
       = Some (SpatialOps.overlap_geometry r)
    /\ SpatialOps.overlap_area r
       = Geometry.get_geometry_area (Some (SpatialOps.overlap_geometry r))
    /\ (min_overlap_area <= SpatialOps.overlap_area r)%Q
    /\ SpatialOps.overlap_ratio r
       = (SpatialOps.overlap_area r
          / Py.min (Geometry.get_geometry_area geom_a)
                   (Geometry.get_geometry_area geom_b))%Q
    /\ SpatialOps.overlap_type r
       = SpatialOps.classify_overlap (SpatialOps.overlap_ratio r)
           duplicate_threshold partial_threshold.

(** *** The run, observed

    The same two loops with a log beside the loop state: every time a
    candidate passes the test [pair_key in processed_pairs] (and so goes on
    to be evaluated), its pair is appended to the log.  The loop state
    itself is computed by [overlap_inner], unchanged. *)

Definition TracedState : Type := (SpatialOps.ScanState G * list (Z * Z))%type.

Definition inner_traced (features : list (Z * option G))
    (extents : gmap Z Extent)
    (min_overlap_area duplicate_threshold partial_threshold : Q)
    (fid_a : Z) (geom_a : option G) (area_a : Q) (extent_a : Extent)
    (ts : TracedState) (fid_b : Z) : option TracedState :=
  let '(st, log) := ts in
  match SpatialOps.overlap_inner features extents min_overlap_area
          duplicate_threshold partial_threshold
          fid_a geom_a area_a extent_a st fid_b with
  | Some st' =>
      Some (st', if decide (pair_key fid_a fid_b ∈ st.1) then log
                 else log ++ [pair_key fid_a fid_b])
  | None => None
  end.

Definition outer_traced (features : list (Z * option G))
    (sindex : SpatialOps.SpatialIndex G) (extents : gmap Z Extent)
    (min_overlap_area duplicate_threshold partial_threshold : Q)
    (ts : TracedState) (fid_a : Z) : option TracedState :=
  match Py.dict_get features fid_a with
  | None => None
  | Some geom_a =>
      if negb (Geometry.validate_polygon_geometry geom_a) then Some ts
      else
        let area_a := Geometry.get_geometry_area geom_a in
        if Py.le area_a 0 then Some ts
        else match extents !! fid_a with
             | None => Some ts
             | Some extent_a =>
                 match SpatialOps.query_candidates sindex fid_a with
                 | None => None
                 | Some candidates =>
                     foldl_opt
                       (inner_traced features extents min_overlap_area
                          duplicate_threshold partial_threshold
                          fid_a geom_a area_a extent_a)
                       ts candidates
                 end
             end
  end.

(** The log of a whole run of the scan: the pairs that were evaluated, in
    order. *)
Definition evaluated_pairs (features : list (Z * option G))
    (min_overlap_area duplicate_threshold partial_threshold : Q)
  : option (list (Z * Z)) :=
  let '(extents, total_width, total_height) :=
    SpatialOps.collect_extents features in
  if decide (size extents = 0%nat) then Some []
  else
    let cs := SpatialOps.derived_cell_size extents total_width total_height in
    match SpatialOps.build_index cs features with
    | None => None
    | Some sindex =>
        match foldl_opt
                (outer_traced features sindex extents min_overlap_area
                   duplicate_threshold partial_threshold)
                ((∅, []), []) features.*1 with
        | Some ts => Some ts.2
        | None => None
        end
    end.

(** What the log satisfies along the run: no pair twice, every logged pair
    is marked as processed, every record's pair is logged. *)
Definition log_ok (st : SpatialOps.ScanState G) (log : list (Z * Z)) : Prop :=
  NoDup log
  /\ (forall k, k ∈ log -> k ∈ st.1)
  /\ (forall r, r ∈ st.2 -> result_key r ∈ log).

End Provider.
End ScanInv.

Module OrderInv.
Section Provider.
Context {G : Type} `{ArcGeometry G}.

(** [a] occurs before [b] in [l]. *)
Definition precedes (l : list Z) (a b : Z) : Prop :=
  exists l1 l2 l3, l = l1 ++ a :: l2 ++ b :: l3.

(** Every pair made of a usable feature already visited by the outer loop
    and one of its candidates is marked as processed. *)
Definition candidates_marked (features : list (Z * option G))
    (extents : gmap Z Extent) (idx : SpatialOps.SpatialIndex G)
    (P : gset (Z * Z)) (visited : list Z) : Prop :=
  forall b cands c,
    b ∈ visited ->
    ScanInv.usable features extents b ->
    SpatialOps.query_candidates idx b = Some cands ->
    c ∈ cands ->
    ScanInv.pair_key b c ∈ P.

End Provider.
End OrderInv.

Module SegmentSpec.
Import RoadQC.

(** [r] lies on the closed segment from [p] to [q]. *)
Definition lies_on (p q r : Point) : Prop :=
  exists t : Q,
    (0 <= t)%Q /\ (t <= 1)%Q
    /\ (r.1 == p.1 + t * (q.1 - p.1))%Q
    /\ (r.2 == p.2 + t * (q.2 - p.2))%Q.

(** The two segments have a point in common. *)
Definition segments_meet (p1 q1 p2 q2 : Point) : Prop :=
  exists r : Point, lies_on p1 q1 r /\ lies_on p2 q2 r.

(** A vertex chain in which no two segments that are at least two apart in
    the chain have a point in common. *)
Definition non_adjacent_disjoint (part : list Point) : Prop :=
  forall i j : Z,
    (0 <= i)%Z -> (i + 2 <= j)%Z -> (j + 1 < Z.of_nat (length part))%Z ->
    ~ segments_meet (at_index part i) (at_index part (i + 1))
                    (at_index part j) (at_index part (j + 1)).

End SegmentSpec.

(** ** Sample inputs *)

Module Samples.

(** Two overlapping boxes. *)
Definition two_boxes : list (Z * option Rect.RectGeom) :=
  [(1%Z, Rect.box 0 0 2 2); (2%Z, Rect.box 1 1 3 3)].

(** The two unit squares of the specification's overlap scenario. *)
Definition unit_squares : list (Z * option Rect.RectGeom) :=
  [(1%Z, Rect.box 0 0 1 1); (2%Z, Rect.box (1 # 2) (1 # 2) (3 # 2) (3 # 2))].

(** The same two squares, entered in the mapping in descending id order. *)
Definition unit_squares_descending : list (Z * option Rect.RectGeom) :=
  [(2%Z, Rect.box 0 0 1 1); (1%Z, Rect.box (1 # 2) (1 # 2) (3 # 2) (3 # 2))].

End Samples.

(** ** Further specification-side predicates *)

Module BoxSpec.

(** The point [(x, y)] lies in the closed rectangle [e]. *)
Definition in_extent (e : Extent) (x y : Q) : Prop :=
  (e_xmin e <= x)%Q /\ (x <= e_xmax e)%Q
  /\ (e_ymin e <= y)%Q /\ (y <= e_ymax e)%Q.

End BoxSpec.

(** ** [checks/building_overlap.py]: statistics *)

Module OverlapStats.
Section Provider.
Context {G : Type} `{ArcGeometry G}.

(** The [stats] dictionary of [_calculate_stats], one field per key. *)
Record Stats : Type := mkStats {
  duplicates : Z;
  partials : Z;
  slivers : Z;
  total_area : Q
}.

(** Body of [for overlap in overlaps]. *)
Definition count_overlap (stats : Stats) (overlap : SpatialOps.OverlapResult G)
  : Stats :=
  let stats := mkStats (duplicates stats) (partials stats) (slivers stats)
                 (total_area stats + SpatialOps.overlap_area overlap)%Q in
  if String.eqb (SpatialOps.overlap_type overlap) "DUPLICATE"
  then mkStats (duplicates stats + 1) (partials stats) (slivers stats)
         (total_area stats)
  else if String.eqb (SpatialOps.overlap_type overlap) "PARTIAL"
  then mkStats (duplicates stats) (partials stats + 1) (slivers stats)
         (total_area stats)
  else mkStats (duplicates stats) (partials stats) (slivers stats + 1)
         (total_area stats).

(** [BuildingOverlapChecker._calculate_stats]. *)
Definition _calculate_stats (overlaps : list (SpatialOps.OverlapResult G))
  : Stats :=
  foldl count_overlap (mkStats 0 0 0 0%Q) overlaps.

(** The number of records of a given type, and the sum of the areas. *)
Definition count_type (ty : string) (overlaps : list (SpatialOps.OverlapResult G))
  : Z :=
  Z.of_nat (length (List.filter
                      (fun o => String.eqb (SpatialOps.overlap_type o) ty)
                      overlaps)).

Definition area_sum (overlaps : list (SpatialOps.OverlapResult G)) : Q :=
  foldr (fun o acc => (SpatialOps.overlap_area o + acc)%Q) 0%Q overlaps.

End Provider.

Arguments Stats : clear implicits.

End OverlapStats.

(** ** The endpoints of one road *)

Module RoadSpec.
Import RoadQC.

(** The entries of [all_eps] that one item [fid: pts] of the mapping
    contributes: [(fid, x, y, i)] for [i, (x, y) in enumerate(pts)]. *)
Definition road_endpoints (fid : Z) (pts : list Point) : list Endpoint :=
  imap (fun i (p : Point) => (fid, p.1, p.2, Z.of_nat i)) pts.

End RoadSpec.

(** ** The roads that a sweep reports *)

Module ChainSpec.
Import RoadQC.

(** The ids of the reported roads, in order. *)
Definition reported_ids (results : list (Z * Q * Q)) : list Z :=
  (fun r : Z * Q * Q => r.1.1) <$> results.

End ChainSpec.

(** ** [checks/building_road_conflict.py] *)

Module PyDict.

(** [d[k] = v] on a dictionary kept as an association list in insertion
    order: an existing key keeps its place and takes the new value, a new
    key goes to the end. *)
Fixpoint dict_set {V : Type} (d : list (Z * V)) (k : Z) (v : V)
  : list (Z * V) :=
  match d with
  | [] => [(k, v)]
  | (k', v') :: rest =>
      if decide (k' = k) then (k, v) :: rest
      else (k', v') :: dict_set rest k v
  end.

End PyDict.

Module RoadConflict.
Section Provider.
Context {G : Type} `{ArcGeometry G}.

(** [@dataclass ConflictResult]. *)
Record ConflictResult : Type := mkConflictResult {
  building_fid : Z;
  road_fid : Z;
  conflict_geometry : G;
  conflict_area : Q;
  road_buffer_distance : Q
}.

(** [avg_sz] and [cell_sz] of [_find_conflicts]. *)
Definition conflict_cell_size (building_extents : gmap Z Extent)
    (total_w total_h buffer_distance : Q) : Q :=
  let avg_sz :=
    Py.max ((total_w + total_h)
            / (2 * inject_Z (Z.max (Z.of_nat (size building_extents)) 1)))%Q
           10%Q in
  Py.max (avg_sz * 3)%Q (buffer_distance * 2)%Q.

(** The second loop over the buildings: the extent is stored again and the
    building is inserted into the index. *)
Definition index_buildings (cell_sz : Q) (building_extents : gmap Z Extent)
    (buildings : list (Z * option G))
  : option (gmap Z Extent * SpatialOps.SpatialIndex G) :=
  foldl_opt (fun st item =>
               match Geometry.get_geometry_extent item.2 with
               | Some extent =>
                   match SpatialOps.insert st.2 item.1 item.2 with
                   | Some building_index =>
                       Some (<[item.1 := extent]> st.1, building_index)
                   | None => None
                   end
               | None => Some st
               end)
            (building_extents, SpatialOps.SpatialIndex_init cell_sz) buildings.

(** The loop that buffers the roads: [(buffered_roads, buffered_extents)]. *)
Definition buffer_roads (roads : list (Z * option G)) (buffer_distance : Q)
  : list (Z * G) * gmap Z Extent :=
  foldl (fun st item =>
           if negb (Geometry.validate_line_geometry item.2) then st
           else match Geometry.buffer_geometry item.2 buffer_distance with
                | None => st
                | Some buffered =>
                    match Geometry.get_geometry_extent (Some buffered) with
                    | None => st
                    | Some bext =>
                        (PyDict.dict_set st.1 item.1 buffered,
                         <[item.1 := bext]> st.2)
                    end
                end)
        ([], ∅) roads.

(** Body of [for building_fid in candidates]. *)
Definition conflict_inner (buildings : list (Z * option G))
    (building_extents : gmap Z Extent) (min_area buffer_distance : Q)
    (road_fid : Z) (buffered : G) (buffer_extent : Extent)
    (results : list ConflictResult) (building_fid : Z)
  : list ConflictResult :=
  match Py.dict_get buildings building_fid with
  | Some (Some building_geom) =>
      if negb (Geometry.validate_polygon_geometry (Some building_geom))
      then results
      else
        match building_extents !! building_fid with
        | None => results
        | Some building_extent =>
            if negb (SpatialOps.extents_intersect buffer_extent building_extent)
            then results
            else
              match Geometry.get_intersection_geometry
                      (Some building_geom) (Some buffered) 4 with
              | None => results
              | Some intersection =>
                  let conflict_area :=
                    Geometry.get_geometry_area (Some intersection) in
                  if Py.lt conflict_area min_area then results
                  else results ++
                         [mkConflictResult building_fid road_fid intersection
                            conflict_area buffer_distance]
              end
        end
  | _ => results
  end.

(** Body of [for idx, (road_fid, buffered) in enumerate(...)]; the progress
    tracker has no effect on the results. *)
Definition conflict_outer (buildings : list (Z * option G))
    (building_extents : gmap Z Extent)
    (building_index : SpatialOps.SpatialIndex G)
    (buffered_extents : gmap Z Extent) (min_area buffer_distance : Q)
    (results : list ConflictResult) (item : Z * G)
  : option (list ConflictResult) :=
  match buffered_extents !! item.1 with
  | None => None
  | Some buffer_extent =>
      match SpatialOps.query_by_extent building_index buffer_extent with
      | None => None
      | Some candidates =>
          Some (foldl (conflict_inner buildings building_extents min_area
                         buffer_distance item.1 item.2 buffer_extent)
                      results candidates)
      end
  end.

(** [BuildingRoadConflictChecker._find_conflicts]. *)
Definition _find_conflicts (buildings roads : list (Z * option G))
    (buffer_distance min_area : Q) : option (list ConflictResult) :=
  let '(building_extents, total_w, total_h) :=
    SpatialOps.collect_extents buildings in
  let cell_sz :=
    conflict_cell_size building_extents total_w total_h buffer_distance in
  match index_buildings cell_sz building_extents buildings with
  | None => None
  | Some (building_extents, building_index) =>
      let '(buffered_roads, buffered_extents) :=
        buffer_roads roads buffer_distance in
      foldl_opt (conflict_outer buildings building_extents building_index
                   buffered_extents min_area buffer_distance)
                [] buffered_roads
  end.

(** [find_features_intersecting_buffer] of [core/spatial_ops.py]. *)
Definition find_features_intersecting_buffer
    (features : list (Z * option G)) (buffer_geometry : option G)
    (min_intersection_area : Q) : list (Z * G * Q) :=
  if Geometry.is_geometry_null buffer_geometry then []
  else
    match Geometry.get_geometry_extent buffer_geometry with
    | None => []
    | Some buffer_extent =>
        foldl (fun results item =>
                 if negb (Geometry.validate_polygon_geometry item.2)
                 then results
                 else
                   match Geometry.get_geometry_extent item.2 with
                   | None => results
                   | Some feat_extent =>
                       if negb (SpatialOps.extents_intersect
                                  buffer_extent feat_extent)
                       then results
                       else
                         match Geometry.get_intersection_geometry
                                 item.2 buffer_geometry 4 with
                         | None => results
                         | Some intersection =>
                             let inter_area :=
                               Geometry.get_geometry_area (Some intersection) in
                             if Py.le min_intersection_area inter_area
                             then results ++ [(item.1, intersection, inter_area)]
                             else results
                         end
                   end)
              [] features
    end.

(** What the emission path of [_find_conflicts] has established about a
    record. *)
Definition conflict_ok (buildings roads : list (Z * option G))
    (buffer_distance min_area : Q) (r : ConflictResult) : Prop :=
  exists (bg : G) (rg : option G) (buffered : G) (be re : Extent),
    Py.dict_get buildings (building_fid r) = Some (Some bg)
    /\ Geometry.validate_polygon_geometry (Some bg) = true
    /\ IndexInv.extent_map buildings !! building_fid r = Some be
    /\ (road_fid r, rg) ∈ roads
    /\ Geometry.validate_line_geometry rg = true
    /\ Geometry.buffer_geometry rg buffer_distance = Some buffered
    /\ Geometry.get_geometry_extent (Some buffered) = Some re
    /\ SpatialOps.extents_intersect re be = true
    /\ Geometry.get_intersection_geometry (Some bg) (Some buffered) 4
       = Some (conflict_geometry r)
    /\ conflict_area r
       = Geometry.get_geometry_area (Some (conflict_geometry r))
    /\ (min_area <= conflict_area r)%Q
    /\ (0 < conflict_area r)%Q
    /\ road_buffer_distance r = buffer_distance.

(** A road that reaches the dictionary of buffered roads, with its buffer
    and the extent of the buffer. *)
Definition bufferable (buffer_distance : Q) (rg : option G) (buffered : G)
    (bext : Extent) : Prop :=
  Geometry.validate_line_geometry rg = true
  /\ Geometry.buffer_geometry rg buffer_distance = Some buffered
  /\ Geometry.get_geometry_extent (Some buffered) = Some bext.

(** Each entry of [items] is the buffer of a road of the mapping, and its
    extent is stored under the same key. *)
Definition items_ok (roads : list (Z * option G)) (buffer_distance : Q)
    (buffered_extents : gmap Z Extent) (items : list (Z * G)) : Prop :=
  forall k v, (k, v) ∈ items ->
    exists rg bext, (k, rg) ∈ roads
                    /\ bufferable buffer_distance rg v bext
                    /\ buffered_extents !! k = Some bext.

(** What the buffering loop maintains. *)
Definition buffered_ok (buffer_distance : Q) (prefix : list (Z * option G))
    (st : list (Z * G) * gmap Z Extent) : Prop :=
  NoDup st.1.*1 /\ items_ok prefix buffer_distance st.2 st.1.

(** The [(building, road)] id pair of a record. *)
Definition conflict_key (r : ConflictResult) : Z * Z :=
  (building_fid r, road_fid r).

End Provider.

Arguments ConflictResult G : clear implicits.

End RoadConflict.

(** ** [utils/cursor_helpers.py] *)

Module Cursor.
Section Provider.
Context {G : Type}.

(** [read_geometries_to_dict], on the rows [(oid, geometry)] that the
    search cursor yields; a null geometry comes as [None]. *)
Definition read_geometries_to_dict (rows : list (Z * option G))
  : list (Z * option G) :=
  foldl (fun result row =>
           match row.2 with
           | Some geometry => PyDict.dict_set result row.1 (Some geometry)
           | None => result
           end)
        [] rows.

End Provider.
End Cursor.

(** ** The UTM zone of [check_overlaps] and [check_conflicts] *)

Module Utm.

(** [int(x)] on a float: truncation toward zero. *)
Definition py_int (x : Q) : Z := Z.quot (Qnum x) (Zpos (Qden x)).

(** [utm_zone = int((center_lon + 180) / 6) + 1], without rounding.  In
    binary64 the sum and the quotient are rounded, which moves a longitude
    within rounding of the upper edge of a band into the next zone. *)
Definition utm_zone (center_lon : Q) : Z :=
  (py_int ((center_lon + 180) / 6) + 1)%Z.

(** [epsg = 32600 + utm_zone if center_lat >= 0 else 32700 + utm_zone]. *)
Definition utm_epsg (center_lon center_lat : Q) : Z :=
  if Py.le 0 center_lat then (32600 + utm_zone center_lon)%Z
  else (32700 + utm_zone center_lon)%Z.

End Utm.

(** ** [utils/messaging.py]: the progress tracker *)

Module Messaging.

(** The calls that [update] makes on the progressor of ArcGIS. *)
Inductive ProgressorCall : Type :=
| SetProgressorLabel (status : string)
| SetProgressorPosition (position : Z).

(** [class ProgressTracker]. *)
Record ProgressTracker : Type := mkProgressTracker {
  label : string;
  total : Z;
  step_size : Z;
  current : Z;
  _last_reported : Z
}.

(** [ProgressTracker.__init__]. *)
Definition ProgressTracker_init (label : string) (total step_size : Z)
  : ProgressTracker :=
  mkProgressTracker label total step_size 0 0.

(** [ProgressTracker.update]: the new state and the calls made. *)
Definition update (self : ProgressTracker) (current_arg : option Z)
    (status : option string) : ProgressTracker * list ProgressorCall :=
  let current' :=
    match current_arg with
    | Some c => c
    | None => (current self + 1)%Z
    end in
  if (step_size self <=? current' - _last_reported self)%Z
  then (mkProgressTracker (label self) (total self) (step_size self)
          current' current',
        match status with
        | Some s => if String.eqb s "" then [] else [SetProgressorLabel s]
        | None => []
        end ++ [SetProgressorPosition current'])
  else (mkProgressTracker (label self) (total self) (step_size self)
          current' (_last_reported self),
        []).

(** [for idx, ... in enumerate(...): progress.update(idx, status)], as both
    checkers run it. *)
Definition run_updates (self : ProgressTracker) (status : Z -> option string)
    (idxs : list Z) : ProgressTracker * list ProgressorCall :=
  foldl (fun st idx =>
           let '(tracker, calls) := update st.1 (Some idx) (status idx) in
           (tracker, st.2 ++ calls))
        (self, []) idxs.

(** The positions passed to [SetProgressorPosition], in order. *)
Definition positions (calls : list ProgressorCall) : list Z :=
  omap (fun c => match c with
                 | SetProgressorPosition p => Some p
                 | SetProgressorLabel _ => None
                 end) calls.

End Messaging.

(** ** Writing the results *)

Module Writers.
Import SpatialOps RoadConflict.

Section Provider.
Context {G : Type} `{ArcGeometry G}.

(** [geom.projectAs(spatial_reference)]. *)
Variable projectAs : G -> Attempt G.

(** [geom = geom.projectAs(...)] under [try ... except: pass]. *)
Definition reprojected (reproject : bool) (geom : G) : G :=
  if reproject
  then match projectAs geom with
       | Ok g => g
       | Raised => geom
       end
  else geom.

(** The row of [_write_overlaps]. *)
Definition OverlapRow : Type := (G * Z * Z * Q * Q * string * string)%type.

(** [BuildingOverlapChecker._write_overlaps]: the rows handed to the
    insert cursor, in order, and the returned count.  [reproject] stands
    for [reproject_from is not None], [timestamp] for the value of
    [get_timestamp()]. *)
Definition _write_overlaps (overlaps : list (OverlapResult G))
    (reproject : bool) (timestamp : string) : list OverlapRow * Z :=
  match overlaps with
  | [] => ([], 0%Z)
  | _ =>
      foldl (fun st overlap =>
               let geom := reprojected reproject (overlap_geometry overlap) in
               (st.1 ++ [(geom, fid_a overlap, fid_b overlap,
                          overlap_area overlap, overlap_ratio overlap,
                          overlap_type overlap, timestamp)],
                (st.2 + 1)%Z))
            ([], 0%Z) overlaps
  end.

(** The row of [_write_conflicts]. *)
Definition ConflictRow : Type := (G * Z * Z * Q * Q * string)%type.

(** [BuildingRoadConflictChecker._write_conflicts]. *)
Definition _write_conflicts (conflicts : list (ConflictResult G))
    (reproject : bool) (timestamp : string) : list ConflictRow * Z :=
  match conflicts with
  | [] => ([], 0%Z)
  | _ =>
      foldl (fun st conflict =>
               let geom := reprojected reproject (conflict_geometry conflict) in
               (st.1 ++ [(geom, building_fid conflict, road_fid conflict,
                          conflict_area conflict,
                          road_buffer_distance conflict, timestamp)],
                (st.2 + 1)%Z))
            ([], 0%Z) conflicts
  end.

End Provider.
End Writers.

(** ** The loops of [checks/road_qc/engine.py], for any coordinate arithmetic

    [find_dangles] and [find_self_intersections] read the coordinates only
    through four operations: [_grid_key], the distance test
    [(x - ox) ** 2 + (y - oy) ** 2 <= tol_sq], [_segments_cross] and
    [_intersection_point].  Here the two functions take these operations as
    parameters, so that what is proved of them holds of the code in its own
    binary64 arithmetic, rounding and exceptions included, as well as of the
    idealisation over the rationals of [RoadQC]. *)

Module Engine.

(** The operation returned, without raising. *)
Definition returns {A : Type} (r : option A) : bool :=
  match r with
  | Some _ => true
  | None => false
  end.

Section Arithmetic.
Context {F : Type}.

(** [(x, y)], [(road_fid, x, y, endpoint_index)] and the hash entries
    [(fid, x, y)]. *)
Definition Point : Type := (F * F)%type.
Definition Endpoint : Type := (Z * F * F * Z)%type.
Definition HashEntry : Type := (Z * F * F)%type.

Definition ep_fid (ep : Endpoint) : Z := ep.1.1.1.
Definition ep_x (ep : Endpoint) : F := ep.1.1.2.
Definition ep_y (ep : Endpoint) : F := ep.1.2.

Section Dangles.

(** [_grid_key(x, y, cell)] for the [cell] of the run; [None] when [//] or
    [int] raises. *)
Variable grid_key : F -> F -> option (Z * Z).

(** [(x - ox) ** 2 + (y - oy) ** 2 <= tol_sq] for the [tol_sq] of the run,
    as [near x y ox oy]; [None] when [**] raises. *)
Variable near : F -> F -> F -> F -> option bool.

(** [grid[key].append(v)] on a [defaultdict(list)]. *)
Definition hash_append (grid : gmap (Z * Z) (list HashEntry))
    (key : Z * Z) (v : HashEntry) : gmap (Z * Z) (list HashEntry) :=
  <[key := default [] (grid !! key) ++ [v]]> grid.

(** Step 1 of [find_dangles], inner loop:
    [for i, (x, y) in enumerate(pts)]. *)
Definition flatten_points (fid : Z)
    (st : list Endpoint * gmap (Z * Z) (list HashEntry))
    (pts : list Point)
  : option (list Endpoint * gmap (Z * Z) (list HashEntry)) :=
  foldl_opt (fun st (ip : Z * Point) =>
               match grid_key ip.2.1 ip.2.2 with
               | Some key =>
                   Some (st.1 ++ [(fid, ip.2.1, ip.2.2, ip.1)],
                         hash_append st.2 key (fid, ip.2.1, ip.2.2))
               | None => None
               end)
            st (RoadQC.enumerate pts).

(** Step 1 of [find_dangles]: [(all_eps, grid)]. *)
Definition flatten_roads (endpoints_by_road : list (Z * list Point))
  : option (list Endpoint * gmap (Z * Z) (list HashEntry)) :=
  foldl_opt (fun st (item : Z * list Point) =>
               flatten_points item.1 st item.2)
            ([], ∅) endpoints_by_road.

(** [for ofid, ox, oy in bucket], returning [connected]. *)
Fixpoint scan_bucket (fid : Z) (x y : F) (bucket : list HashEntry)
  : option bool :=
  match bucket with
  | [] => Some false
  | (ofid, ox, oy) :: rest =>
      if decide (ofid = fid) then scan_bucket fid x y rest
      else match near x y ox oy with
           | Some true => Some true
           | Some false => scan_bucket fid x y rest
           | None => None
           end
  end.

(** [for dy in (-1, 0, 1)], returning [connected]. *)
Fixpoint scan_dy (grid : gmap (Z * Z) (list HashEntry)) (gx gy dx : Z)
    (fid : Z) (x y : F) (dys : list Z) : option bool :=
  match dys with
  | [] => Some false
  | dy :: rest =>
      match grid !! ((gx + dx)%Z, (gy + dy)%Z) with
      | None => scan_dy grid gx gy dx fid x y rest
      | Some bucket =>
          match scan_bucket fid x y bucket with
          | Some true => Some true
          | Some false => scan_dy grid gx gy dx fid x y rest
          | None => None
          end
      end
  end.

(** [for dx in (-1, 0, 1)], returning [connected]. *)
Fixpoint scan_dx (grid : gmap (Z * Z) (list HashEntry)) (gx gy : Z)
    (fid : Z) (x y : F) (dxs : list Z) : option bool :=
  match dxs with
  | [] => Some false
  | dx :: rest =>
      match scan_dy grid gx gy dx fid x y [-1; 0; 1]%Z with
      | Some true => Some true
      | Some false => scan_dx grid gx gy fid x y rest
      | None => None
      end
  end.

(** The value of [connected] after the 3x3 neighbourhood scan of one
    endpoint. *)
Definition is_connected (grid : gmap (Z * Z) (list HashEntry))
    (ep : Endpoint) : option bool :=
  match grid_key (ep_x ep) (ep_y ep) with
  | Some (gx, gy) =>
      scan_dx grid gx gy (ep_fid ep) (ep_x ep) (ep_y ep) [-1; 0; 1]%Z
  | None => None
  end.

(** [find_dangles], after [cell] and [tol_sq] are computed. *)
Definition find_dangles (endpoints_by_road : list (Z * list Point))
  : option (list Endpoint) :=
  match flatten_roads endpoints_by_road with
  | Some (all_eps, grid) =>
      foldl_opt (fun dangles ep =>
                   match is_connected grid ep with
                   | Some true => Some dangles
                   | Some false => Some (dangles ++ [ep])
                   | None => None
                   end)
                [] all_eps
  | None => None
  end.

(** *** The reading of the result *)

(** What step 1 maintains: the flat list [eps] and a hash [g] that holds,
    under the key of its coordinates, one entry per endpoint of [eps]. *)
Definition hash_ok (eps : list Endpoint)
    (g : gmap (Z * Z) (list HashEntry)) : Prop :=
  forall key (e : HashEntry),
    e ∈ default [] (g !! key)
    <-> (exists i, (e.1.1, e.1.2, e.2, i) ∈ eps)
        /\ grid_key e.1.2 e.2 = Some key.

(** An entry of another road in the bucket of [key] passes the test. *)
Definition hit (g : gmap (Z * Z) (list HashEntry)) (key : Z * Z)
    (fid : Z) (x y : F) : Prop :=
  exists e : HashEntry, e ∈ default [] (g !! key) /\ e.1.1 <> fid
            /\ near x y e.1.2 e.2 = Some true.

(** Every entry of another road in the bucket of [key] fails the test. *)
Definition miss (g : gmap (Z * Z) (list HashEntry)) (key : Z * Z)
    (fid : Z) (x y : F) : Prop :=
  forall e : HashEntry, e ∈ default [] (g !! key) -> e.1.1 <> fid ->
            near x y e.1.2 e.2 = Some false.

(** Every endpoint of every road, in the order of the mapping. *)
Definition all_endpoints (endpoints_by_road : list (Z * list Point))
  : list Endpoint :=
  flat_map (fun item : Z * list Point =>
              imap (fun i (p : Point) => (item.1, p.1, p.2, Z.of_nat i)) item.2)
           endpoints_by_road.

(** The code's test answers [True] for [o] as seen from [a]. *)
Definition passes (a o : Endpoint) : bool :=
  match near (ep_x a) (ep_y a) (ep_x o) (ep_y o) with
  | Some true => true
  | _ => false
  end.

(** The cell [k'] is [k] or one of its eight neighbours. *)
Definition adjacent (k k' : Z * Z) : bool :=
  ((k.1 - 1 <=? k'.1) && (k'.1 <=? k.1 + 1)
   && (k.2 - 1 <=? k'.2) && (k'.2 <=? k.2 + 1))%Z.

(** [o] is hashed into the 3x3 block of cells around the cell of [a]. *)
Definition in_block (a o : Endpoint) : bool :=
  match grid_key (ep_x a) (ep_y a), grid_key (ep_x o) (ep_y o) with
  | Some k, Some k' => adjacent k k'
  | _, _ => false
  end.

(** Some endpoint of a different road, hashed into the block of [ep],
    passes the test. *)
Definition block_neighbour (eps : list Endpoint) (ep : Endpoint) : bool :=
  existsb (fun o => negb (ep_fid o =? ep_fid ep)%Z
                    && in_block ep o && passes ep o) eps.

(** Some endpoint of a different road passes the test: the naive
    definition. *)
Definition has_neighbour (eps : list Endpoint) (ep : Endpoint) : bool :=
  existsb (fun o => negb (ep_fid o =? ep_fid ep)%Z && passes ep o) eps.

(** No [_grid_key] and no distance test between endpoints of different
    roads raises. *)
Definition computable (eps : list Endpoint) : bool :=
  forallb (fun a =>
             returns (grid_key (ep_x a) (ep_y a))
             && forallb (fun o =>
                           (ep_fid o =? ep_fid a)%Z
                           || returns (near (ep_x a) (ep_y a) (ep_x o) (ep_y o)))
                        eps)
          eps.

(** Every endpoint of a different road that passes the test is hashed into
    the block: the 3x3 neighbourhood misses nothing. *)
Definition block_adequate (eps : list Endpoint) : bool :=
  forallb (fun a =>
             forallb (fun o =>
                        (ep_fid o =? ep_fid a)%Z
                        || negb (passes a o) || in_block a o)
                     eps)
          eps.

End Dangles.

Section Sweep.

(** [_segments_cross] and [_intersection_point]. *)
Variable segments_cross : Point -> Point -> Point -> Point -> bool.
Variable intersection_point
  : Point -> Point -> Point -> Point -> option Point.

(** [part[i]], with a value for the indices out of range, which the loops
    never use. *)
Variable origin : Point.

Definition at_index (part : list Point) (i : Z) : Point :=
  nth (Z.to_nat i) part origin.

(** The test and the point of the pair of segments [i], [j]: what
    [results.append] receives when the pair is reported. *)
Definition report (part : list Point) (i j : Z) : option Point :=
  if segments_cross (at_index part i) (at_index part (i + 1))
                    (at_index part j) (at_index part (j + 1))
  then intersection_point (at_index part i) (at_index part (i + 1))
                          (at_index part j) (at_index part (j + 1))
  else None.

(** [for j in range(i + 2, n - 1)]: the first reported point, if any. *)
Fixpoint scan_j (part : list Point) (i : Z) (js : list Z) : option Point :=
  match js with
  | [] => None
  | j :: rest =>
      if segments_cross (at_index part i) (at_index part (i + 1))
                        (at_index part j) (at_index part (j + 1))
      then match intersection_point
                   (at_index part i) (at_index part (i + 1))
                   (at_index part j) (at_index part (j + 1)) with
           | Some pt => Some pt
           | None => scan_j part i rest
           end
      else scan_j part i rest
  end.

(** [for i in range(n - 1)]. *)
Fixpoint scan_i (part : list Point) (n : Z) (is_ : list Z) : option Point :=
  match is_ with
  | [] => None
  | i :: rest =>
      match scan_j part i (Py.range (i + 2) (n - 1)) with
      | Some pt => Some pt
      | None => scan_i part n rest
      end
  end.

(** [for part in parts]. *)
Fixpoint scan_parts (parts : list (list Point)) : option Point :=
  match parts with
  | [] => None
  | part :: rest =>
      let n := Z.of_nat (length part) in
      if (n <? 4)%Z then scan_parts rest
      else match scan_i part n (Py.range 0 (n - 1)) with
           | Some pt => Some pt
           | None => scan_parts rest
           end
  end.

(** [find_self_intersections]. *)
Definition find_self_intersections
    (vertices_by_road : list (Z * list (list Point))) : list (Z * F * F) :=
  foldl (fun results (item : Z * list (list Point)) =>
           match scan_parts item.2 with
           | Some pt => results ++ [(item.1, pt.1, pt.2)]
           | None => results
           end)
        [] vertices_by_road.

(** The pair [(i, j)] is one that the two inner loops visit in a part of
    [n] vertices. *)
Definition visited (n i j : Z) : Prop :=
  (0 <= i)%Z /\ (i + 2 <= j)%Z /\ (j + 1 < n)%Z.

(** The pair [(i', j')] comes before [(i, j)] in the order of the loops. *)
Definition earlier (i' j' i j : Z) : Prop :=
  (i' < i)%Z \/ (i' = i /\ (j' < j)%Z).

(** No pair of segments of the part is reported. *)
Definition quiet (part : list Point) : Prop :=
  forall i j, visited (Z.of_nat (length part)) i j -> report part i j = None.

(** [pt] is the point of the first pair of segments, in the order of the
    loops, that is reported in the first part that has one: parts with
    fewer than four vertices are skipped, every earlier part and every
    earlier pair of the part is not reported. *)
Definition first_crossing (parts : list (list Point)) (pt : Point) : Prop :=
  exists before part after i j,
    parts = before ++ part :: after
    /\ (4 <= Z.of_nat (length part))%Z
    /\ visited (Z.of_nat (length part)) i j
    /\ report part i j = Some pt
    /\ (forall i' j', visited (Z.of_nat (length part)) i' j' ->
                      earlier i' j' i j -> report part i' j' = None)
    /\ (forall part', part' ∈ before ->
                      (4 <= Z.of_nat (length part'))%Z -> quiet part').

End Sweep.

End Arithmetic.

End Engine.

(** ** The engine in binary64

    Python's [float] is the IEEE 754 binary64 format, which is the kernel's
    primitive [float]: [+], [-], [*], [/] and the comparisons round and
    treat NaN and the infinities as the code's do.  [x // c] follows
    CPython's [float_floor_div] ([fmod], a division, then [floor] and a
    correction); [int] raises for NaN and the infinities. *)

Module Binary64.
Import PrimFloat SpecFloat FloatOps.

Definition Point : Type := (float * float)%type.

(** [max(a, b)] and [min(a, b)]: the first argument unless the second is
    strictly greater, respectively smaller. *)
Definition max (a b : float) : float := if ltb a b then b else a.
Definition min (a b : float) : float := if ltb b a then b else a.

(** The float of an integer [0 <= n < 2^53]. *)
Definition of_Z (n : Z) : float := of_uint63 (Uint63Axioms.of_Z n).

(** The rational that a finite float stands for. *)
Definition to_Q (x : float) : option Q :=
  match Prim2SF x with
  | S754_zero _ => Some 0%Q
  | S754_finite s m e =>
      let v := if (0 <=? e)%Z then inject_Z (Zpos m * 2 ^ e)
               else (Zpos m # Z.to_pos (2 ^ (- e))) in
      Some (if s then (- v)%Q else v)
  | _ => None
  end.

(** [int(x)]: truncation toward zero; [None] is the [ValueError] of NaN and
    the [OverflowError] of an infinity. *)
Definition py_int (x : float) : option Z :=
  match Prim2SF x with
  | S754_zero _ => Some 0%Z
  | S754_finite s m e =>
      let v := if (0 <=? e)%Z then (Zpos m * 2 ^ e)%Z
               else (Zpos m / 2 ^ (- e))%Z in
      Some (if s then (- v)%Z else v)
  | _ => None
  end.

(** C's [fmod(x, y)]: the exact remainder of the truncated division, with
    the sign of [x]. *)
Definition fmod (x y : float) : float :=
  match Prim2SF x, Prim2SF y with
  | S754_nan, _ | _, S754_nan => nan
  | S754_infinity _, _ => nan
  | _, S754_zero _ => nan
  | S754_zero _, _ => x
  | S754_finite _ _ _, S754_infinity _ => x
  | S754_finite s mx ex, S754_finite _ my ey =>
      let e := Z.min ex ey in
      let r := ((Zpos mx * 2 ^ (ex - e)) mod (Zpos my * 2 ^ (ey - e)))%Z in
      match r with
      | Zpos p => SF2Prim (S754_finite s p e)
      | _ => SF2Prim (S754_zero s)
      end
  end.

(** C's [floor(x)]. *)
Definition floor (x : float) : float :=
  match Prim2SF x with
  | S754_finite s m e =>
      if (0 <=? e)%Z then x
      else
        let d := (2 ^ (- e))%Z in
        let q := (Zpos m / d)%Z in
        if s then opp (of_Z (if (Zpos m mod d =? 0)%Z then q else q + 1))
        else of_Z q
  | _ => x
  end.

(** [vx // wx], CPython's [float_floor_div]; [None] is the
    [ZeroDivisionError] of [wx == 0]. *)
Definition floordiv (vx wx : float) : option float :=
  if eqb wx 0 then None
  else
    let mod_ := fmod vx wx in
    let div := ((vx - mod_) / wx)%float in
    let div := if (negb (eqb mod_ 0) && xorb (ltb wx 0) (ltb mod_ 0))%bool
               then (div - 1)%float else div in
    Some (if negb (eqb div 0)
          then let floordiv := floor div in
               if ltb 0.5 (div - floordiv) then (floordiv + 1)%float
               else floordiv
          else if get_sign (vx / wx) then neg_zero else zero).

(** [int(x // c)]. *)
Definition floordiv_int (x c : float) : option Z :=
  match floordiv x c with
  | Some f => py_int f
  | None => None
  end.

(** [_grid_key]. *)
Definition _grid_key (x y cell : float) : option (Z * Z) :=
  match floordiv_int x cell with
  | Some gx => match floordiv_int y cell with
               | Some gy => Some (gx, gy)
               | None => None
               end
  | None => None
  end.

(** [d ** 2].  CPython calls the C library's [pow(d, 2.0)] and raises
    [OverflowError] when a finite [d] gives an infinite result.  [pow] is
    taken as the correctly rounded square, which it is whenever [d * d] is a
    binary64 number; elsewhere the library may be one unit in the last place
    away, and what is proved below for every input is proved for any
    test ([Engine.find_dangles]). *)
Definition sq (d : float) : option float :=
  let p := (d * d)%float in
  if (is_finite d && is_infinity p)%bool then None else Some p.

(** [(x - ox) ** 2 + (y - oy) ** 2 <= tol_sq]. *)
Definition within (x y ox oy tol_sq : float) : option bool :=
  match sq (x - ox) with
  | Some a => match sq (y - oy) with
              | Some b => Some (leb (a + b) tol_sq)
              | None => None
              end
  | None => None
  end.

(** The literals [1e-9] and [1e-12], in hexadecimal. *)
Definition eps_cell : float := 0x1.12e0be826d695p-30.
Definition eps_denom : float := 0x1.19799812dea11p-40.

(** [find_dangles]. *)
Definition find_dangles (endpoints_by_road : list (Z * list Point))
    (tolerance : float) : option (list (Z * float * float * Z)) :=
  let cell := max tolerance eps_cell in
  let tol_sq := (tolerance * tolerance)%float in
  Engine.find_dangles (fun x y => _grid_key x y cell)
                      (fun x y ox oy => within x y ox oy tol_sq)
                      endpoints_by_road.

(** [_cross2d]. *)
Definition _cross2d (ox oy ax ay bx by_ : float) : float :=
  ((ax - ox) * (by_ - oy) - (ay - oy) * (bx - ox))%float.

(** [_on_segment]. *)
Definition _on_segment (px py qx qy rx ry : float) : bool :=
  (leb (min px rx) qx && leb qx (max px rx)
   && leb (min py ry) qy && leb qy (max py ry))%bool.

(** [_segments_cross]. *)
Definition _segments_cross (p1 q1 p2 q2 : Point) : bool :=
  let d1 := _cross2d p2.1 p2.2 q2.1 q2.2 p1.1 p1.2 in
  let d2 := _cross2d p2.1 p2.2 q2.1 q2.2 q1.1 q1.2 in
  let d3 := _cross2d p1.1 p1.2 q1.1 q1.2 p2.1 p2.2 in
  let d4 := _cross2d p1.1 p1.2 q1.1 q1.2 q2.1 q2.2 in
  if (((ltb 0 d1 && ltb d2 0) || (ltb d1 0 && ltb 0 d2))
      && ((ltb 0 d3 && ltb d4 0) || (ltb d3 0 && ltb 0 d4)))%bool
  then true
  else if (eqb d1 0 && _on_segment p2.1 p2.2 p1.1 p1.2 q2.1 q2.2)%bool
  then true
  else if (eqb d2 0 && _on_segment p2.1 p2.2 q1.1 q1.2 q2.1 q2.2)%bool
  then true
  else if (eqb d3 0 && _on_segment p1.1 p1.2 p2.1 p2.2 q1.1 q1.2)%bool
  then true
  else if (eqb d4 0 && _on_segment p1.1 p1.2 q2.1 q2.2 q1.1 q1.2)%bool
  then true
  else false.

(** [_intersection_point]. *)
Definition _intersection_point (p1 q1 p2 q2 : Point) : option Point :=
  let '(x1, y1) := p1 in
  let '(x2, y2) := q1 in
  let '(x3, y3) := p2 in
  let '(x4, y4) := q2 in
  let denom := ((x1 - x2) * (y3 - y4) - (y1 - y2) * (x3 - x4))%float in
  if ltb (abs denom) eps_denom then None
  else
    let t := (((x1 - x3) * (y3 - y4) - (y1 - y3) * (x3 - x4)) / denom)%float in
    Some ((x1 + t * (x2 - x1))%float, (y1 + t * (y2 - y1))%float).

(** [find_self_intersections]. *)
Definition find_self_intersections
    (vertices_by_road : list (Z * list (list Point)))
  : list (Z * float * float) :=
  Engine.find_self_intersections _segments_cross _intersection_point
    (0%float, 0%float) vertices_by_road.

End Binary64.

(** ** The idealisation over the rationals as an instance

    [RoadQC] is [Engine] at the exact operations: no rounding, and no
    operation raises. *)

Module Exact.

Definition grid_key (cell : Q) (x y : Q) : option (Z * Z) :=
  Some (RoadQC._grid_key x y cell).

Definition near (tol_sq : Q) (x y ox oy : Q) : option bool :=
  Some (RoadQC.within x y ox oy tol_sq).

End Exact.

(** ** Sample inputs in binary64 *)

Module Samples64.
Import PrimFloat.

(** Two roads that meet at [(1, 0)]. *)
Definition joined_roads : list (Z * list Binary64.Point) :=
  [(1%Z, [(0, 0); (1, 0)]%float); (2%Z, [(1, 0); (3, 0)]%float)].

(** An endpoint just left of the origin and one at [x = 0.5]: their
    distance is [0.5 + 2^-70], which the subtraction rounds to [0.5]. *)
Definition split_roads : list (Z * list Binary64.Point) :=
  [(1%Z, [(-0x1p-70, 0)]%float); (2%Z, [(0.5, 0)]%float)].

(** Two endpoints at distance [sqrt (1 + 2^-60)], which is more than 1;
    the sum of the squares rounds to 1. *)
Definition close_roads : list (Z * list Binary64.Point) :=
  [(1%Z, [(0, 0)]%float); (2%Z, [(1, 0x1p-30)]%float)].

(** The path [(0,0) - (2,2) - (0,2) - (2,0)], which crosses itself at
    [(1, 1)]. *)
Definition bow_tie : list (Z * list (list Binary64.Point)) :=
  [(7%Z, [[(0, 0); (2, 2); (0, 2); (2, 0)]%float])].

(** An open path whose first and last segments do not meet: with
    [a = 2^27], the vertex [(a, a - 1)] lies just below the segment from
    [(0, 0)] to [(a + 1, a)].  The cross product is [-1], which the
    multiplication rounds to zero. *)
Definition near_miss : list (Z * list (list Binary64.Point)) :=
  [(7%Z, [[(0, 0); (134217729, 134217728);
           (134217728, 134217727); (134217728, 0)]%float])].

End Samples64.

(* ===================================================================== *)
(** * Part II: properties                                                 *)
(* ===================================================================== *)

(** ** Facts about the numeric primitives *)

Module PyFacts.

Lemma le_iff (a b : Q) : Py.le a b = true <-> (a <= b)%Q.
Proof. unfold Py.le. apply Qle_bool_iff. Qed.

Lemma lt_iff (a b : Q) : Py.lt a b = true <-> (a < b)%Q.
Proof.
  unfold Py.lt. rewrite negb_true_iff.
  destruct (Qle_bool b a) eqn:E.
  - apply Qle_bool_iff in E. split; [discriminate | intros Hlt; lra].
  - split; [intros _ | reflexivity].
    destruct (Qlt_le_dec a b) as [Hlt | Hle]; [exact Hlt |].
    apply Qle_bool_iff in Hle. congruence.
Qed.

Lemma eq_iff (a b : Q) : Py.eq a b = true <-> (a == b)%Q.
Proof. unfold Py.eq. apply Qeq_bool_iff. Qed.

Lemma le_false_iff (a b : Q) : Py.le a b = false <-> (b < a)%Q.
Proof.
  destruct (Py.le a b) eqn:E.
  - apply le_iff in E. split; [discriminate | intros; lra].
  - split; [intros _ | reflexivity].
    destruct (Qlt_le_dec b a) as [Hlt | Hle]; [exact Hlt |].
    apply le_iff in Hle. congruence.
Qed.

Lemma lt_false_iff (a b : Q) : Py.lt a b = false <-> (b <= a)%Q.
Proof.
  destruct (Py.lt a b) eqn:E.
  - apply lt_iff in E. split; [discriminate | intros; lra].
  - split; [intros _ | reflexivity].
    destruct (Qlt_le_dec a b) as [Hlt | Hle]; [| exact Hle].
    apply lt_iff in Hlt. congruence.
Qed.

Lemma max_spec (a b : Q) :
  ((a < b)%Q /\ Py.max a b = b) \/ ((b <= a)%Q /\ Py.max a b = a).
Proof.
  unfold Py.max. destruct (Py.lt a b) eqn:E.
  - left. split; [by apply lt_iff | reflexivity].
  - right. split; [by apply lt_false_iff | reflexivity].
Qed.

Lemma min_spec (a b : Q) :
  ((b < a)%Q /\ Py.min a b = b) \/ ((a <= b)%Q /\ Py.min a b = a).
Proof.
  unfold Py.min. destruct (Py.lt b a) eqn:E.
  - left. split; [by apply lt_iff | reflexivity].
  - right. split; [by apply lt_false_iff | reflexivity].
Qed.

Lemma abs_spec (a : Q) :
  ((a < 0)%Q /\ Py.abs a = (- a)%Q) \/ ((0 <= a)%Q /\ Py.abs a = a).
Proof.
  unfold Py.abs. destruct (Py.lt a 0) eqn:E.
  - left. split; [by apply lt_iff | reflexivity].
  - right. split; [by apply lt_false_iff | reflexivity].
Qed.

(** The floor of a quotient, characterised. *)
Lemma floor_spec (q : Q) (z : Z) :
  Qfloor q = z <-> (inject_Z z <= q /\ q < inject_Z (z + 1))%Q.
Proof.
  split.
  - intros <-. split; [apply Qfloor_le | apply Qlt_floor].
  - intros [Hlo Hhi].
    pose proof (Qfloor_le q) as Hfl. pose proof (Qlt_floor q) as Hfu.
    assert (Hz1 : (inject_Z z < inject_Z (Qfloor q + 1))%Q) by lra.
    assert (Hz2 : (inject_Z (Qfloor q) < inject_Z (z + 1))%Q) by lra.
    rewrite <- Zlt_Qlt in Hz1, Hz2. lia.
Qed.

Lemma floordiv_mono (x y c : Q) :
  (0 < c)%Q -> (x <= y)%Q -> (Py.floordiv x c <= Py.floordiv y c)%Z.
Proof.
  intros Hc Hxy. unfold Py.floordiv. apply Qfloor_resp_le.
  apply Qmult_le_compat_r; [exact Hxy |].
  apply Qlt_le_weak, Qinv_lt_0_compat, Hc.
Qed.

Lemma range_elem (a b k : Z) : k ∈ Py.range a b <-> (a <= k < b)%Z.
Proof. unfold Py.range. rewrite elem_of_seqZ. lia. Qed.

Lemma dict_get_Some {V : Type} (d : list (Z * V)) (k : Z) :
  k ∈ d.*1 -> is_Some (Py.dict_get d k).
Proof.
  induction d as [| [k' v] d IH]; simpl.
  - intros Hk. by apply elem_of_nil in Hk.
  - intros Hk. destruct (decide (k' = k)) as [-> | Hne]; [by eexists |].
    apply IH. apply elem_of_cons in Hk as [-> | Hk]; [done | exact Hk].
Qed.

Lemma dict_get_elem {V : Type} (d : list (Z * V)) (k : Z) (v : V) :
  Py.dict_get d k = Some v -> (k, v) ∈ d.
Proof.
  induction d as [| [k' v'] d IH]; simpl; [discriminate |].
  destruct (decide (k' = k)) as [-> | Hne].
  - intros [= ->]. apply elem_of_cons. by left.
  - intros Hget. apply elem_of_cons. right. by apply IH.
Qed.

End PyFacts.

(** ** [classify_overlap] and [buffer_geometry] *)

Module ClassifyFacts.
Import SpatialOps.

(** C4. For every ratio [r] and every pair of thresholds,
    [classify_overlap] returns one of the three labels; the label is
    DUPLICATE exactly when [r >= duplicate_threshold], PARTIAL exactly when
    [partial_threshold <= r < duplicate_threshold], and SLIVER in every
    other case, that is when [r] is below both thresholds.  The ordering
    [duplicate_threshold >= partial_threshold] of the claim is not needed;
    under it the last case reads [r < partial_threshold]. *)
Theorem classify_overlap_partition (r duplicate_threshold partial_threshold : Q) :
  let c := classify_overlap r duplicate_threshold partial_threshold in
  (c = "DUPLICATE" \/ c = "PARTIAL" \/ c = "SLIVER")
  /\ (c = "DUPLICATE" <-> (duplicate_threshold <= r)%Q)
  /\ (c = "PARTIAL"
      <-> (partial_threshold <= r)%Q /\ (r < duplicate_threshold)%Q)
  /\ (c = "SLIVER"
      <-> ~ (duplicate_threshold <= r)%Q
          /\ ~ ((partial_threshold <= r)%Q /\ (r < duplicate_threshold)%Q))
  /\ ((partial_threshold <= duplicate_threshold)%Q ->
      (c = "SLIVER" <-> (r < partial_threshold)%Q)).
Proof.
  unfold classify_overlap.
  destruct (Py.le duplicate_threshold r) eqn:Hd;
    [apply PyFacts.le_iff in Hd | apply PyFacts.le_false_iff in Hd];
    [| destruct (Py.le partial_threshold r) eqn:Hp;
       [apply PyFacts.le_iff in Hp | apply PyFacts.le_false_iff in Hp]];
    cbv zeta; (split; [tauto |]); repeat split;
    try discriminate; try (intros; lra); try (intros [? ?]; lra); try tauto.
  all: intros [H1 H2]; exfalso; apply H2; split; lra.
Qed.

End ClassifyFacts.

Module GeometryFacts.
Import Geometry.

(** C9. For a geometry that [is_geometry_null] does not reject and a
    distance [<= 0], [buffer_geometry] returns the geometry itself,
    whatever the provider's [buffer] method would do; for a distance
    [> 0] the result is what that method returns ([None] when it raises). *)
Theorem buffer_geometry_nonpositive_noop
    {G : Type} `{ArcGeometry G} (g : G) (distance : Q) :
  is_geometry_null (Some g) = false ->
  ((distance <= 0)%Q -> buffer_geometry (Some g) distance = Some g)
  /\ ((0 < distance)%Q ->
      buffer_geometry (Some g) distance
      = match geom_buffer g distance with
        | Ok buffered => buffered
        | Raised => None
        end).
Proof.
  intros Hnull. unfold buffer_geometry. rewrite Hnull. split.
  - intros Hd. apply PyFacts.le_iff in Hd. by rewrite Hd.
  - intros Hd. apply PyFacts.le_false_iff in Hd. by rewrite Hd.
Qed.

Lemma buffer_geometry_nonpositive_noop_witness :
  is_geometry_null (Rect.box 0 0 1 1) = false
  /\ buffer_geometry (Rect.box 0 0 1 1) (-1) = Rect.box 0 0 1 1
  /\ buffer_geometry (Rect.box 0 0 1 1) 0 = Rect.box 0 0 1 1.
Proof.
  split; [reflexivity |]. split.
  - destruct (buffer_geometry_nonpositive_noop
                (Rect.mkRect "Polygon" 5 (0, 0, 1, 1)%Q) (-1)) as [Hnoop _];
      [reflexivity |].
    apply Hnoop. vm_compute. discriminate.
  - destruct (buffer_geometry_nonpositive_noop
                (Rect.mkRect "Polygon" 5 (0, 0, 1, 1)%Q) 0) as [Hnoop _];
      [reflexivity |].
    apply Hnoop. vm_compute. discriminate.
Defined.

(** A null geometry is never buffered, whatever the distance. *)
Lemma buffer_geometry_null {G : Type} `{ArcGeometry G}
    (geometry : option G) (distance : Q) :
  is_geometry_null geometry = true -> buffer_geometry geometry distance = None.
Proof. intros Hnull. unfold buffer_geometry. by rewrite Hnull. Qed.

End GeometryFacts.

(** ** Road topology: dangles and disconnected roads *)

Module RoadFacts.
Import RoadQC DangleSpec RoadInv.

(** *** The hash built by step 1 *)

Lemma hash_ok_empty (cell : Q) : hash_ok cell [] ∅.
Proof.
  intros key e. rewrite lookup_empty. simpl. split.
  - intros Hin. by apply elem_of_nil in Hin.
  - intros [[i Hin] _]. by apply elem_of_nil in Hin.
Qed.

Lemma hash_ok_append (cell : Q) eps g fid x y i :
  hash_ok cell eps g ->
  hash_ok cell (eps ++ [(fid, x, y, i)])
    (hash_append g (_grid_key x y cell) (fid, x, y)).
Proof.
  intros Hok key e. unfold hash_append.
  destruct (decide (_grid_key x y cell = key)) as [<- | Hne].
  - rewrite lookup_insert_eq. simpl. rewrite elem_of_app, list_elem_of_singleton.
    rewrite (Hok (_grid_key x y cell) e). split.
    + intros [[[j Hj] Hk] | ->].
      * split; [| exact Hk]. exists j. apply elem_of_app. by left.
      * split; [| reflexivity]. exists i. apply elem_of_app. right.
        by apply list_elem_of_singleton.
    + intros [[j Hj] Hk]. apply elem_of_app in Hj as [Hj | Hj].
      * left. split; [by exists j | exact Hk].
      * right. apply list_elem_of_singleton in Hj.
        destruct e as [[ef ex] ey]. simpl in *. congruence.
  - rewrite lookup_insert_ne by exact Hne. rewrite (Hok key e). split.
    + intros [[j Hj] Hk]. split; [| exact Hk]. exists j.
      apply elem_of_app. by left.
    + intros [[j Hj] Hk]. split; [| exact Hk]. exists j.
      apply elem_of_app in Hj as [Hj | Hj]; [exact Hj |].
      apply list_elem_of_singleton in Hj.
      destruct e as [[ef ex] ey]. simpl in *.
      injection Hj as -> -> -> ->. contradiction.
Qed.

(** The inner loop of step 1, for any numbering [f] of the points. *)
Lemma flatten_points_gen (cell : Q) (fid : Z) (f : nat -> Z) pts :
  forall eps g,
    hash_ok cell eps g ->
    let st := foldl (fun st ip =>
                       let '(i, (x, y)) := ip in
                       (st.1 ++ [(fid, x, y, i)],
                        hash_append st.2 (_grid_key x y cell) (fid, x, y)))
                    (eps, g) (imap (fun i a => (f i, a)) pts) in
    st.1 = eps ++ imap (fun i (p : Point) => (fid, p.1, p.2, f i)) pts
    /\ hash_ok cell st.1 st.2.
Proof.
  revert f. induction pts as [| [x y] pts IH]; intros f eps g Hok.
  - simpl. by rewrite app_nil_r.
  - simpl. 
    specialize (IH (f ∘ S) (eps ++ [(fid, x, y, f 0%nat)])
                  (hash_append g (_grid_key x y cell) (fid, x, y))
                  (hash_ok_append cell eps g fid x y (f 0%nat) Hok)).
    cbv zeta in IH. destruct IH as [IH1 IH2]. split; [| exact IH2].
    etransitivity; [exact IH1 |]. by rewrite <- app_assoc.
Qed.

Lemma flatten_points_spec (cell : Q) (fid : Z) pts eps g :
  hash_ok cell eps g ->
  (flatten_points cell fid (eps, g) pts).1
  = eps ++ imap (fun i (p : Point) => (fid, p.1, p.2, Z.of_nat i)) pts
  /\ hash_ok cell (flatten_points cell fid (eps, g) pts).1
                  (flatten_points cell fid (eps, g) pts).2.
Proof. intros Hok. apply (flatten_points_gen cell fid Z.of_nat pts eps g Hok). Qed.

Lemma flatten_roads_gen (cell : Q) ebr :
  forall st,
    hash_ok cell st.1 st.2 ->
    let st' := foldl (fun st item => flatten_points cell item.1 st item.2)
                     st ebr in
    st'.1 = st.1 ++ all_endpoints ebr /\ hash_ok cell st'.1 st'.2.
Proof.
  induction ebr as [| [fid pts] ebr IH]; intros [eps g] Hok; simpl in *.
  - by rewrite app_nil_r.
  - destruct (flatten_points_spec cell fid pts eps g Hok) as [E1 E2].
    destruct (IH (flatten_points cell fid (eps, g) pts) E2) as [F1 F2].
    split; [| exact F2]. rewrite F1, E1. by rewrite <- app_assoc.
Qed.

Lemma flatten_roads_spec (cell : Q) ebr :
  (flatten_roads cell ebr).1 = all_endpoints ebr
  /\ hash_ok cell (all_endpoints ebr) (flatten_roads cell ebr).2.
Proof.
  destruct (flatten_roads_gen cell ebr ([], ∅) (hash_ok_empty cell)) as [E1 E2].
  unfold flatten_roads. simpl in E1. split; [exact E1 |]. by rewrite <- E1.
Qed.

(** *** The neighbourhood scan *)

Lemma scan_bucket_true (fid : Z) (x y t : Q) (bucket : list HashEntry) :
  scan_bucket fid x y t bucket = true
  <-> exists e, e ∈ bucket /\ e.1.1 <> fid
                /\ within x y e.1.2 e.2 t = true.
Proof.
  induction bucket as [| [[ofid ox] oy] bucket IH]; simpl.
  - split; [discriminate |]. intros (e & He & _). by apply elem_of_nil in He.
  - destruct (decide (ofid = fid)) as [-> | Hne].
    + rewrite IH. split.
      * intros (e & He & Hf & Hw). exists e. split; [| done].
        apply elem_of_cons. by right.
      * intros (e & He & Hf & Hw). exists e. split; [| done].
        apply elem_of_cons in He as [-> | He]; [| exact He].
        simpl in Hf. contradiction.
    + destruct (within x y ox oy t) eqn:Hw.
      * split; [intros _ | reflexivity]. exists (ofid, ox, oy).
        split; [apply elem_of_cons; by left | done].
      * rewrite IH. split.
        -- intros (e & He & Hf & Hw'). exists e. split; [| done].
           apply elem_of_cons. by right.
        -- intros (e & He & Hf & Hw'). exists e. split; [| done].
           apply elem_of_cons in He as [-> | He]; [| exact He].
           simpl in Hw'. congruence.
Qed.

Lemma scan_dy_true g gx gy dx fid x y t dys :
  scan_dy g gx gy dx fid x y t dys = true
  <-> exists dy, dy ∈ dys /\ hit g ((gx + dx)%Z, (gy + dy)%Z) fid x y t.
Proof.
  induction dys as [| dy dys IH]; simpl.
  - split; [discriminate |]. intros (dy & Hdy & _). by apply elem_of_nil in Hdy.
  - destruct (g !! ((gx + dx)%Z, (gy + dy)%Z)) as [bucket |] eqn:Hb.
    + destruct (scan_bucket fid x y t bucket) eqn:Hs.
      * split; [intros _ | reflexivity]. exists dy.
        split; [apply elem_of_cons; by left |].
        unfold hit. rewrite Hb. simpl. by apply scan_bucket_true.
      * rewrite IH. split.
        -- intros (dy' & Hdy' & Hh). exists dy'. split; [| exact Hh].
           apply elem_of_cons. by right.
        -- intros (dy' & Hdy' & Hh). exists dy'. split; [| exact Hh].
           apply elem_of_cons in Hdy' as [-> | Hdy']; [| exact Hdy'].
           unfold hit in Hh. rewrite Hb in Hh. simpl in Hh.
           apply scan_bucket_true in Hh. congruence.
    + rewrite IH. split.
      * intros (dy' & Hdy' & Hh). exists dy'. split; [| exact Hh].
        apply elem_of_cons. by right.
      * intros (dy' & Hdy' & Hh). exists dy'. split; [| exact Hh].
        apply elem_of_cons in Hdy' as [-> | Hdy']; [| exact Hdy'].
        unfold hit in Hh. rewrite Hb in Hh. simpl in Hh.
        destruct Hh as (e & He & _). by apply elem_of_nil in He.
Qed.

Lemma scan_dx_true g gx gy fid x y t dxs :
  scan_dx g gx gy fid x y t dxs = true
  <-> exists dx dy, dx ∈ dxs /\ dy ∈ [-1; 0; 1]%Z
                    /\ hit g ((gx + dx)%Z, (gy + dy)%Z) fid x y t.
Proof.
  induction dxs as [| dx dxs IH]; cbn [scan_dx].
  - split; [discriminate |].
    intros (dx & dy & Hdx & _). by apply elem_of_nil in Hdx.
  - destruct (scan_dy g gx gy dx fid x y t [-1; 0; 1]%Z) eqn:Hs.
    + split; [intros _ | reflexivity].
      apply scan_dy_true in Hs as (dy & Hdy & Hh).
      exists dx, dy. split; [apply elem_of_cons; by left | done].
    + rewrite IH. split.
      * intros (dx' & dy & Hdx' & Hdy & Hh). exists dx', dy.
        split; [apply elem_of_cons; by right | done].
      * intros (dx' & dy & Hdx' & Hdy & Hh). exists dx', dy.
        apply elem_of_cons in Hdx' as [-> | Hdx']; [| done].
        assert (scan_dy g gx gy dx fid x y t [-1; 0; 1]%Z = true) as Hc
          by (apply scan_dy_true; eauto).
        congruence.
Qed.

(** *** Points within the tolerance fall in adjacent cells *)

Lemma cell_positive (tolerance : Q) : (0 < Py.max tolerance eps_cell)%Q.
Proof.
  assert (0 < eps_cell)%Q as Heps by reflexivity.
  destruct (PyFacts.max_spec tolerance eps_cell) as [[Hlt ->] | [Hle ->]]; lra.
Qed.

Lemma cell_covers_tolerance (tolerance : Q) :
  (tolerance <= Py.max tolerance eps_cell)%Q.
Proof.
  destruct (PyFacts.max_spec tolerance eps_cell) as [[Hlt ->] | [Hle ->]]; lra.
Qed.

Lemma floor_le_intro (z : Z) (q : Q) : (inject_Z z <= q)%Q -> (z <= Qfloor q)%Z.
Proof. intros Hle. rewrite <- (Qfloor_Z z). by apply Qfloor_resp_le. Qed.

Lemma floor_lt_intro (z : Z) (q : Q) : (q < inject_Z z)%Q -> (Qfloor q < z)%Z.
Proof.
  intros Hlt. pose proof (Qfloor_le q) as Hfl.
  rewrite Zlt_Qlt. lra.
Qed.

(** Coordinates that differ by at most one cell width land in the same or
    in a neighbouring column. *)
Lemma floordiv_adjacent (a b cell : Q) :
  (0 < cell)%Q -> (a - b <= cell)%Q -> (b - a <= cell)%Q ->
  (Py.floordiv a cell - 1 <= Py.floordiv b cell <= Py.floordiv a cell + 1)%Z.
Proof.
  intros Hc Hab Hba. unfold Py.floordiv.
  pose proof (Qfloor_le (a / cell)) as Hal.
  pose proof (Qlt_floor (a / cell)) as Hau.
  assert (Ha : (a == (a / cell) * cell)%Q) by (field; lra).
  assert (Hb : (b == (b / cell) * cell)%Q) by (field; lra).
  set (qa := (a / cell)%Q) in *. set (qb := (b / cell)%Q) in *.
  assert (Hd1 : (qa - qb <= 1)%Q) by nra.
  assert (Hd2 : (qb - qa <= 1)%Q) by nra.
  split.
  - apply floor_le_intro. unfold Z.sub. rewrite inject_Z_plus, inject_Z_opp.
    change (inject_Z 1) with 1%Q. lra.
  - assert (Qfloor qb < Qfloor qa + 2)%Z; [| lia].
    apply floor_lt_intro. rewrite inject_Z_plus in *.
    change (inject_Z 2) with 2%Q. change (inject_Z 1) with 1%Q in Hau. lra.
Qed.

Lemma within_iff (x y ox oy t : Q) :
  within x y ox oy t = true
  <-> ((x - ox) * (x - ox) + (y - oy) * (y - oy) <= t)%Q.
Proof. unfold within. rewrite PyFacts.le_iff. simpl. reflexivity. Qed.

Lemma offset_cases (a b : Z) :
  (a - 1 <= b <= a + 1)%Z ->
  exists d, d ∈ [-1; 0; 1]%Z /\ b = (a + d)%Z.
Proof.
  intros Hab.
  destruct (decide (b = a - 1)%Z) as [E1 | H1];
    [exists (-1)%Z; split; [rewrite !elem_of_cons; auto | lia] |].
  destruct (decide (b = a)%Z) as [E2 | H2];
    [exists 0%Z; split; [rewrite !elem_of_cons; auto | lia] |].
  exists 1%Z. split; [rewrite !elem_of_cons; auto | lia].
Qed.

Lemma sq_nonneg (a : Q) : (0 <= a * a)%Q.
Proof. destruct (Qlt_le_dec a 0) as [Hlt | Hle]; nra. Qed.

Lemma sq_le (a t : Q) : (0 <= t)%Q -> (a * a <= t * t)%Q -> (a <= t)%Q.
Proof. intros Ht Hsq. destruct (Qlt_le_dec t a) as [Hlt | Hle]; [nra | lra]. Qed.

(** Without rounding the 3x3 neighbourhood misses nothing: an endpoint
    within the tolerance of [(x, y)] is hashed to a cell whose column and
    row differ by at most one from those of [(x, y)]. *)
Lemma neighbour_cell (tolerance x y ox oy : Q) :
  (0 <= tolerance)%Q ->
  within x y ox oy (tolerance * tolerance) = true ->
  let cell := Py.max tolerance eps_cell in
  exists dx dy, dx ∈ [-1; 0; 1]%Z /\ dy ∈ [-1; 0; 1]%Z
    /\ _grid_key ox oy cell
       = (((_grid_key x y cell).1 + dx)%Z, ((_grid_key x y cell).2 + dy)%Z).
Proof.
  intros Htol Hw cell. apply within_iff in Hw.
  pose proof (cell_positive tolerance) as Hpos.
  pose proof (cell_covers_tolerance tolerance) as Hcov.
  fold cell in Hpos, Hcov.
  pose proof (sq_nonneg (x - ox)) as Hnx. pose proof (sq_nonneg (y - oy)) as Hny.
  assert (Hsx : ((x - ox) * (x - ox) <= tolerance * tolerance)%Q) by lra.
  assert (Hsy : ((y - oy) * (y - oy) <= tolerance * tolerance)%Q) by lra.
  assert (Hx1 : (x - ox <= cell)%Q)
    by (apply Qle_trans with tolerance; [apply sq_le; [lra | nra] | lra]).
  assert (Hx2 : (ox - x <= cell)%Q)
    by (apply Qle_trans with tolerance; [apply sq_le; [lra | nra] | lra]).
  assert (Hy1 : (y - oy <= cell)%Q)
    by (apply Qle_trans with tolerance; [apply sq_le; [lra | nra] | lra]).
  assert (Hy2 : (oy - y <= cell)%Q)
    by (apply Qle_trans with tolerance; [apply sq_le; [lra | nra] | lra]).
  destruct (offset_cases _ _ (floordiv_adjacent x ox cell Hpos Hx1 Hx2))
    as (dx & Hdx & Ex).
  destruct (offset_cases _ _ (floordiv_adjacent y oy cell Hpos Hy1 Hy2))
    as (dy & Hdy & Ey).
  exists dx, dy. split; [exact Hdx |]. split; [exact Hdy |].
  unfold _grid_key. simpl. by rewrite Ex, Ey.
Qed.

(** *** The scan agrees with the specification's neighbour test *)

Lemma has_neighbour_true (eps : list Endpoint) (tolerance : Q) (ep : Endpoint) :
  has_neighbour eps tolerance ep = true
  <-> exists o, o ∈ eps /\ ep_fid o <> ep_fid ep
                /\ within (ep_x ep) (ep_y ep) (ep_x o) (ep_y o)
                     (tolerance * tolerance) = true.
Proof.
  unfold has_neighbour. rewrite existsb_exists. split.
  - intros (o & Hin & Hb). apply andb_true_iff in Hb as [Hf Hw].
    exists o. split; [by apply list_elem_of_In |]. split; [| exact Hw].
    apply negb_true_iff, Z.eqb_neq in Hf. exact Hf.
  - intros (o & Hin & Hf & Hw). exists o. split; [by apply list_elem_of_In |].
    apply andb_true_iff. split; [| exact Hw].
    by apply negb_true_iff, Z.eqb_neq.
Qed.

Lemma is_connected_spec (eps : list Endpoint)
    (g : gmap (Z * Z) (list HashEntry)) (tolerance : Q) (ep : Endpoint) :
  (0 <= tolerance)%Q ->
  hash_ok (Py.max tolerance eps_cell) eps g ->
  is_connected g (Py.max tolerance eps_cell) (tolerance * tolerance) ep
  = has_neighbour eps tolerance ep.
Proof.
  intros Htol Hok. apply eq_true_iff_eq. rewrite has_neighbour_true.
  destruct ep as [[[fid x] y] idx]. unfold is_connected.
  destruct (_grid_key x y (Py.max tolerance eps_cell)) as [gx gy] eqn:Hkey.
  rewrite scan_dx_true. unfold ep_fid, ep_x, ep_y. simpl. split.
  - intros (dx & dy & _ & _ & e & He & Hf & Hw).
    apply Hok in He as [[i Hi] _].
    exists (e.1.1, e.1.2, e.2, i). split; [exact Hi |]. simpl. done.
  - intros (o & Hin & Hf & Hw). destruct o as [[[ofid ox] oy] oi]. simpl in *.
    destruct (neighbour_cell tolerance x y ox oy Htol Hw)
      as (dx & dy & Hdx & Hdy & Hcell).
    rewrite Hkey in Hcell. simpl in Hcell.
    exists dx, dy. split; [exact Hdx |]. split; [exact Hdy |].
    exists (ofid, ox, oy). split; [| done].
    apply Hok. simpl. split; [by exists oi | exact Hcell].
Qed.

Lemma foldl_keep_unless {A : Type} (p : A -> bool) (l : list A) :
  forall acc,
    foldl (fun acc a => if p a then acc else acc ++ [a]) acc l
    = acc ++ List.filter (fun a => negb (p a)) l.
Proof.
  induction l as [| a l IH]; intros acc; simpl.
  - by rewrite app_nil_r.
  - rewrite IH. destruct (p a); simpl; [reflexivity |].
    by rewrite <- app_assoc.
Qed.

(** Over the rationals, where no difference, square or quotient is
    rounded, [find_dangles] is the naive quadratic definition for every
    tolerance [>= 0].  The code computes in binary64, where this can fail
    ([EngineClaims.find_dangles_not_naive]). *)
Lemma find_dangles_naive (endpoints_by_road : list (Z * list Point))
    (tolerance : Q) :
  (0 <= tolerance)%Q ->
  find_dangles endpoints_by_road tolerance
  = naive_dangles endpoints_by_road tolerance.
Proof.
  intros Htol. unfold find_dangles, naive_dangles.
  destruct (flatten_roads_spec (Py.max tolerance eps_cell) endpoints_by_road)
    as [Heps Hok].
  destruct (flatten_roads (Py.max tolerance eps_cell) endpoints_by_road)
    as [all_eps grid]. simpl in Heps, Hok. subst all_eps.
  rewrite foldl_keep_unless. simpl. apply filter_ext. intros ep.
  by rewrite (is_connected_spec _ _ _ _ Htol Hok).
Qed.

(** The scenario of the specification: two roads one unit apart have four
    dangling endpoints at tolerance 1/2. *)
Example dangles_of_separate_roads :
  find_dangles [(1%Z, [(0, 0); (1, 0)]%Q); (2%Z, [(2, 0); (3, 0)]%Q)] (1 # 2)
  = [(1%Z, 0%Q, 0%Q, 0%Z); (1%Z, 1%Q, 0%Q, 1%Z);
     (2%Z, 2%Q, 0%Q, 0%Z); (2%Z, 3%Q, 0%Q, 1%Z)].
Proof. reflexivity. Qed.

(** *** Disconnected roads *)

Lemma count_dangles_gen (fid : Z) (dangles : list Endpoint) :
  forall acc : gmap Z Z,
    default 0%Z
      (foldl (fun dangle_count ep =>
                <[ep_fid ep := (default 0 (dangle_count !! ep_fid ep) + 1)%Z]>
                  dangle_count)
             acc dangles !! fid)
    = (default 0 (acc !! fid) + dangles_of fid dangles)%Z.
Proof.
  unfold dangles_of.
  induction dangles as [| ep dangles IH]; intros acc; simpl.
  - lia.
  - rewrite IH. destruct (Z.eqb_spec (ep_fid ep) fid) as [-> | Hne].
    + rewrite lookup_insert_eq. simpl. lia.
    + rewrite lookup_insert_ne by exact Hne. lia.
Qed.

Lemma count_dangles_lookup (fid : Z) (dangles : list Endpoint) :
  default 0%Z (count_dangles dangles !! fid) = dangles_of fid dangles.
Proof.
  unfold count_dangles. rewrite count_dangles_gen, lookup_empty. simpl. lia.
Qed.

Lemma find_disconnected_unfold
    (endpoints_by_road : list (Z * list Point)) (tolerance : Q) :
  let dangles := find_dangles endpoints_by_road tolerance in
  let result := find_disconnected endpoints_by_road tolerance in
  result.2 = dangles
  /\ result.1
     = (filter (fun item : Z * list Point =>
                  (Z.of_nat (length item.2) <= dangles_of item.1 dangles)%Z)
               endpoints_by_road).*1.
Proof.
  intros dangles result. split; [reflexivity |].
  unfold result, find_disconnected. simpl. f_equal.
  apply list_filter_iff. intros [fid pts]. simpl.
  fold dangles. by rewrite count_dangles_lookup.
Qed.

Lemma find_disconnected_member
    (endpoints_by_road : list (Z * list Point)) (tolerance : Q) (fid : Z) :
  fid ∈ (find_disconnected endpoints_by_road tolerance).1
  <-> exists pts,
        (fid, pts) ∈ endpoints_by_road
        /\ (Z.of_nat (length pts)
            <= dangles_of fid (find_dangles endpoints_by_road tolerance))%Z.
Proof.
  destruct (find_disconnected_unfold endpoints_by_road tolerance) as [_ Hlist].
  rewrite Hlist, list_elem_of_fmap. split.
  - intros ([fid' pts] & -> & Hin). apply list_elem_of_filter in Hin as [Hp Hin].
    exists pts. done.
  - intros (pts & Hin & Hp). exists (fid, pts). split; [reflexivity |].
    apply list_elem_of_filter. done.
Qed.

(** C7. [find_disconnected] returns the dangle list of [find_dangles] on
    the same input, unchanged, together with exactly the road ids, in the
    order of the mapping, whose number of dangling endpoints in that list
    is [>=] the number of endpoints of the road. *)
Theorem find_disconnected_criterion
    (endpoints_by_road : list (Z * list Point)) (tolerance : Q) :
  let dangles := find_dangles endpoints_by_road tolerance in
  let result := find_disconnected endpoints_by_road tolerance in
  result.2 = dangles
  /\ result.1
     = (filter (fun item : Z * list Point =>
                  (Z.of_nat (length item.2) <= dangles_of item.1 dangles)%Z)
               endpoints_by_road).*1
  /\ (forall fid : Z,
        fid ∈ result.1
        <-> exists pts, (fid, pts) ∈ endpoints_by_road
                        /\ (Z.of_nat (length pts) <= dangles_of fid dangles)%Z).
Proof.
  intros dangles result.
  destruct (find_disconnected_unfold endpoints_by_road tolerance) as [H2 H1].
  split; [exact H2 |]. split; [exact H1 |].
  intros fid. apply find_disconnected_member.
Qed.

(** C10. A road whose endpoint list is empty is always in the
    disconnected list, for every tolerance: its dangle count 0 is [>=] its
    endpoint count 0. *)
Theorem empty_road_is_disconnected
    (endpoints_by_road : list (Z * list Point)) (tolerance : Q) (fid : Z) :
  (fid, []) ∈ endpoints_by_road ->
  fid ∈ (find_disconnected endpoints_by_road tolerance).1.
Proof.
  intros Hin. apply find_disconnected_member.
  exists []. split; [exact Hin |]. simpl. unfold dangles_of. lia.
Qed.

Lemma empty_road_is_disconnected_witness :
  (3%Z, []) ∈ [(1%Z, [(0, 0); (1, 0)]%Q); (3%Z, [])]
  /\ 3%Z ∈ (find_disconnected [(1%Z, [(0, 0); (1, 0)]%Q); (3%Z, [])] (1 # 2)).1.
Proof.
  assert (Hin : (3%Z, []) ∈ [(1%Z, [(0, 0); (1, 0)]%Q); (3%Z, [])])
    by (rewrite !elem_of_cons; auto).
  split; [exact Hin |].
  exact (empty_road_is_disconnected _ (1 # 2) 3%Z Hin).
Defined.

End RoadFacts.

(** ** The grid index *)

Module IndexFacts.
Import SpatialOps IndexInv.

Lemma bucket_grid_append (fid : Z) g key key' (x : Z) :
  x ∈ bucket (grid_append fid g key) key'
  <-> x ∈ bucket g key' \/ (x = fid /\ key' = key).
Proof.
  unfold bucket, grid_append.
  destruct (decide (key = key')) as [-> | Hne].
  - rewrite lookup_insert_eq. simpl. rewrite elem_of_app, list_elem_of_singleton.
    naive_solver.
  - rewrite lookup_insert_ne by exact Hne. naive_solver.
Qed.

Lemma insert_row_elem (fid col : Z) (rows : list Z) key (x : Z) :
  forall g,
    x ∈ bucket (foldl (fun g' row => grid_append fid g' (col, row)) g rows) key
    <-> x ∈ bucket g key \/ (x = fid /\ key.1 = col /\ key.2 ∈ rows).
Proof.
  induction rows as [| row rows IH]; intros g; simpl.
  - split; [by left |]. intros [Hx | (_ & _ & Hr)]; [exact Hx |].
    by apply elem_of_nil in Hr.
  - rewrite IH, bucket_grid_append. destruct key as [kc kr]. simpl.
    rewrite elem_of_cons. split.
    + intros [[Hx | [-> [= -> ->]]] | (-> & -> & Hr)]; auto.
    + intros [Hx | (-> & -> & [-> | Hr])]; auto.
Qed.

Lemma insert_grid_elem (fid : Z) (cols rows : list Z) key (x : Z) :
  forall g,
    x ∈ bucket (foldl (fun g col =>
                         foldl (fun g' row => grid_append fid g' (col, row))
                               g rows) g cols) key
    <-> x ∈ bucket g key \/ (x = fid /\ key.1 ∈ cols /\ key.2 ∈ rows).
Proof.
  induction cols as [| col cols IH]; intros g; simpl.
  - split; [by left |]. intros [Hx | (_ & Hc & _)]; [exact Hx |].
    by apply elem_of_nil in Hc.
  - rewrite IH, insert_row_elem, elem_of_cons. naive_solver.
Qed.

Lemma insert_cells_elem (fid : Z) g bounds key (x : Z) :
  x ∈ bucket (insert_cells fid g bounds) key
  <-> x ∈ bucket g key \/ (x = fid /\ in_bounds bounds key).
Proof.
  destruct bounds as [[[col_min col_max] row_min] row_max].
  unfold insert_cells, in_bounds. rewrite insert_grid_elem.
  rewrite !PyFacts.range_elem.
  split; (intros [Hx | (-> & Hb)]; [by left | right; split; [done | lia]]).
Qed.

Lemma collect_row_elem (g : gmap (Z * Z) (list Z)) (col : Z) (rows : list Z)
    (x : Z) :
  forall c : gset Z,
    x ∈ foldl (fun c' row =>
                 match g !! (col, row) with
                 | Some bucket => c' ∪ list_to_set bucket
                 | None => c'
                 end) c rows
    <-> x ∈ c \/ exists row, row ∈ rows /\ x ∈ bucket g (col, row).
Proof.
  induction rows as [| row rows IH]; intros c; simpl.
  - split; [by left |]. intros [Hx | (row & Hr & _)]; [exact Hx |].
    by apply elem_of_nil in Hr.
  - rewrite IH. unfold bucket at 2.
    destruct (g !! (col, row)) as [b |] eqn:Hb.
    + rewrite elem_of_union, elem_of_list_to_set. split.
      * intros [[Hx | Hx] | (row' & Hr & Hx)]; [by left | |].
        -- right. exists row. split; [apply elem_of_cons; by left |].
           unfold bucket. by rewrite Hb.
        -- right. exists row'. split; [apply elem_of_cons; by right | exact Hx].
      * intros [Hx | (row' & Hr & Hx)]; [by left; left |].
        apply elem_of_cons in Hr as [-> | Hr].
        -- left. right. unfold bucket in Hx. by rewrite Hb in Hx.
        -- right. exists row'. done.
    + split.
      * intros [Hx | (row' & Hr & Hx)]; [by left |].
        right. exists row'. split; [apply elem_of_cons; by right | exact Hx].
      * intros [Hx | (row' & Hr & Hx)]; [by left |].
        apply elem_of_cons in Hr as [-> | Hr].
        -- unfold bucket in Hx. rewrite Hb in Hx. by apply elem_of_nil in Hx.
        -- right. exists row'. done.
Qed.

Lemma collect_grid_elem (g : gmap (Z * Z) (list Z)) (cols rows : list Z)
    (x : Z) :
  forall c : gset Z,
    x ∈ foldl (fun c col =>
                 foldl (fun c' row =>
                          match g !! (col, row) with
                          | Some bucket => c' ∪ list_to_set bucket
                          | None => c'
                          end) c rows) c cols
    <-> x ∈ c \/ exists col row, col ∈ cols /\ row ∈ rows
                                 /\ x ∈ bucket g (col, row).
Proof.
  induction cols as [| col cols IH]; intros c; simpl.
  - split; [by left |]. intros [Hx | (col & row & Hc & _)]; [exact Hx |].
    by apply elem_of_nil in Hc.
  - rewrite IH, collect_row_elem. split.
    + intros [[Hx | (row & Hr & Hx)] | (col' & row & Hc & Hr & Hx)].
      * by left.
      * right. exists col, row. split; [apply elem_of_cons; by left | done].
      * right. exists col', row. split; [apply elem_of_cons; by right | done].
    + intros [Hx | (col' & row & Hc & Hr & Hx)]; [by left; left |].
      apply elem_of_cons in Hc as [-> | Hc].
      * left. right. exists row. done.
      * right. exists col', row. done.
Qed.

Lemma collect_cells_elem (g : gmap (Z * Z) (list Z)) bounds (x : Z) :
  x ∈ collect_cells g bounds
  <-> exists key, in_bounds bounds key /\ x ∈ bucket g key.
Proof.
  destruct bounds as [[[col_min col_max] row_min] row_max].
  unfold collect_cells, in_bounds. rewrite collect_grid_elem. split.
  - intros [Hx | (col & row & Hc & Hr & Hx)]; [by apply not_elem_of_empty in Hx |].
    apply PyFacts.range_elem in Hc, Hr.
    exists (col, row). simpl. split; [lia | exact Hx].
  - intros ([col row] & [Hc Hr] & Hx). simpl in *. right.
    exists col, row. rewrite !PyFacts.range_elem. split; [lia |]. split; [lia | exact Hx].
Qed.

Lemma foldl_opt_snoc {A B : Type} (f : A -> B -> option A) (l : list B) (x : B) :
  forall a,
    foldl_opt f a (l ++ [x])
    = match foldl_opt f a l with
      | Some a' => f a' x
      | None => None
      end.
Proof.
  induction l as [| y l IH]; intros a; simpl.
  - by destruct (f a x).
  - destruct (f a y); [apply IH | reflexivity].
Qed.

Lemma cell_bounds_inv (cs : Q) (e : Extent) b :
  cell_bounds cs e = Some b ->
  Py.eq cs 0 = false
  /\ b = (Py.floordiv (e_xmin e) cs, Py.floordiv (e_xmax e) cs,
          Py.floordiv (e_ymin e) cs, Py.floordiv (e_ymax e) cs).
Proof.
  destruct e as [[[xmin ymin] xmax] ymax]. unfold cell_bounds, Py.floordiv_checked.
  destruct (Py.eq cs 0); [discriminate |]. intros [= <-]. done.
Qed.

Lemma cell_bounds_Some (cs : Q) (e : Extent) :
  Py.eq cs 0 = false ->
  cell_bounds cs e
  = Some (Py.floordiv (e_xmin e) cs, Py.floordiv (e_xmax e) cs,
          Py.floordiv (e_ymin e) cs, Py.floordiv (e_ymax e) cs).
Proof.
  intros Hcs. destruct e as [[[xmin ymin] xmax] ymax].
  unfold cell_bounds, Py.floordiv_checked. by rewrite Hcs.
Qed.

Section Provider.
Context {G : Type} `{ArcGeometry G}.

Lemma insert_cases (self : SpatialIndex G) (fid : Z) (geometry : option G) idx :
  insert self fid geometry = Some idx ->
  (Geometry.get_geometry_extent geometry = None /\ idx = self)
  \/ (exists extent g bounds,
        Geometry.get_geometry_extent geometry = Some extent
        /\ geometry = Some g
        /\ cell_bounds (cell_size self) extent = Some bounds
        /\ idx = mkSpatialIndex (cell_size self)
                   (insert_cells fid (grid self) bounds)
                   (<[fid := g]> (geometries self))
                   (<[fid := extent]> (extents self))).
Proof.
  unfold insert.
  destruct (Geometry.is_geometry_null geometry) eqn:Hnull.
  - intros [= <-]. left. split; [| reflexivity].
    unfold Geometry.get_geometry_extent. by rewrite Hnull.
  - destruct (Geometry.get_geometry_extent geometry) as [extent |] eqn:Hext.
    + destruct geometry as [g |]; [| discriminate].
      destruct (cell_bounds (cell_size self) extent) as [bounds |] eqn:Hb;
        [| discriminate].
      intros [= <-]. right. exists extent, g, bounds. done.
    + intros [= <-]. by left.
Qed.

Lemma insert_total (self : SpatialIndex G) (fid : Z) (geometry : option G) :
  Py.eq (cell_size self) 0 = false -> is_Some (insert self fid geometry).
Proof.
  intros Hcs. unfold insert.
  destruct (Geometry.is_geometry_null geometry); [by eexists |].
  destruct (Geometry.get_geometry_extent geometry) as [extent |];
    [| destruct geometry; by eexists].
  destruct geometry as [g |]; [| by eexists].
  rewrite (cell_bounds_Some _ _ Hcs). by eexists.
Qed.

Lemma extent_map_snoc (features : list (Z * option G)) fid geom :
  extent_map (features ++ [(fid, geom)])
  = match Geometry.get_geometry_extent geom with
    | Some e => <[fid := e]> (extent_map features)
    | None => extent_map features
    end.
Proof.
  unfold extent_map, collect_extents. rewrite foldl_app. simpl.
  match goal with |- context [foldl ?f ?a features] =>
    destruct (foldl f a features) as [[m tw] th] end.
  simpl. by destruct (Geometry.get_geometry_extent geom).
Qed.

Lemma index_inv_init (cs : Q) : index_inv cs [] (SpatialIndex_init cs).
Proof.
  split; simpl; try done.
  - intros key x Hx. unfold bucket in Hx. rewrite lookup_empty in Hx.
    by apply elem_of_nil in Hx.
  - intros _ key x Hx. unfold bucket in Hx. rewrite lookup_empty in Hx.
    by apply elem_of_nil in Hx.
Qed.

Lemma index_inv_step (cs : Q) (features : list (Z * option G)) idx0 fid geom idx :
  index_inv cs features idx0 ->
  insert idx0 fid geom = Some idx ->
  index_inv cs (features ++ [(fid, geom)]) idx.
Proof.
  intros [Hcs Hext Hdom Hcov Hmem Hex] Hins.
  apply insert_cases in Hins
    as [[Hnone ->] | (extent & g & bounds & Hsome & -> & Hb & ->)].
  - split.
    + exact Hcs.
    + by rewrite extent_map_snoc, Hnone.
    + intros f e Hf. destruct (Hdom f e Hf) as (geom' & Hin & He).
      exists geom'. split; [| exact He]. apply elem_of_app. by left.
    + exact Hcov.
    + exact Hmem.
    + intros Hnd. apply Hex. rewrite fmap_app in Hnd.
      by apply NoDup_app in Hnd as [Hnd _].
  - rewrite Hcs in Hb. split; simpl.
    + exact Hcs.
    + by rewrite extent_map_snoc, Hsome, Hext.
    + intros f e Hf. destruct (decide (fid = f)) as [-> | Hne].
      * rewrite lookup_insert_eq in Hf. injection Hf as <-.
        exists (Some g). split; [| exact Hsome].
        apply elem_of_app. right. by apply list_elem_of_singleton.
      * rewrite lookup_insert_ne in Hf by exact Hne.
        destruct (Hdom f e Hf) as (geom' & Hin & He).
        exists geom'. split; [| exact He]. apply elem_of_app. by left.
    + intros f e b key Hf Hbe Hkey. apply insert_cells_elem.
      destruct (decide (fid = f)) as [-> | Hne].
      * rewrite lookup_insert_eq in Hf. injection Hf as <-.
        right. split; [reflexivity |]. congruence.
      * rewrite lookup_insert_ne in Hf by exact Hne. left. eauto.
    + intros key x Hx. apply insert_cells_elem in Hx as [Hx | [-> _]].
      * destruct (decide (fid = x)) as [-> | Hne].
        -- rewrite lookup_insert_eq. by eexists.
        -- rewrite lookup_insert_ne by exact Hne. eauto.
      * rewrite lookup_insert_eq. by eexists.
    + intros Hnd key x Hx. rewrite fmap_app in Hnd. simpl in Hnd.
      apply NoDup_app in Hnd as (Hnd & Hfresh & _).
      assert (Hnew : extents idx0 !! fid = None).
      { destruct (extents idx0 !! fid) as [e |] eqn:He; [| reflexivity].
        destruct (Hdom fid e He) as (geom' & Hin & _).
        exfalso. apply (Hfresh fid).
        - apply list_elem_of_fmap. by exists (fid, geom').
        - by apply list_elem_of_singleton. }
      apply insert_cells_elem in Hx as [Hx | [-> Hkey]].
      * destruct (Hex Hnd key x Hx) as (e & b & He & Hbe & Hkey).
        exists e, b. split; [| done].
        rewrite lookup_insert_ne; [exact He |]. intros ->. congruence.
      * exists extent, bounds. rewrite lookup_insert_eq. done.
Qed.

Lemma build_index_inv (cs : Q) (features : list (Z * option G)) :
  forall idx, build_index cs features = Some idx -> index_inv cs features idx.
Proof.
  induction features as [| [fid geom] features IH] using rev_ind; intros idx.
  - intros [= <-]. apply index_inv_init.
  - unfold build_index. rewrite foldl_opt_snoc.
    destruct (foldl_opt _ (SpatialIndex_init cs) features) as [idx0 |] eqn:Hb;
      [| discriminate].
    simpl. intros Hins. eapply index_inv_step; [apply IH, Hb | exact Hins].
Qed.

Lemma build_index_total (cs : Q) (features : list (Z * option G)) :
  Py.eq cs 0 = false -> is_Some (build_index cs features).
Proof.
  intros Hcs.
  induction features as [| [fid geom] features IH] using rev_ind.
  - by eexists.
  - destruct IH as [idx0 Hb]. unfold build_index in *.
    rewrite foldl_opt_snoc, Hb. apply insert_total.
    by rewrite (inv_cell_size _ _ _ (build_index_inv cs features idx0 Hb)).
Qed.

(** Membership in the list of candidates. *)
Lemma query_candidates_elem (idx : SpatialIndex G) (fid : Z) e b l :
  extents idx !! fid = Some e ->
  cell_bounds (cell_size idx) e = Some b ->
  query_candidates idx fid = Some l ->
  forall x, x ∈ l <-> x <> fid
                      /\ exists key, in_bounds b key /\ x ∈ bucket (grid idx) key.
Proof.
  intros He Hb. unfold query_candidates. rewrite He, Hb. intros [= <-] x.
  rewrite elem_of_elements, elem_of_difference, collect_cells_elem.
  rewrite elem_of_singleton. tauto.
Qed.

Lemma query_candidates_total (idx : SpatialIndex G) (fid : Z) :
  Py.eq (cell_size idx) 0 = false -> is_Some (query_candidates idx fid).
Proof.
  intros Hcs. unfold query_candidates.
  destruct (extents idx !! fid) as [e |]; [| by eexists].
  rewrite (cell_bounds_Some _ _ Hcs). by eexists.
Qed.

End Provider.

End IndexFacts.

Module IndexSoundness.
Import SpatialOps IndexInv IndexFacts Samples.

Lemma extents_intersect_true (ea eb : Extent) :
  extents_intersect ea eb = true
  <-> (e_xmin eb <= e_xmax ea)%Q /\ (e_xmin ea <= e_xmax eb)%Q
      /\ (e_ymin eb <= e_ymax ea)%Q /\ (e_ymin ea <= e_ymax eb)%Q.
Proof.
  unfold extents_intersect. rewrite negb_true_iff, !orb_false_iff.
  rewrite !PyFacts.lt_false_iff. tauto.
Qed.

(** Two intersecting rectangles share a grid cell when the cell size is
    positive: the cell of the lower-left corner of their intersection. *)
Lemma shared_cell (cs : Q) (ea eb : Extent) ba bb :
  (0 < cs)%Q ->
  extent_wf ea -> extent_wf eb ->
  extents_intersect ea eb = true ->
  cell_bounds cs ea = Some ba -> cell_bounds cs eb = Some bb ->
  exists key, in_bounds ba key /\ in_bounds bb key.
Proof.
  intros Hcs [Hax Hay] [Hbx Hby] Hint Hba Hbb.
  apply extents_intersect_true in Hint as (H1 & H2 & H3 & H4).
  apply cell_bounds_inv in Hba as [_ ->]. apply cell_bounds_inv in Hbb as [_ ->].
  exists (Py.floordiv (Py.max (e_xmin ea) (e_xmin eb)) cs,
          Py.floordiv (Py.max (e_ymin ea) (e_ymin eb)) cs).
  unfold in_bounds. simpl.
  destruct (PyFacts.max_spec (e_xmin ea) (e_xmin eb)) as [[Hx ->] | [Hx ->]];
    destruct (PyFacts.max_spec (e_ymin ea) (e_ymin eb)) as [[Hy ->] | [Hy ->]];
    repeat split; apply PyFacts.floordiv_mono; try exact Hcs; lra.
Qed.

Lemma positive_not_zero (cs : Q) : (0 < cs)%Q -> Py.eq cs 0 = false.
Proof.
  intros Hcs. destruct (Py.eq cs 0) eqn:E; [| reflexivity].
  apply PyFacts.eq_iff in E. lra.
Qed.

Section Provider.
Context {G : Type} `{ArcGeometry G}.

Lemma candidates_cover (cs : Q) (ops : list (Z * option G)) (idx : SpatialIndex G)
    (a b : Z) (ea eb : Extent) :
  (0 < cs)%Q ->
  index_inv cs ops idx ->
  extents idx !! a = Some ea -> extents idx !! b = Some eb ->
  a <> b ->
  extent_wf ea -> extent_wf eb ->
  extents_intersect ea eb = true ->
  exists la, query_candidates idx a = Some la /\ b ∈ la.
Proof.
  intros Hcs Hinv Ha Hb Hne Hwa Hwb Hint.
  pose proof (positive_not_zero cs Hcs) as Hnz.
  pose proof (inv_covers _ _ _ Hinv) as Hcov.
  pose proof (inv_cell_size _ _ _ Hinv) as Hsize. subst cs.
  destruct (query_candidates_total idx a Hnz) as [la Hla].
  exists la. split; [exact Hla |].
  pose proof (cell_bounds_Some _ ea Hnz) as Hba.
  pose proof (cell_bounds_Some _ eb Hnz) as Hbb.
  destruct (shared_cell _ ea eb _ _ Hcs Hwa Hwb Hint Hba Hbb)
    as (key & Hka & Hkb).
  apply (query_candidates_elem idx a ea _ la Ha Hba Hla).
  split; [congruence |]. exists key. split; [exact Hka |].
  by apply (Hcov b eb _ key Hb Hbb).
Qed.

End Provider.




End IndexSoundness.

(** ** The pairwise overlap scan *)

Module ScanFacts.
Import SpatialOps IndexInv IndexFacts ScanInv.

Lemma pair_key_comm (a b : Z) : pair_key a b = pair_key b a.
Proof. unfold pair_key. by rewrite Z.min_comm, Z.max_comm. Qed.

Lemma min_positive (a b : Q) : (0 < a)%Q -> (0 < b)%Q -> (0 < Py.min a b)%Q.
Proof.
  intros Ha Hb. destruct (PyFacts.min_spec a b) as [[_ ->] | [_ ->]]; done.
Qed.

Section Provider.
Context {G : Type} `{ArcGeometry G}.

Variable features : list (Z * option G).
Variable extents : gmap Z Extent.
Variables min_overlap_area duplicate_threshold partial_threshold : Q.

Local Abbreviation inner :=
  (overlap_inner features extents min_overlap_area
     duplicate_threshold partial_threshold).
Local Abbreviation emitted_ok :=
  (emitted features extents min_overlap_area
     duplicate_threshold partial_threshold).

(** One candidate: the pair is marked, and at most one record is appended,
    only for a pair that was not marked before. *)
Lemma overlap_inner_spec (fa : Z) (ga : option G) (ea : Extent)
    (P : gset (Z * Z)) (R : list (OverlapResult G)) (fb : Z) st' :
  Py.dict_get features fa = Some ga ->
  Geometry.validate_polygon_geometry ga = true ->
  (0 < Geometry.get_geometry_area ga)%Q ->
  extents !! fa = Some ea ->
  inner fa ga (Geometry.get_geometry_area ga) ea (P, R) fb = Some st' ->
  st'.1 = {[pair_key fa fb]} ∪ P
  /\ (st'.2 = R
      \/ ((pair_key fa fb ∉ P)
          /\ exists r, st'.2 = R ++ [r] /\ fid_a r = fa /\ fid_b r = fb
                       /\ emitted_ok r)).
Proof.
  intros Hga Hva Haa Hea. unfold overlap_inner. fold (pair_key fa fb).
  destruct (decide (pair_key fa fb ∈ P)) as [Hin | Hnin].
  { intros [= <-]. simpl. split; [| by left].
    apply leibniz_equiv. set_solver. }
  destruct (Py.dict_get features fb) as [gb |] eqn:Hgb; [| discriminate].
  destruct (Geometry.validate_polygon_geometry gb) eqn:Hvb; simpl;
    [| intros [= <-]; simpl; split; [reflexivity | by left]].
  destruct (Py.le (Geometry.get_geometry_area gb) 0) eqn:Hab;
    [intros [= <-]; simpl; split; [reflexivity | by left] |].
  apply PyFacts.le_false_iff in Hab.
  destruct (extents !! fb) as [eb |] eqn:Heb;
    [| intros [= <-]; simpl; split; [reflexivity | by left]].
  destruct (extents_intersect ea eb) eqn:Hint; simpl;
    [| intros [= <-]; simpl; split; [reflexivity | by left]].
  destruct (Geometry.get_intersection_geometry ga gb 4) as [i |] eqn:Hi;
    [| intros [= <-]; simpl; split; [reflexivity | by left]].
  destruct (Py.lt (Geometry.get_geometry_area (Some i)) min_overlap_area) eqn:Hmin;
    [intros [= <-]; simpl; split; [reflexivity | by left] |].
  apply PyFacts.lt_false_iff in Hmin.
  pose proof (min_positive _ _ Haa Hab) as Hpos.
  apply PyFacts.lt_iff in Hpos. rewrite Hpos.
  intros [= <-]. simpl. split; [reflexivity |]. right. split; [exact Hnin |].
  eexists. split; [reflexivity |]. simpl. split; [reflexivity |].
  split; [reflexivity |].
  exists ga, gb, ea, eb. simpl. repeat split; done.
Qed.

Lemma overlap_inner_total (fa : Z) (ga : option G) (aa : Q) (ea : Extent)
    (st : ScanState G) (fb : Z) :
  fb ∈ features.*1 -> is_Some (inner fa ga aa ea st fb).
Proof.
  intros Hfb. destruct st as [P R]. unfold overlap_inner.
  destruct (decide (_ ∈ P)); [by eexists |].
  destruct (PyFacts.dict_get_Some features fb Hfb) as [gb ->].
  destruct (negb _); [by eexists |].
  destruct (Py.le _ 0); [by eexists |].
  destruct (extents !! fb); [| by eexists].
  destruct (negb _); [by eexists |].
  destruct (Geometry.get_intersection_geometry ga gb 4); [| by eexists].
  destruct (Py.lt _ min_overlap_area); by eexists.
Qed.

(** The loop over the candidates of one feature. *)
Lemma inner_loop_spec (fa : Z) (ga : option G) (ea : Extent) (cands : list Z) :
  Py.dict_get features fa = Some ga ->
  Geometry.validate_polygon_geometry ga = true ->
  (0 < Geometry.get_geometry_area ga)%Q ->
  extents !! fa = Some ea ->
  forall P R st',
    foldl_opt (inner fa ga (Geometry.get_geometry_area ga) ea) (P, R) cands
    = Some st' ->
    st'.1 = list_to_set (pair_key fa <$> cands) ∪ P
    /\ exists Rnew,
        st'.2 = R ++ Rnew
        /\ NoDup (result_key <$> Rnew)
        /\ forall r, r ∈ Rnew ->
                     (result_key r ∉ P) /\ fid_a r = fa /\ fid_b r ∈ cands
                     /\ emitted_ok r.
Proof.
  intros Hga Hva Haa Hea.
  induction cands as [| fb cands IH]; intros P R st'; cbn [foldl_opt].
  - intros [= <-]. simpl. split; [apply leibniz_equiv; set_solver |].
    exists []. rewrite app_nil_r. split; [reflexivity |].
    split; [constructor |]. intros r Hr. by apply elem_of_nil in Hr.
  - destruct (inner fa ga (Geometry.get_geometry_area ga) ea (P, R) fb)
      as [[P1 R1] |] eqn:Hstep; [| discriminate].
    intros Hrest.
    destruct (overlap_inner_spec fa ga ea P R fb _ Hga Hva Haa Hea Hstep)
      as [HP1 HR1]. simpl in HP1, HR1.
    destruct (IH P1 R1 st' Hrest) as (HP' & Rnew & HR' & Hnd & Hall).
    split; [rewrite HP', HP1; apply leibniz_equiv; set_solver |].
    destruct HR1 as [-> | (Hfresh & r & -> & Hra & Hrb & Hem)].
    + exists Rnew. split; [exact HR' |]. split; [exact Hnd |].
      intros r Hr. destruct (Hall r Hr) as (Hk & Hfa & Hfb & Hem).
      split; [rewrite HP1 in Hk; set_solver |]. split; [exact Hfa |].
      split; [apply elem_of_cons; by right | exact Hem].
    + exists (r :: Rnew). split; [by rewrite HR', <- app_assoc |].
      assert (Hrk : result_key r = pair_key fa fb)
        by (unfold result_key; by rewrite Hra, Hrb).
      split.
      * simpl. apply NoDup_cons. split; [| exact Hnd].
        intros Hdup. apply list_elem_of_fmap in Hdup as (r' & Hk' & Hr').
        destruct (Hall r' Hr') as (Hk & _). apply Hk.
        rewrite HP1, <- Hk', Hrk. set_solver.
      * intros r' Hr'. apply elem_of_cons in Hr' as [-> | Hr'].
        -- split; [by rewrite Hrk |]. split; [exact Hra |].
           split; [rewrite Hrb; apply elem_of_cons; by left | exact Hem].
        -- destruct (Hall r' Hr') as (Hk & Hfa & Hfb & Hem').
           split; [rewrite HP1 in Hk; set_solver |]. split; [exact Hfa |].
           split; [apply elem_of_cons; by right | exact Hem'].
Qed.

Lemma inner_loop_total (fa : Z) (ga : option G) (aa : Q) (ea : Extent)
    (cands : list Z) :
  (forall fb, fb ∈ cands -> fb ∈ features.*1) ->
  forall st, is_Some (foldl_opt (inner fa ga aa ea) st cands).
Proof.
  induction cands as [| fb cands IH]; intros Hsub st; cbn [foldl_opt];
    [by eexists |].
  destruct (overlap_inner_total fa ga aa ea st fb) as [st1 ->].
  { apply Hsub. apply elem_of_cons. by left. }
  apply IH. intros fb' Hfb'. apply Hsub. apply elem_of_cons. by right.
Qed.

Lemma not_usable_skip (geom : option G) (fa : Z) :
  Py.dict_get features fa = Some geom ->
  (Geometry.validate_polygon_geometry geom = false
   \/ Py.le (Geometry.get_geometry_area geom) 0 = true
   \/ extents !! fa = None) ->
  ~ usable features extents fa.
Proof.
  intros Hg Hskip (geom' & e & Hg' & Hv & Ha & He).
  assert (geom' = geom) as -> by congruence.
  destruct Hskip as [Hs | [Hs | Hs]]; [congruence | | congruence].
  apply PyFacts.le_iff in Hs. lra.
Qed.

(** One feature of the outer loop. *)
Lemma overlap_outer_spec (idx : SpatialIndex G) (fa : Z)
    (P : gset (Z * Z)) (R : list (OverlapResult G)) st' :
  overlap_outer features idx extents min_overlap_area
    duplicate_threshold partial_threshold (P, R) fa = Some st' ->
  (~ usable features extents fa /\ st' = (P, R))
  \/ (usable features extents fa
      /\ exists cands,
          query_candidates idx fa = Some cands
          /\ st'.1 = list_to_set (pair_key fa <$> cands) ∪ P
          /\ exists Rnew,
              st'.2 = R ++ Rnew
              /\ NoDup (result_key <$> Rnew)
              /\ forall r, r ∈ Rnew ->
                           (result_key r ∉ P) /\ fid_a r = fa
                           /\ fid_b r ∈ cands /\ emitted_ok r).
Proof.
  unfold overlap_outer.
  destruct (Py.dict_get features fa) as [ga |] eqn:Hga; [| discriminate].
  destruct (Geometry.validate_polygon_geometry ga) eqn:Hva; simpl;
    [| intros [= <-]; left; split; [| reflexivity];
       apply (not_usable_skip ga fa Hga); auto].
  destruct (Py.le (Geometry.get_geometry_area ga) 0) eqn:Haa;
    [intros [= <-]; left; split; [| reflexivity];
     apply (not_usable_skip ga fa Hga); auto |].
  destruct (extents !! fa) as [ea |] eqn:Hea;
    [| intros [= <-]; left; split; [| reflexivity];
       apply (not_usable_skip ga fa Hga); auto].
  apply PyFacts.le_false_iff in Haa.
  destruct (query_candidates idx fa) as [cands |] eqn:Hq; [| discriminate].
  intros Hloop. right. split; [by exists ga, ea |].
  exists cands. split; [reflexivity |].
  by apply (inner_loop_spec fa ga ea cands Hga Hva Haa Hea P R st').
Qed.

Lemma overlap_outer_total (idx : SpatialIndex G) (fa : Z) (st : ScanState G) :
  fa ∈ features.*1 ->
  Py.eq (cell_size idx) 0 = false ->
  (forall cands x, query_candidates idx fa = Some cands ->
                   x ∈ cands -> x ∈ features.*1) ->
  is_Some (overlap_outer features idx extents min_overlap_area
             duplicate_threshold partial_threshold st fa).
Proof.
  intros Hfa Hcs Hsub. unfold overlap_outer.
  destruct (PyFacts.dict_get_Some features fa Hfa) as [ga ->].
  destruct (negb _); [by eexists |].
  destruct (Py.le _ 0); [by eexists |].
  destruct (extents !! fa); [| by eexists].
  destruct (query_candidates_total idx fa Hcs) as [cands Hq]. rewrite Hq.
  apply inner_loop_total. intros fb Hfb. by apply (Hsub cands).
Qed.

(** The whole outer loop, from any state. *)
Lemma outer_loop_spec (idx : SpatialIndex G) (fids : list Z) :
  forall P R st',
    foldl_opt (overlap_outer features idx extents min_overlap_area
                 duplicate_threshold partial_threshold) (P, R) fids
    = Some st' ->
    P ⊆ st'.1
    /\ exists Rnew,
        st'.2 = R ++ Rnew
        /\ NoDup (result_key <$> Rnew)
        /\ forall r, r ∈ Rnew ->
                     (result_key r ∉ P) /\ result_key r ∈ st'.1
                     /\ fid_a r ∈ fids /\ emitted_ok r.
Proof.
  induction fids as [| fa fids IH]; intros P R st'; cbn [foldl_opt].
  - intros [= <-]. simpl. split; [done |]. exists [].
    rewrite app_nil_r. split; [reflexivity |]. split; [constructor |].
    intros r Hr. by apply elem_of_nil in Hr.
  - destruct (overlap_outer features idx extents min_overlap_area
                duplicate_threshold partial_threshold (P, R) fa)
      as [[P1 R1] |] eqn:Hstep; [| discriminate].
    intros Hrest.
    destruct (IH P1 R1 st' Hrest) as (Hsub & Rn2 & HR' & Hnd2 & Hall2).
    apply overlap_outer_spec in Hstep
      as [[_ [= -> ->]] | (_ & cands & _ & HP1 & Rn1 & HR1 & Hnd1 & Hall1)].
    + split; [exact Hsub |]. exists Rn2. split; [exact HR' |].
      split; [exact Hnd2 |]. intros r Hr.
      destruct (Hall2 r Hr) as (Hk & Hk' & Hfa & Hem).
      split; [exact Hk |]. split; [exact Hk' |].
      split; [apply elem_of_cons; by right | exact Hem].
    + simpl in HP1, HR1. subst P1 R1.
      assert (Hkeys1 : forall r, r ∈ Rn1 ->
                result_key r ∈ list_to_set (pair_key fa <$> cands) ∪ P).
      { intros r Hr. destruct (Hall1 r Hr) as (_ & Hfa & Hfb & _).
        apply elem_of_union. left. apply elem_of_list_to_set.
        apply list_elem_of_fmap. exists (fid_b r). split; [| exact Hfb].
        unfold result_key. by rewrite Hfa. }
      split; [set_solver |].
      exists (Rn1 ++ Rn2). split; [by rewrite HR', <- app_assoc |]. split.
      * rewrite fmap_app. apply NoDup_app. split; [exact Hnd1 |].
        split; [| exact Hnd2].
        intros k Hk1 Hk2.
        apply list_elem_of_fmap in Hk1 as (r1 & -> & Hr1).
        apply list_elem_of_fmap in Hk2 as (r2 & Hk & Hr2).
        destruct (Hall2 r2 Hr2) as (Hfresh & _). apply Hfresh.
        rewrite <- Hk. by apply Hkeys1.
      * intros r Hr. apply elem_of_app in Hr as [Hr | Hr].
        -- destruct (Hall1 r Hr) as (Hk & Hfa & Hfb & Hem).
           split; [exact Hk |]. split; [apply Hsub; by apply Hkeys1 |].
           split; [rewrite Hfa; apply elem_of_cons; by left | exact Hem].
        -- destruct (Hall2 r Hr) as (Hk & Hk' & Hfa & Hem).
           split; [set_solver |]. split; [exact Hk' |].
           split; [apply elem_of_cons; by right | exact Hem].
Qed.

Lemma outer_loop_total (idx : SpatialIndex G) (fids : list Z) :
  (forall fa, fa ∈ fids -> fa ∈ features.*1) ->
  Py.eq (cell_size idx) 0 = false ->
  (forall fa cands x, query_candidates idx fa = Some cands ->
                      x ∈ cands -> x ∈ features.*1) ->
  forall st,
    is_Some (foldl_opt (overlap_outer features idx extents min_overlap_area
                          duplicate_threshold partial_threshold) st fids).
Proof.
  intros Hfids Hcs Hsub.
  induction fids as [| fa fids IH]; intros st; cbn [foldl_opt]; [by eexists |].
  destruct (overlap_outer_total idx fa st) as [st1 ->].
  - apply Hfids. apply elem_of_cons. by left.
  - exact Hcs.
  - intros cands x. apply Hsub.
  - apply IH. intros fa' Hfa'. apply Hfids. apply elem_of_cons. by right.
Qed.

(** *** The observed run *)

Lemma overlap_inner_shape (fa : Z) (ga : option G) (aa : Q) (ea : Extent)
    (P : gset (Z * Z)) (R : list (OverlapResult G)) (fb : Z) st' :
  inner fa ga aa ea (P, R) fb = Some st' ->
  st'.1 = {[pair_key fa fb]} ∪ P
  /\ (st'.2 = R
      \/ ((pair_key fa fb ∉ P)
          /\ exists r, st'.2 = R ++ [r] /\ result_key r = pair_key fa fb)).
Proof.
  unfold overlap_inner. fold (pair_key fa fb).
  destruct (decide (pair_key fa fb ∈ P)) as [Hin | Hnin].
  { intros [= <-]. simpl. split; [| by left].
    apply leibniz_equiv. set_solver. }
  destruct (Py.dict_get features fb) as [gb |]; [| discriminate].
  destruct (negb _); [intros [= <-]; simpl; split; [reflexivity | by left] |].
  destruct (Py.le _ 0); [intros [= <-]; simpl; split; [reflexivity | by left] |].
  destruct (extents !! fb) as [eb |];
    [| intros [= <-]; simpl; split; [reflexivity | by left]].
  destruct (negb _); [intros [= <-]; simpl; split; [reflexivity | by left] |].
  destruct (Geometry.get_intersection_geometry ga gb 4) as [i |];
    [| intros [= <-]; simpl; split; [reflexivity | by left]].
  destruct (Py.lt _ min_overlap_area);
    [intros [= <-]; simpl; split; [reflexivity | by left] |].
  intros [= <-]. simpl. split; [reflexivity |]. right. split; [exact Hnin |].
  eexists. split; reflexivity.
Qed.

Lemma inner_traced_step (fa : Z) (ga : option G) (aa : Q) (ea : Extent)
    (st : ScanState G) (log : list (Z * Z)) (fb : Z) :
  log_ok st log ->
  match inner_traced features extents min_overlap_area duplicate_threshold
          partial_threshold fa ga aa ea (st, log) fb with
  | Some (st', log') =>
      inner fa ga aa ea st fb = Some st' /\ log_ok st' log'
  | None => inner fa ga aa ea st fb = None
  end.
Proof.
  intros (Hnd & Hsub & Hres). unfold inner_traced.
  destruct (inner fa ga aa ea st fb) as [st' |] eqn:Hstep; [| reflexivity].
  split; [reflexivity |]. destruct st as [P R].
  apply overlap_inner_shape in Hstep as [HP' HR']. simpl in *.
  destruct (decide (pair_key fa fb ∈ P)) as [Hin | Hnin].
  - destruct HR' as [HR' | [Hnin _]]; [| contradiction].
    split; [exact Hnd |]. split.
    + intros k Hk. rewrite HP'. apply elem_of_union. right. by apply Hsub.
    + intros r Hr. apply Hres. by rewrite <- HR'.
  - split; [| split].
    + apply NoDup_app. split; [exact Hnd |]. split; [| apply NoDup_singleton].
      intros k Hk Hk'. apply list_elem_of_singleton in Hk' as ->.
      apply Hnin. by apply Hsub.
    + intros k Hk. rewrite HP'. apply elem_of_app in Hk as [Hk | Hk].
      * apply elem_of_union. right. by apply Hsub.
      * apply list_elem_of_singleton in Hk as ->. apply elem_of_union. left.
        by apply elem_of_singleton.
    + intros r Hr. apply elem_of_app.
      destruct HR' as [HR' | (_ & r' & HR' & Hk')]; rewrite HR' in Hr.
      * left. by apply Hres.
      * apply elem_of_app in Hr as [Hr | Hr]; [left; by apply Hres |].
        apply list_elem_of_singleton in Hr as ->. right.
        rewrite Hk'. by apply list_elem_of_singleton.
Qed.

Lemma inner_traced_loop (fa : Z) (ga : option G) (aa : Q) (ea : Extent)
    (cands : list Z) :
  forall (st : ScanState G) (log : list (Z * Z)),
    log_ok st log ->
    match foldl_opt (inner_traced features extents min_overlap_area
                       duplicate_threshold partial_threshold fa ga aa ea)
                    (st, log) cands with
    | Some (st', log') =>
        foldl_opt (inner fa ga aa ea) st cands = Some st' /\ log_ok st' log'
    | None => foldl_opt (inner fa ga aa ea) st cands = None
    end.
Proof.
  induction cands as [| fb cands IH]; intros st log Hok; cbn [foldl_opt].
  - done.
  - pose proof (inner_traced_step fa ga aa ea st log fb Hok) as Hstep.
    destruct (inner_traced features extents min_overlap_area
                duplicate_threshold partial_threshold fa ga aa ea (st, log) fb)
      as [[st1 log1] |].
    + destruct Hstep as [-> Hok1]. by apply IH.
    + by rewrite Hstep.
Qed.

Lemma outer_traced_step (idx : SpatialIndex G) (fa : Z)
    (st : ScanState G) (log : list (Z * Z)) :
  log_ok st log ->
  match outer_traced features idx extents min_overlap_area
          duplicate_threshold partial_threshold (st, log) fa with
  | Some (st', log') =>
      overlap_outer features idx extents min_overlap_area
        duplicate_threshold partial_threshold st fa = Some st'
      /\ log_ok st' log'
  | None =>
      overlap_outer features idx extents min_overlap_area
        duplicate_threshold partial_threshold st fa = None
  end.
Proof.
  intros Hok. unfold outer_traced, overlap_outer.
  destruct (Py.dict_get features fa) as [ga |]; [| reflexivity].
  destruct (negb _); [done |].
  destruct (Py.le _ 0); [done |].
  destruct (extents !! fa) as [ea |]; [| done].
  destruct (query_candidates idx fa) as [cands |]; [| reflexivity].
  by apply inner_traced_loop.
Qed.

Lemma outer_traced_loop (idx : SpatialIndex G) (fids : list Z) :
  forall (st : ScanState G) (log : list (Z * Z)),
    log_ok st log ->
    match foldl_opt (outer_traced features idx extents min_overlap_area
                       duplicate_threshold partial_threshold)
                    (st, log) fids with
    | Some (st', log') =>
        foldl_opt (overlap_outer features idx extents min_overlap_area
                     duplicate_threshold partial_threshold) st fids
        = Some st'
        /\ log_ok st' log'
    | None =>
        foldl_opt (overlap_outer features idx extents min_overlap_area
                     duplicate_threshold partial_threshold) st fids
        = None
    end.
Proof.
  induction fids as [| fa fids IH]; intros st log Hok; cbn [foldl_opt].
  - done.
  - pose proof (outer_traced_step idx fa st log Hok) as Hstep.
    destruct (outer_traced features idx extents min_overlap_area
                duplicate_threshold partial_threshold (st, log) fa)
      as [[st1 log1] |].
    + destruct Hstep as [-> Hok1]. by apply IH.
    + by rewrite Hstep.
Qed.

End Provider.

(** *** The whole scan *)

Section Scan.
Context {G : Type} `{ArcGeometry G}.

Lemma derived_cell_size_positive (E : gmap Z Extent) (tw th : Q) :
  (0 < derived_cell_size E tw th)%Q.
Proof.
  unfold derived_cell_size.
  match goal with |- context [Py.max ?a ?b] =>
    destruct (PyFacts.max_spec a b) as [[Hlt ->] | [Hle ->]] end; lra.
Qed.

Lemma candidates_in_features (cs : Q) (features : list (Z * option G))
    (idx : SpatialIndex G) :
  index_inv cs features idx ->
  forall fa cands x,
    query_candidates idx fa = Some cands -> x ∈ cands -> x ∈ features.*1.
Proof.
  intros Hinv fa cands x Hq Hx. unfold query_candidates in Hq.
  destruct (extents idx !! fa) as [e |] eqn:He.
  - destruct (cell_bounds (cell_size idx) e) as [b |] eqn:Hb; [| discriminate].
    injection Hq as <-.
    apply elem_of_elements, elem_of_difference in Hx as [Hx _].
    apply collect_cells_elem in Hx as (key & _ & Hx).
    destruct (inv_members _ _ _ Hinv key x Hx) as [ex Hex].
    destruct (inv_dom _ _ _ Hinv x ex Hex) as (geom & Hin & _).
    apply list_elem_of_fmap. by exists (x, geom).
  - injection Hq as <-. by apply elem_of_nil in Hx.
Qed.

(** The index that the scan builds has a cell size of at least 20, so its
    candidate lists miss no pair of distinct features whose extents are
    intersecting rectangles. *)
Lemma scan_index_sound (features : list (Z * option G)) (idx : SpatialIndex G)
    (E : gmap Z Extent) (tw th : Q) (a b : Z) (ea eb : Extent) :
  build_index (derived_cell_size E tw th) features = Some idx ->
  extents idx !! a = Some ea -> extents idx !! b = Some eb ->
  a <> b ->
  extent_wf ea -> extent_wf eb ->
  extents_intersect ea eb = true ->
  exists la, query_candidates idx a = Some la /\ b ∈ la.
Proof.
  intros Hidx. apply build_index_inv in Hidx.
  apply (IndexSoundness.candidates_cover (derived_cell_size E tw th)
           features idx a b ea eb);
    [apply derived_cell_size_positive | exact Hidx].
Qed.

(** The scan returns; its records have pairwise distinct unordered id
    pairs and each went through the emission path. *)
Lemma overlap_scan_spec (features : list (Z * option G))
    (min_overlap_area duplicate_threshold partial_threshold : Q) :
  exists st,
    overlap_scan features min_overlap_area duplicate_threshold
      partial_threshold = Some st
    /\ NoDup (result_key <$> st.2)
    /\ forall r, r ∈ st.2 ->
                 emitted features (extent_map features) min_overlap_area
                   duplicate_threshold partial_threshold r.
Proof.
  unfold overlap_scan.
  assert (HE : (collect_extents features).1.1 = extent_map features)
    by reflexivity.
  destruct (collect_extents features) as [[E tw] th]. simpl in HE. subst E.
  destruct (decide (size (extent_map features) = 0%nat)).
  { exists (∅, []). split; [reflexivity |]. simpl. split; [constructor |].
    intros r Hr. by apply elem_of_nil in Hr. }
  pose proof (derived_cell_size_positive (extent_map features) tw th) as Hpos.
  set (cs := derived_cell_size (extent_map features) tw th) in *.
  pose proof (IndexSoundness.positive_not_zero cs Hpos) as Hnz.
  destruct (build_index_total cs features Hnz) as [idx Hidx]. rewrite Hidx.
  pose proof (build_index_inv cs features idx Hidx) as Hinv.
  assert (Htot : is_Some
            (foldl_opt (overlap_outer features idx (extent_map features)
                          min_overlap_area duplicate_threshold
                          partial_threshold) (∅, []) features.*1)).
  { apply outer_loop_total.
    - done.
    - by rewrite (inv_cell_size _ _ _ Hinv).
    - apply (candidates_in_features cs features idx Hinv). }
  destruct Htot as [st Hst].
  exists st. split; [exact Hst |].
  destruct (outer_loop_spec features (extent_map features) min_overlap_area
                duplicate_threshold partial_threshold idx features.*1
                ∅ [] st Hst) as (_ & Rnew & HR & Hnd & Hall).
  simpl in HR. rewrite HR. split; [exact Hnd |].
  intros r Hr. by destruct (Hall r Hr) as (_ & _ & _ & Hem).
Qed.

Lemma find_pairwise_overlaps_spec (features : list (Z * option G))
    (min_overlap_area duplicate_threshold partial_threshold : Q) :
  exists rs,
    find_pairwise_overlaps features min_overlap_area duplicate_threshold
      partial_threshold = Some rs
    /\ NoDup (result_key <$> rs)
    /\ forall r, r ∈ rs ->
                 emitted features (extent_map features) min_overlap_area
                   duplicate_threshold partial_threshold r.
Proof.
  unfold find_pairwise_overlaps. destruct features as [| item features].
  - exists []. split; [reflexivity |]. split; [constructor |].
    intros r Hr. by apply elem_of_nil in Hr.
  - destruct (overlap_scan_spec (item :: features) min_overlap_area
                duplicate_threshold partial_threshold)
      as (st & -> & Hnd & Hall).
    exists st.2. done.
Qed.

Lemma find_overlaps_method_spec (features : list (Z * option G))
    (min_area duplicate_ratio_min partial_ratio_min : Q) :
  exists rs,
    BuildingOverlapChecker_find_overlaps duplicate_ratio_min
      partial_ratio_min features min_area = Some rs
    /\ NoDup (result_key <$> rs)
    /\ forall r, r ∈ rs ->
                 emitted features (extent_map features) min_area
                   duplicate_ratio_min partial_ratio_min r.
Proof.
  unfold BuildingOverlapChecker_find_overlaps.
  destruct (length features <? 2)%nat.
  - exists []. split; [reflexivity |]. split; [constructor |].
    intros r Hr. by apply elem_of_nil in Hr.
  - destruct (overlap_scan_spec features min_area
                duplicate_ratio_min partial_ratio_min)
      as (st & -> & Hnd & Hall).
    exists st.2. done.
Qed.

(** The log of the observed run belongs to the same run as the records of
    [overlap_scan], and no pair occurs in it twice. *)
Lemma evaluated_pairs_spec (features : list (Z * option G))
    (min_overlap_area duplicate_threshold partial_threshold : Q) :
  exists st log,
    overlap_scan features min_overlap_area duplicate_threshold
      partial_threshold = Some st
    /\ evaluated_pairs features min_overlap_area duplicate_threshold
         partial_threshold = Some log
    /\ NoDup log
    /\ forall r, r ∈ st.2 -> result_key r ∈ log.
Proof.
  destruct (overlap_scan_spec features min_overlap_area duplicate_threshold
              partial_threshold) as (st & Hscan & _).
  exists st. revert Hscan. unfold overlap_scan, evaluated_pairs.
  destruct (collect_extents features) as [[E tw] th].
  destruct (decide (size E = 0%nat)).
  { intros [= <-]. exists []. split; [reflexivity |]. split; [reflexivity |].
    split; [constructor |]. intros r Hr. by apply elem_of_nil in Hr. }
  destruct (build_index (derived_cell_size E tw th) features) as [idx |];
    [| discriminate].
  intros Hloop.
  assert (Hok0 : log_ok ((∅, []) : ScanState G) []).
  { split; [constructor |]. split; intros x Hx; by apply elem_of_nil in Hx. }
  pose proof (outer_traced_loop features E min_overlap_area
                duplicate_threshold partial_threshold idx features.*1
                (∅, []) [] Hok0) as Htr.
  match type of Htr with
  | match ?t with _ => _ end => destruct t as [[st' log] |] eqn:Ht
  end.
  - destruct Htr as [Hsame (Hnd & _ & Hres)].
    rewrite Hloop in Hsame. injection Hsame as <-.
    exists log. split; [exact Hloop |]. split; [| done].
    match goal with
    | |- match ?X with _ => _ end = _ =>
        replace X with (Some (st, log)) by (symmetry; exact Ht)
    end.
    reflexivity.
  - rewrite Hloop in Htr. discriminate.
Qed.

End Scan.
End ScanFacts.

(** ** Claims on the emitted records *)

Module OverlapClaims.
Import SpatialOps IndexInv IndexFacts ScanInv ScanFacts Samples.

(** C2. For every feature mapping [find_pairwise_overlaps] returns, and
    its result sequence never holds two records with the same unordered id
    pair [{fid_a, fid_b}].  Each unordered pair is evaluated at most once in
    the whole run: the log of the pairs that pass the test
    [pair_key in processed_pairs] has no repetition, however many grid
    cells the two features share, and every record stems from one logged
    evaluation.  [BuildingOverlapChecker._find_overlaps] runs the same scan
    and has the same property. *)
Theorem find_pairwise_overlaps_unique_pairs {G : Type} `{ArcGeometry G}
    (features : list (Z * option G))
    (min_overlap_area duplicate_threshold partial_threshold : Q) :
  exists rs log,
    find_pairwise_overlaps features min_overlap_area duplicate_threshold
      partial_threshold = Some rs
    /\ NoDup (result_key <$> rs)
    /\ evaluated_pairs features min_overlap_area duplicate_threshold
         partial_threshold = Some log
    /\ NoDup log
    /\ (forall r, r ∈ rs -> result_key r ∈ log)
    /\ exists rs',
        BuildingOverlapChecker_find_overlaps duplicate_threshold
          partial_threshold features min_overlap_area = Some rs'
        /\ NoDup (result_key <$> rs').
Proof.
  destruct (find_pairwise_overlaps_spec features min_overlap_area
              duplicate_threshold partial_threshold) as (rs & Hrs & Hnd & _).
  destruct (evaluated_pairs_spec features min_overlap_area
              duplicate_threshold partial_threshold)
    as (st & log & Hscan & Hlog & Hndlog & Hres).
  destruct (find_overlaps_method_spec features min_overlap_area
              duplicate_threshold partial_threshold) as (rs' & Hrs' & Hnd' & _).
  exists rs, log. split; [exact Hrs |]. split; [exact Hnd |].
  split; [exact Hlog |]. split; [exact Hndlog |]. split; [| by exists rs'].
  intros r Hr. apply Hres.
  unfold find_pairwise_overlaps in Hrs. destruct features as [| item features].
  - injection Hrs as <-. by apply elem_of_nil in Hr.
  - rewrite Hscan in Hrs. by injection Hrs as <-.
Qed.

Section Provider.
Context {G : Type} `{ArcGeometry G}.

Lemma intersection_area_positive (ga gb : option G) (d : Z) (i : G) :
  Geometry.get_intersection_geometry ga gb d = Some i ->
  (0 < Geometry.get_geometry_area (Some i))%Q.
Proof.
  unfold Geometry.get_intersection_geometry.
  destruct ga as [a |]; [| discriminate]. destruct gb as [b |]; [| discriminate].
  destruct (_ || _)%bool; [discriminate |].
  destruct (geom_intersect a b d) as [[j |] |]; try discriminate.
  destruct (Geometry.is_geometry_null (Some j)); [discriminate |].
  destruct (Py.le (Geometry.get_geometry_area (Some j)) 0) eqn:Hle;
    [discriminate |].
  intros [= <-]. by apply PyFacts.le_false_iff.
Qed.

Lemma ratio_bounds (area area_a area_b : Q) :
  (0 < area)%Q -> (0 < area_a)%Q -> (0 < area_b)%Q ->
  (area <= area_a)%Q -> (area <= area_b)%Q ->
  (0 <= area / Py.min area_a area_b)%Q /\ (area / Py.min area_a area_b <= 1)%Q.
Proof.
  intros Hi Ha Hb Hia Hib.
  pose proof (min_positive _ _ Ha Hb) as Hmin.
  assert (Hle : (area <= Py.min area_a area_b)%Q)
    by (destruct (PyFacts.min_spec area_a area_b) as [[_ ->] | [_ ->]]; done).
  split.
  - apply Qle_shift_div_l; [exact Hmin | lra].
  - apply Qle_shift_div_r; [exact Hmin | lra].
Qed.

End Provider.

(** C5. Every record emitted by [find_pairwise_overlaps] has
    [overlap_ratio = overlap_area / min(area_a, area_b)], where [area_a] and
    [area_b] are the areas of the two features of the record, both strictly
    positive on the emission path, and [overlap_area] is the area of their
    intersection.  If the provider never returns an intersection larger
    than either operand, then [0 <= overlap_ratio <= 1]. *)
Theorem overlap_ratio_definition_and_bound {G : Type} `{ArcGeometry G}
    (features : list (Z * option G))
    (min_overlap_area duplicate_threshold partial_threshold : Q) :
  exists rs,
    find_pairwise_overlaps features min_overlap_area duplicate_threshold
      partial_threshold = Some rs
    /\ forall r, r ∈ rs ->
         exists geom_a geom_b,
           Py.dict_get features (fid_a r) = Some geom_a
           /\ Py.dict_get features (fid_b r) = Some geom_b
           /\ (0 < Geometry.get_geometry_area geom_a)%Q
           /\ (0 < Geometry.get_geometry_area geom_b)%Q
           /\ Geometry.get_intersection_geometry geom_a geom_b 4
              = Some (overlap_geometry r)
           /\ overlap_area r
              = Geometry.get_geometry_area (Some (overlap_geometry r))
           /\ overlap_ratio r
              = (overlap_area r
                 / Py.min (Geometry.get_geometry_area geom_a)
                          (Geometry.get_geometry_area geom_b))%Q
           /\ ((forall (g1 g2 : option G) (i : G),
                  Geometry.get_intersection_geometry g1 g2 4 = Some i ->
                  (Geometry.get_geometry_area (Some i)
                   <= Geometry.get_geometry_area g1)%Q
                  /\ (Geometry.get_geometry_area (Some i)
                      <= Geometry.get_geometry_area g2)%Q) ->
               (0 <= overlap_ratio r)%Q /\ (overlap_ratio r <= 1)%Q).
Proof.
  destruct (find_pairwise_overlaps_spec features min_overlap_area
              duplicate_threshold partial_threshold) as (rs & Hrs & _ & Hall).
  exists rs. split; [exact Hrs |]. intros r Hr.
  destruct (Hall r Hr)
    as (ga & gb & ea & eb & Hga & Hgb & _ & _ & Haa & Hab & _ & _ & _
        & Hi & Harea & _ & Hratio & _).
  exists ga, gb. repeat (split; [assumption |]).
  intros Hprov. destruct (Hprov ga gb _ Hi) as [Hia Hib].
  rewrite Hratio, Harea.
  apply ratio_bounds; try assumption.
  by apply (intersection_area_positive ga gb 4).
Qed.

Lemma get_geometry_area_value {G : Type} `{ArcGeometry G} (g : G) :
  Geometry.is_geometry_null (Some g) = false ->
  (Geometry.get_geometry_area (Some g) == geom_area g)%Q.
Proof.
  intros Hnull. unfold Geometry.get_geometry_area. rewrite Hnull.
  destruct (Py.eq (geom_area g) 0) eqn:E; [| reflexivity].
  apply PyFacts.eq_iff in E. by rewrite E.
Qed.

Lemma get_intersection_geometry_inv {G : Type} `{ArcGeometry G}
    (ga gb : option G) (d : Z) (i : G) :
  Geometry.get_intersection_geometry ga gb d = Some i ->
  exists a b, ga = Some a /\ gb = Some b
              /\ Geometry.is_geometry_null ga = false
              /\ Geometry.is_geometry_null gb = false
              /\ geom_intersect a b d = Ok (Some i)
              /\ Geometry.is_geometry_null (Some i) = false.
Proof.
  unfold Geometry.get_intersection_geometry.
  destruct ga as [a |]; [| discriminate]. destruct gb as [b |]; [| discriminate].
  destruct (Geometry.is_geometry_null (Some a)) eqn:Ha; [discriminate |].
  destruct (Geometry.is_geometry_null (Some b)) eqn:Hb; [discriminate |].
  cbn [orb]. destruct (geom_intersect a b d) as [[j |] |] eqn:Hint;
    try discriminate.
  destruct (Geometry.is_geometry_null (Some j)) eqn:Hj; [discriminate |].
  destruct (Py.le _ 0); [discriminate |].
  intros [= <-]. exists a, b. done.
Qed.

(** The rectangle provider satisfies the hypothesis of the ratio bound: a
    common rectangle is no larger than either operand. *)
Lemma rect_intersection_area (g1 g2 : option Rect.RectGeom) (i : Rect.RectGeom) :
  Geometry.get_intersection_geometry g1 g2 4 = Some i ->
  (Geometry.get_geometry_area (Some i) <= Geometry.get_geometry_area g1)%Q
  /\ (Geometry.get_geometry_area (Some i) <= Geometry.get_geometry_area g2)%Q.
Proof.
  intros Hi.
  apply get_intersection_geometry_inv in Hi
    as (a & b & -> & -> & Hna & Hnb & Hint & Hni).
  rewrite (get_geometry_area_value a Hna), (get_geometry_area_value b Hnb),
    (get_geometry_area_value i Hni).
  simpl in Hint. unfold Rect.rect_intersect in Hint.
  destruct (Rect.is_polygon a) eqn:Hpa; [| discriminate].
  destruct (Rect.is_polygon b) eqn:Hpb; [| discriminate].
  simpl in Hint.
  destruct (Py.lt _ _) eqn:Hx in Hint; [| discriminate].
  destruct (Py.lt _ _) eqn:Hy in Hint; [| discriminate].
  injection Hint as <-. apply PyFacts.lt_iff in Hx, Hy.
  simpl. unfold Rect.rect_area. rewrite Hpa, Hpb. simpl.
  unfold Rect.width, Rect.height, e_xmin, e_xmax, e_ymin, e_ymax in *.
  simpl in *.
  destruct (Rect.rg_extent a) as [[[ax0 ay0] ax1] ay1].
  destruct (Rect.rg_extent b) as [[[bx0 by0] bx1] by1]. simpl in *.
  destruct (PyFacts.max_spec ax0 bx0) as [[? Ex0] | [? Ex0]];
    destruct (PyFacts.max_spec ay0 by0) as [[? Ey0] | [? Ey0]];
    destruct (PyFacts.min_spec ax1 bx1) as [[? Ex1] | [? Ex1]];
    destruct (PyFacts.min_spec ay1 by1) as [[? Ey1] | [? Ey1]];
    rewrite Ex0, Ey0, Ex1, Ey1 in *; split; nra.
Qed.

Lemma overlap_ratio_definition_and_bound_witness :
  exists rs,
    find_pairwise_overlaps unit_squares 0 (9 # 10) (1 # 2) = Some rs
    /\ forall r, r ∈ rs -> (0 <= overlap_ratio r)%Q /\ (overlap_ratio r <= 1)%Q.
Proof.
  destruct (overlap_ratio_definition_and_bound unit_squares 0 (9 # 10) (1 # 2))
    as (rs & Hrs & Hall).
  exists rs. split; [exact Hrs |]. intros r Hr.
  destruct (Hall r Hr) as (ga & gb & _ & _ & _ & _ & _ & _ & _ & Hbound).
  apply Hbound. exact rect_intersection_area.
Defined.

(** The scenario of the specification: two unit squares that share a
    quarter. *)
Example unit_squares_overlap :
  exists r,
    find_pairwise_overlaps unit_squares 0 (9 # 10) (1 # 2) = Some [r]
    /\ fid_a r = 1%Z /\ fid_b r = 2%Z
    /\ (overlap_area r == 1 # 4)%Q /\ (overlap_ratio r == 1 # 4)%Q
    /\ overlap_type r = "SLIVER".
Proof. eexists. split; [vm_compute; reflexivity |]. repeat split. Qed.

End OverlapClaims.

(** ** The order of the ids in a record *)

Module OrderFacts.
Import SpatialOps IndexInv IndexFacts ScanInv ScanFacts OrderInv Samples.

Lemma sorted_suffix (l1 l2 : list Z) :
  StronglySorted Z.lt (l1 ++ l2) -> StronglySorted Z.lt l2.
Proof.
  induction l1 as [| x l1 IH]; simpl; [done |].
  intros Hs. apply StronglySorted_inv in Hs as [Hs _]. by apply IH.
Qed.

Lemma sorted_NoDup (l : list Z) : StronglySorted Z.lt l -> NoDup l.
Proof.
  induction 1 as [| x l Hs IH Hall]; [constructor |].
  apply NoDup_cons. split; [| exact IH].
  intros Hx. rewrite Forall_forall in Hall. apply Hall in Hx. lia.
Qed.

Lemma precedes_distinct (l : list Z) (a b : Z) :
  NoDup l -> precedes l a b -> a <> b.
Proof.
  intros Hnd (l1 & l2 & l3 & ->) ->.
  apply NoDup_app in Hnd as (_ & _ & Hnd).
  apply NoDup_cons in Hnd as [Hnotin _]. apply Hnotin.
  apply elem_of_app. right. apply elem_of_cons. by left.
Qed.

Lemma precedes_sorted (l : list Z) (a b : Z) :
  StronglySorted Z.lt l -> precedes l a b -> (a < b)%Z.
Proof.
  intros Hs (l1 & l2 & l3 & ->).
  apply sorted_suffix, StronglySorted_inv in Hs as [_ Hall].
  rewrite Forall_forall in Hall. apply Hall.
  apply elem_of_app. right. apply elem_of_cons. by left.
Qed.

Section Provider.
Context {G : Type} `{ArcGeometry G}.

(** In an index built from a mapping with distinct keys, being a candidate
    is symmetric. *)
Lemma candidates_symmetric (cs : Q) (features : list (Z * option G))
    (idx : SpatialIndex G) (a b : Z) (la : list Z) :
  index_inv cs features idx ->
  NoDup features.*1 ->
  query_candidates idx a = Some la -> b ∈ la ->
  exists lb, query_candidates idx b = Some lb /\ a ∈ lb.
Proof.
  intros Hinv Hnd Hq Hb.
  pose proof (inv_cell_size _ _ _ Hinv) as Hsize. subst cs.
  assert (Hea : exists ea ba, extents idx !! a = Some ea
                  /\ cell_bounds (cell_size idx) ea = Some ba).
  { unfold query_candidates in Hq.
    destruct (extents idx !! a) as [ea |];
      [| injection Hq as <-; by apply elem_of_nil in Hb].
    destruct (cell_bounds (cell_size idx) ea) as [ba |] eqn:Hba;
      [| discriminate].
    by exists ea, ba. }
  destruct Hea as (ea & ba & Hea & Hba).
  apply (query_candidates_elem idx a ea ba la Hea Hba Hq) in Hb
    as (Hne & key & Hka & Hbk).
  destruct (inv_exact _ _ _ Hinv Hnd key b Hbk) as (eb & bb & Heb & Hbb & Hkb).
  apply cell_bounds_inv in Hbb as Hnz. destruct Hnz as [Hnz _].
  destruct (query_candidates_total idx b Hnz) as [lb Hlb].
  exists lb. split; [exact Hlb |].
  apply (query_candidates_elem idx b eb bb lb Heb Hbb Hlb).
  split; [congruence |]. exists key. split; [exact Hkb |].
  by apply (inv_covers _ _ _ Hinv a ea ba key).
Qed.

Lemma candidate_not_self (idx : SpatialIndex G) (a b : Z) (la : list Z) :
  query_candidates idx a = Some la -> b ∈ la -> b <> a.
Proof.
  unfold query_candidates. destruct (extents idx !! a) as [ea |].
  - destruct (cell_bounds (cell_size idx) ea); [| discriminate].
    intros [= <-] Hb.
    apply elem_of_elements, elem_of_difference in Hb as [_ Hb].
    by rewrite elem_of_singleton in Hb.
  - intros [= <-] Hb. by apply elem_of_nil in Hb.
Qed.

Lemma emitted_usable (features : list (Z * option G)) (extents : gmap Z Extent)
    (m d p : Q) (r : OverlapResult G) :
  emitted features extents m d p r ->
  usable features extents (fid_a r) /\ usable features extents (fid_b r).
Proof.
  intros (ga & gb & ea & eb & Hga & Hgb & Hva & Hvb & Haa & Hab & Hea & Heb & _).
  split; [by exists ga, ea | by exists gb, eb].
Qed.

Section Loop.
Variable features : list (Z * option G).
Variables min_overlap_area duplicate_threshold partial_threshold : Q.
Variable cs : Q.
Variable idx : SpatialIndex G.
Hypothesis Hinv : index_inv cs features idx.
Hypothesis Hnd : NoDup features.*1.

Local Abbreviation extents_ := (extent_map features).
Local Abbreviation outer :=
  (overlap_outer features idx extents_ min_overlap_area
     duplicate_threshold partial_threshold).

(** The outer loop, from the point where [visited] has been processed and
    [fids] remains: every record appended from here on has its first id
    before its second id in the order of the mapping. *)
Lemma outer_loop_order (fids : list Z) :
  forall (visited : list Z) P R st',
    visited ++ fids = features.*1 ->
    candidates_marked features extents_ idx P visited ->
    foldl_opt outer (P, R) fids = Some st' ->
    exists Rnew,
      st'.2 = R ++ Rnew
      /\ forall r, r ∈ Rnew -> precedes features.*1 (fid_a r) (fid_b r).
Proof.
  induction fids as [| fa fids IH]; intros visited P R st' Hsplit Hmark;
    cbn [foldl_opt].
  - intros [= <-]. exists []. rewrite app_nil_r. split; [reflexivity |].
    intros r Hr. by apply elem_of_nil in Hr.
  - destruct (outer (P, R) fa) as [[P1 R1] |] eqn:Hstep; [| discriminate].
    intros Hrest.
    assert (Hsplit' : (visited ++ [fa]) ++ fids = features.*1)
      by (by rewrite <- app_assoc).
    apply overlap_outer_spec in Hstep
      as [[Hnu [= -> ->]] | (Hu & cands & Hq & HP1 & Rn1 & HR1 & _ & Hall1)].
    + apply (IH (visited ++ [fa]) P R st' Hsplit'); [| exact Hrest].
      intros b cb c Hb Hub Hqb Hc.
      apply elem_of_app in Hb as [Hb | Hb]; [by apply (Hmark b cb c) |].
      apply list_elem_of_singleton in Hb as ->. contradiction.
    + simpl in HP1, HR1. subst P1 R1.
      destruct (IH (visited ++ [fa])
                  (list_to_set (pair_key fa <$> cands) ∪ P) (R ++ Rn1) st'
                  Hsplit') as (Rn2 & HR' & Hall2); [| exact Hrest |].
      * intros b cb c Hb Hub Hqb Hc.
        apply elem_of_app in Hb as [Hb | Hb].
        -- apply elem_of_union. right. by apply (Hmark b cb c).
        -- apply list_elem_of_singleton in Hb as ->.
           assert (cb = cands) as -> by congruence.
           apply elem_of_union. left. apply elem_of_list_to_set.
           apply list_elem_of_fmap. by exists c.
      * exists (Rn1 ++ Rn2). split; [by rewrite HR', <- app_assoc |].
        intros r Hr. apply elem_of_app in Hr as [Hr | Hr]; [| by apply Hall2].
        destruct (Hall1 r Hr) as (Hfresh & Hfa & Hfb & Hem).
        pose proof (candidate_not_self idx fa (fid_b r) cands Hq Hfb) as Hne.
        destruct (emitted_usable _ _ _ _ _ r Hem) as [_ Hub].
        assert (Hin : fid_b r ∈ features.*1).
        { destruct Hub as (gb & eb & Hgb & _).
          apply PyFacts.dict_get_elem in Hgb.
          apply list_elem_of_fmap. by exists (fid_b r, gb). }
        rewrite <- Hsplit in Hin.
        apply elem_of_app in Hin as [Hin | Hin].
        -- exfalso. apply Hfresh.
           destruct (candidates_symmetric cs features idx fa (fid_b r) cands
                       Hinv Hnd Hq Hfb) as (lb & Hlb & Hal).
           unfold result_key. rewrite Hfa, pair_key_comm.
           by apply (Hmark (fid_b r) lb fa).
        -- apply elem_of_cons in Hin as [Hin | Hin]; [contradiction |].
           apply list_elem_of_split in Hin as (l2 & l3 & ->).
           exists visited, l2, l3. by rewrite Hfa, <- Hsplit.
Qed.

End Loop.

(** [find_pairwise_overlaps] on a mapping with distinct keys: every record
    has its first id before its second id in the order of the mapping. *)
Lemma find_pairwise_overlaps_order (features : list (Z * option G))
    (min_overlap_area duplicate_threshold partial_threshold : Q) :
  NoDup features.*1 ->
  exists rs,
    find_pairwise_overlaps features min_overlap_area duplicate_threshold
      partial_threshold = Some rs
    /\ forall r, r ∈ rs -> precedes features.*1 (fid_a r) (fid_b r).
Proof.
  intros Hnd.
  destruct (find_pairwise_overlaps_spec features min_overlap_area
              duplicate_threshold partial_threshold) as (rs & Hrs & _).
  exists rs. split; [exact Hrs |]. revert Hrs.
  unfold find_pairwise_overlaps. destruct features as [| item features'] eqn:Hf.
  { intros [= <-] r Hr. by apply elem_of_nil in Hr. }
  rewrite <- Hf in *. clear Hf item features'.
  destruct (overlap_scan features min_overlap_area duplicate_threshold
              partial_threshold) as [st |] eqn:Hscan; [| discriminate].
  intros [= <-]. revert Hscan. unfold overlap_scan.
  assert (HE : (collect_extents features).1.1 = extent_map features)
    by reflexivity.
  destruct (collect_extents features) as [[E tw] th]. simpl in HE. subst E.
  destruct (decide (size (extent_map features) = 0%nat)).
  { intros [= <-] r Hr. by apply elem_of_nil in Hr. }
  destruct (build_index (derived_cell_size (extent_map features) tw th) features)
    as [idx |] eqn:Hidx; [| discriminate].
  intros Hloop.
  pose proof (build_index_inv _ features idx Hidx) as Hinv.
  destruct (outer_loop_order features min_overlap_area duplicate_threshold
              partial_threshold _ idx Hinv Hnd features.*1 [] ∅ [] st)
    as (Rnew & HR & Hall).
  - reflexivity.
  - intros b cb c Hb. by apply elem_of_nil in Hb.
  - exact Hloop.
  - simpl in HR. by rewrite HR.
Qed.

End Provider.

(** C3 (as amended).  For a feature mapping (distinct keys), every record
    emitted by [find_pairwise_overlaps] has as [fid_a] the id that comes
    first in the iteration order of the mapping and as [fid_b] a different
    id that comes later; so when the mapping is iterated in strictly
    ascending id order, every emitted record has [fid_a < fid_b]. *)
Theorem find_pairwise_overlaps_ordered_ids {G : Type} `{ArcGeometry G}
    (features : list (Z * option G))
    (min_overlap_area duplicate_threshold partial_threshold : Q) :
  NoDup features.*1 ->
  exists rs,
    find_pairwise_overlaps features min_overlap_area duplicate_threshold
      partial_threshold = Some rs
    /\ (forall r, r ∈ rs ->
          precedes features.*1 (fid_a r) (fid_b r) /\ fid_a r <> fid_b r)
    /\ (StronglySorted Z.lt features.*1 ->
        forall r, r ∈ rs -> (fid_a r < fid_b r)%Z).
Proof.
  intros Hnd.
  destruct (find_pairwise_overlaps_order features min_overlap_area
              duplicate_threshold partial_threshold Hnd) as (rs & Hrs & Hall).
  exists rs. split; [exact Hrs |]. split.
  - intros r Hr. split; [by apply Hall |].
    apply (precedes_distinct features.*1); [exact Hnd | by apply Hall].
  - intros Hsorted r Hr.
    apply (precedes_sorted features.*1); [exact Hsorted | by apply Hall].
Qed.

Lemma find_pairwise_overlaps_ordered_ids_witness :
  exists rs,
    find_pairwise_overlaps unit_squares 0 (9 # 10) (1 # 2)
    = Some rs
    /\ forall r, r ∈ rs -> (fid_a r < fid_b r)%Z.
Proof.
  destruct (find_pairwise_overlaps_ordered_ids
              unit_squares 0 (9 # 10) (1 # 2))
    as (rs & Hrs & _ & Hlt).
  - simpl. apply NoDup_cons. split; [| apply NoDup_singleton].
    intros Hin. apply list_elem_of_singleton in Hin. discriminate.
  - exists rs. split; [exact Hrs |]. apply Hlt.
    simpl. repeat constructor.
Defined.

(** C3 as stated fails: the record carries the ids in the order in which
    the outer loop met them, here [fid_a = 2] and [fid_b = 1]. *)
Lemma find_pairwise_overlaps_unordered_ids :
  exists r,
    find_pairwise_overlaps unit_squares_descending 0 (9 # 10) (1 # 2)
    = Some [r]
    /\ fid_a r = 2%Z /\ fid_b r = 1%Z /\ (fid_b r < fid_a r)%Z.
Proof. eexists. split; [vm_compute; reflexivity |]. repeat split. Qed.

End OrderFacts.

(** ** Self-intersections *)

Module SegmentFacts.
Import RoadQC SegmentSpec.

Lemma unit_fraction (b s : Q) :
  (0 <= b)%Q -> (b <= s)%Q -> (0 < s)%Q -> (0 <= b / s)%Q /\ (b / s <= 1)%Q.
Proof.
  intros Hb Hbs Hs. split.
  - apply Qle_shift_div_l; [exact Hs | lra].
  - apply Qle_shift_div_r; [exact Hs | lra].
Qed.

Lemma cross_multiply (x y s u : Q) :
  (0 < s)%Q -> (0 < u)%Q -> (u * x == s * y)%Q -> (x / s == y / u)%Q.
Proof.
  intros Hs Hu Heq.
  assert (E1 : (x / s == (u * x) / (s * u))%Q) by (field; split; lra).
  assert (E2 : (y / u == (s * y) / (s * u))%Q) by (field; split; lra).
  rewrite E1, E2, Heq. reflexivity.
Qed.

(** Two points given by non-negative weights on either segment, equal up
    to the common denominator, witness a common point. *)
Lemma meet_of_weights (p1 q1 p2 q2 : Point) (a b c d : Q) :
  (0 <= a)%Q -> (0 <= b)%Q -> (0 < a + b)%Q ->
  (0 <= c)%Q -> (0 <= d)%Q -> (0 < c + d)%Q ->
  ((c + d) * (a * p1.1 + b * q1.1) == (a + b) * (c * p2.1 + d * q2.1))%Q ->
  ((c + d) * (a * p1.2 + b * q1.2) == (a + b) * (c * p2.2 + d * q2.2))%Q ->
  segments_meet p1 q1 p2 q2.
Proof.
  intros Ha Hb Hab Hc Hd Hcd Hx Hy.
  exists (((a * p1.1 + b * q1.1) / (a + b))%Q,
          ((a * p1.2 + b * q1.2) / (a + b))%Q).
  split.
  - exists (b / (a + b))%Q.
    destruct (unit_fraction b (a + b)) as [H0 H1]; [lra | lra | lra |].
    split; [exact H0 |]. split; [exact H1 |]. simpl. split; field; lra.
  - exists (d / (c + d))%Q.
    destruct (unit_fraction d (c + d)) as [H0 H1]; [lra | lra | lra |].
    split; [exact H0 |]. split; [exact H1 |]. simpl. split.
    + rewrite (cross_multiply _ (c * p2.1 + d * q2.1) (a + b) (c + d) Hab Hcd Hx).
      field; lra.
    + rewrite (cross_multiply _ (c * p2.2 + d * q2.2) (a + b) (c + d) Hab Hcd Hy).
      field; lra.
Qed.

Lemma on_segment_true (px py qx qy rx ry : Q) :
  _on_segment px py qx qy rx ry = true
  <-> (Py.min px rx <= qx)%Q /\ (qx <= Py.max px rx)%Q
      /\ (Py.min py ry <= qy)%Q /\ (qy <= Py.max py ry)%Q.
Proof.
  unfold _on_segment. rewrite !andb_true_iff, !PyFacts.le_iff. tauto.
Qed.

(** A point collinear with a segment and inside its bounding box is a
    weighted mean of its end points. *)
Lemma collinear_box_weights (px py rx ry qx qy : Q) :
  (_cross2d px py rx ry qx qy == 0)%Q ->
  _on_segment px py qx qy rx ry = true ->
  exists c d : Q,
    (0 <= c)%Q /\ (0 <= d)%Q /\ (0 < c + d)%Q
    /\ ((c + d) * qx == c * px + d * rx)%Q
    /\ ((c + d) * qy == c * py + d * ry)%Q.
Proof.
  unfold _cross2d. intros Hcol Hbox.
  apply on_segment_true in Hbox as (Hx0 & Hx1 & Hy0 & Hy1).
  destruct (PyFacts.min_spec px rx) as [[Hmx Emx] | [Hmx Emx]];
    destruct (PyFacts.max_spec px rx) as [[HMx EMx] | [HMx EMx]];
    rewrite Emx in Hx0; rewrite EMx in Hx1;
    destruct (PyFacts.min_spec py ry) as [[Hmy Emy] | [Hmy Emy]];
    destruct (PyFacts.max_spec py ry) as [[HMy EMy] | [HMy EMy]];
    rewrite Emy in Hy0; rewrite EMy in Hy1; try lra.
  all: destruct (Qlt_le_dec px rx) as [Hlx | Hgx];
    [exists (rx - qx)%Q, (qx - px)%Q; repeat split; try lra; try nra |].
  all: destruct (Qlt_le_dec rx px) as [Hlx' | Hgx'];
    [exists (qx - rx)%Q, (px - qx)%Q; repeat split; try lra; try nra |].
  all: destruct (Qlt_le_dec py ry) as [Hly | Hgy];
    [exists (ry - qy)%Q, (qy - py)%Q; repeat split; try lra; try nra |].
  all: destruct (Qlt_le_dec ry py) as [Hly' | Hgy'];
    [exists (qy - ry)%Q, (py - qy)%Q; repeat split; try lra; try nra |].
  all: exists 1%Q, 0%Q; repeat split; lra.
Qed.

(** [_segments_cross] never answers [True] for two segments without a
    common point. *)
Lemma segments_cross_sound (p1 q1 p2 q2 : Point) :
  _segments_cross p1 q1 p2 q2 = true -> segments_meet p1 q1 p2 q2.
Proof.
  destruct p1 as [x1 y1], q1 as [x2 y2], p2 as [x3 y3], q2 as [x4 y4].
  unfold _segments_cross. cbn [fst snd].
  set (d1 := _cross2d x3 y3 x4 y4 x1 y1). set (d2 := _cross2d x3 y3 x4 y4 x2 y2).
  set (d3 := _cross2d x1 y1 x2 y2 x3 y3). set (d4 := _cross2d x1 y1 x2 y2 x4 y4).
  destruct (_ && _)%bool eqn:Hproper.
  { intros _. apply andb_true_iff in Hproper as [H12 H34].
    rewrite orb_true_iff, !andb_true_iff, !PyFacts.lt_iff in H12, H34.
    assert (Hid : (d1 - d2 + (d3 - d4) == 0)%Q)
      by (unfold d1, d2, d3, d4, _cross2d; ring).
    destruct H12 as [[H1 H2] | [H1 H2]]; destruct H34 as [[H3 H4] | [H3 H4]];
      try lra.
    - apply (meet_of_weights _ _ _ _ (- d2) d1 d4 (- d3)); try lra;
        cbn [fst snd]; unfold d1, d2, d3, d4, _cross2d; ring.
    - apply (meet_of_weights _ _ _ _ d2 (- d1) (- d4) d3); try lra;
        cbn [fst snd]; unfold d1, d2, d3, d4, _cross2d; ring. }
  clear Hproper.
  destruct (Py.eq d1 0 && _)%bool eqn:E1.
  { intros _. apply andb_true_iff in E1 as [Hz Hbox].
    apply PyFacts.eq_iff in Hz.
    destruct (collinear_box_weights _ _ _ _ _ _ Hz Hbox)
      as (c & d & Hc & Hd & Hcd & Hx & Hy).
    apply (meet_of_weights _ _ _ _ 1 0 c d); try lra; cbn [fst snd]; nra. }
  destruct (Py.eq d2 0 && _)%bool eqn:E2.
  { intros _. apply andb_true_iff in E2 as [Hz Hbox].
    apply PyFacts.eq_iff in Hz.
    destruct (collinear_box_weights _ _ _ _ _ _ Hz Hbox)
      as (c & d & Hc & Hd & Hcd & Hx & Hy).
    apply (meet_of_weights _ _ _ _ 0 1 c d); try lra; cbn [fst snd]; nra. }
  destruct (Py.eq d3 0 && _)%bool eqn:E3.
  { intros _. apply andb_true_iff in E3 as [Hz Hbox].
    apply PyFacts.eq_iff in Hz.
    destruct (collinear_box_weights _ _ _ _ _ _ Hz Hbox)
      as (c & d & Hc & Hd & Hcd & Hx & Hy).
    apply (meet_of_weights _ _ _ _ c d 1 0); try lra; cbn [fst snd]; nra. }
  destruct (Py.eq d4 0 && _)%bool eqn:E4; [| discriminate].
  intros _. apply andb_true_iff in E4 as [Hz Hbox].
  apply PyFacts.eq_iff in Hz.
  destruct (collinear_box_weights _ _ _ _ _ _ Hz Hbox)
    as (c & d & Hc & Hd & Hcd & Hx & Hy).
  apply (meet_of_weights _ _ _ _ c d 0 1); try lra; cbn [fst snd]; nra.
Qed.

(** *** The sweep over one road *)

Lemma scan_j_Some (part : list Point) (i : Z) (js : list Z) (pt : Point) :
  scan_j part i js = Some pt ->
  exists j, j ∈ js
            /\ _segments_cross (at_index part i) (at_index part (i + 1))
                 (at_index part j) (at_index part (j + 1)) = true.
Proof.
  induction js as [| j js IH]; cbn [scan_j]; [discriminate |].
  destruct (_segments_cross _ _ _ _) eqn:Hc.
  - destruct (_intersection_point _ _ _ _) as [pt' |].
    + intros _. exists j. split; [apply elem_of_cons; by left | exact Hc].
    + intros Hrest. destruct (IH Hrest) as (j' & Hj' & Hc').
      exists j'. split; [apply elem_of_cons; by right | exact Hc'].
  - intros Hrest. destruct (IH Hrest) as (j' & Hj' & Hc').
    exists j'. split; [apply elem_of_cons; by right | exact Hc'].
Qed.

Lemma scan_i_Some (part : list Point) (n : Z) (is_ : list Z) (pt : Point) :
  scan_i part n is_ = Some pt ->
  exists i j, i ∈ is_ /\ j ∈ Py.range (i + 2) (n - 1)
              /\ _segments_cross (at_index part i) (at_index part (i + 1))
                   (at_index part j) (at_index part (j + 1)) = true.
Proof.
  induction is_ as [| i is_ IH]; cbn [scan_i]; [discriminate |].
  destruct (scan_j part i (Py.range (i + 2) (n - 1))) as [pt' |] eqn:Hj.
  - intros _. apply scan_j_Some in Hj as (j & Hj & Hc).
    exists i, j. split; [apply elem_of_cons; by left | done].
  - intros Hrest. destruct (IH Hrest) as (i' & j & Hi' & Hj' & Hc).
    exists i', j. split; [apply elem_of_cons; by right | done].
Qed.

(** Every pair of indices the sweep compares is a pair of segments of the
    part, at least two apart; no [part[k]] is out of range. *)
Lemma segment_indices_in_range (n i j : Z) :
  i ∈ Py.range 0 (n - 1) -> j ∈ Py.range (i + 2) (n - 1) ->
  (0 <= i)%Z /\ (i + 2 <= j)%Z /\ (j + 1 < n)%Z.
Proof. rewrite !PyFacts.range_elem. lia. Qed.

Lemma scan_parts_Some (parts : list (list Point)) (pt : Point) :
  scan_parts parts = Some pt ->
  exists part, part ∈ parts /\ ~ non_adjacent_disjoint part.
Proof.
  induction parts as [| part parts IH]; cbn [scan_parts]; [discriminate |].
  destruct (_ <? 4)%Z.
  - intros Hrest. destruct (IH Hrest) as (part' & Hin & Hns).
    exists part'. split; [apply elem_of_cons; by right | exact Hns].
  - destruct (scan_i part _ _) as [pt' |] eqn:Hi.
    + intros _. apply scan_i_Some in Hi as (i & j & Hi & Hj & Hc).
      exists part. split; [apply elem_of_cons; by left |].
      intros Hsimple.
      destruct (segment_indices_in_range _ i j Hi Hj) as (H0 & H2 & Hn).
      apply (Hsimple i j H0 H2 Hn). by apply segments_cross_sound.
    + intros Hrest. destruct (IH Hrest) as (part' & Hin & Hns).
      exists part'. split; [apply elem_of_cons; by right | exact Hns].
Qed.

Lemma find_self_intersections_gen (vbr : list (Z * list (list Point))) :
  forall results fid x y,
    (fid, x, y)
      ∈ foldl (fun results (item : Z * list (list Point)) =>
                 match scan_parts item.2 with
                 | Some pt => results ++ [(item.1, pt.1, pt.2)]
                 | None => results
                 end) results vbr ->
    (fid, x, y) ∈ results
    \/ exists parts pt, (fid, parts) ∈ vbr /\ scan_parts parts = Some pt.
Proof.
  induction vbr as [| [fid' parts] vbr IH]; intros results fid x y; simpl.
  - by left.
  - intros Hin. apply IH in Hin as [Hin | (ps & pt & Hps & Hpt)].
    + destruct (scan_parts parts) as [pt |] eqn:Hpt; [| by left].
      apply elem_of_app in Hin as [Hin | Hin]; [by left |].
      apply list_elem_of_singleton in Hin. injection Hin as -> _ _.
      right. exists parts, pt. split; [apply elem_of_cons; by left | exact Hpt].
    + right. exists ps, pt. split; [apply elem_of_cons; by right | exact Hpt].
Qed.

(** The open case of the adjacency exclusion, over the rationals: without
    rounding, a road is reported only if one of its parts has two segments,
    at least two apart in the chain, with a common point, and a polyline
    whose non-adjacent segments are disjoint is never reported.  In binary64
    a rounded cross product can be zero for segments that do not meet. *)
Theorem open_simple_polyline_not_reported
    (vertices_by_road : list (Z * list (list Point))) (fid : Z) (x y : Q) :
  (fid, x, y) ∈ find_self_intersections vertices_by_road ->
  exists parts part,
    (fid, parts) ∈ vertices_by_road /\ part ∈ parts
    /\ ~ non_adjacent_disjoint part.
Proof.
  intros Hin. apply find_self_intersections_gen in Hin
    as [Hin | (parts & pt & Hps & Hpt)]; [by apply elem_of_nil in Hin |].
  apply scan_parts_Some in Hpt as (part & Hpart & Hns).
  by exists parts, part.
Qed.

(** C8, the closed case, on the code.  The ring
    [(0,0) - (1,0) - (0,1) - (0,0)] is closed, and its first and last
    segments, the only pair the sweep compares, have exactly the closing
    vertex in common; [find_self_intersections] nevertheless reports a
    self-intersection for it, at that vertex. *)
Theorem closed_ring_reported :
  (forall r : Point,
     lies_on (0, 0)%Q (1, 0)%Q r -> lies_on (0, 1)%Q (0, 0)%Q r ->
     (r.1 == 0)%Q /\ (r.2 == 0)%Q)
  /\ exists x y : Q,
      find_self_intersections [(7%Z, [[(0, 0); (1, 0); (0, 1); (0, 0)]%Q])]
      = [(7%Z, x, y)]
      /\ (x == 0)%Q /\ (y == 0)%Q.
Proof.
  split.
  - intros [rx ry] (t & _ & _ & Hx1 & Hy1) (u & _ & _ & Hx2 & Hy2).
    cbn [fst snd] in *. split; lra.
  - do 2 eexists. split; [vm_compute; reflexivity |]. split; reflexivity.
Qed.

(** The scenario of the specification: the path
    [(0,0) - (2,2) - (0,2) - (2,0)] crosses itself at [(1, 1)]. *)
Example bow_tie_reported :
  exists x y : Q,
    find_self_intersections [(7%Z, [[(0, 0); (2, 2); (0, 2); (2, 0)]%Q])]
    = [(7%Z, x, y)]
    /\ (x == 1)%Q /\ (y == 1)%Q.
Proof. do 2 eexists. split; [vm_compute; reflexivity |]. split; reflexivity. Qed.

End SegmentFacts.

(** ** More on the grid index *)

Module IndexExtras.
Import SpatialOps IndexInv IndexFacts BoxSpec.

(** X5. [extents_intersect] does not depend on the order of its arguments;
    it answers [True] whenever the two closed rectangles have a point in
    common (touching edges and corners included), and for two rectangles
    ([xmin <= xmax], [ymin <= ymax]) only then. *)
Theorem extents_intersect_common_point (ea eb : Extent) :
  extents_intersect ea eb = extents_intersect eb ea
  /\ ((exists x y, in_extent ea x y /\ in_extent eb x y) ->
      extents_intersect ea eb = true)
  /\ (extent_wf ea -> extent_wf eb -> extents_intersect ea eb = true ->
      exists x y, in_extent ea x y /\ in_extent eb x y).
Proof.
  split; [| split].
  - apply eq_true_iff_eq.
    rewrite !IndexSoundness.extents_intersect_true. tauto.
  - intros (x & y & (A1 & A2 & A3 & A4) & (B1 & B2 & B3 & B4)).
    apply IndexSoundness.extents_intersect_true. repeat split; lra.
  - intros [Hax Hay] [Hbx Hby] Hint.
    apply IndexSoundness.extents_intersect_true in Hint as (H1 & H2 & H3 & H4).
    exists (Py.max (e_xmin ea) (e_xmin eb)), (Py.max (e_ymin ea) (e_ymin eb)).
    unfold in_extent.
    destruct (PyFacts.max_spec (e_xmin ea) (e_xmin eb)) as [[? ->] | [? ->]];
      destruct (PyFacts.max_spec (e_ymin ea) (e_ymin eb)) as [[? ->] | [? ->]];
      repeat split; lra.
Qed.

Section Provider.
Context {G : Type} `{ArcGeometry G}.

Lemma insert_unchanged (self : SpatialIndex G) (fid : Z) (geometry : option G) :
  Geometry.get_geometry_extent geometry = None ->
  insert self fid geometry = Some self.
Proof.
  intros Hnone. unfold insert.
  destruct (Geometry.is_geometry_null geometry); [reflexivity |].
  rewrite Hnone. by destruct geometry.
Qed.

Lemma extent_Some_geometry (geometry : option G) (e : Extent) :
  Geometry.get_geometry_extent geometry = Some e ->
  Geometry.is_geometry_null geometry = false
  /\ exists g, geometry = Some g.
Proof.
  unfold Geometry.get_geometry_extent.
  destruct (Geometry.is_geometry_null geometry); [discriminate |].
  destruct geometry as [g |]; [| discriminate]. intros _. split; [done | by exists g].
Qed.

Lemma insert_raises_zero (self : SpatialIndex G) (fid : Z)
    (geometry : option G) (e : Extent) :
  Geometry.get_geometry_extent geometry = Some e ->
  (cell_size self == 0)%Q -> insert self fid geometry = None.
Proof.
  intros He Hz. destruct (extent_Some_geometry geometry e He) as [Hnull [g ->]].
  unfold insert. rewrite Hnull, He. apply PyFacts.eq_iff in Hz.
  destruct e as [[[x0 y0] x1] y1].
  unfold cell_bounds, Py.floordiv_checked. by rewrite Hz.
Qed.

End Provider.

(** X1. [SpatialIndex.insert] leaves the index as it is for a geometry
    without a computable extent ([None], null, or an extent that raises);
    for a geometry with an extent and a cell size of zero it raises
    ([ZeroDivisionError]); and whenever it returns for a geometry with an
    extent, the cell size is not zero and the index holds the extent and the
    geometry under the feature id. *)
Theorem insert_skips_or_raises {G : Type} `{ArcGeometry G}
    (self : SpatialIndex G) (fid : Z) (geometry : option G) :
  (Geometry.get_geometry_extent geometry = None ->
   insert self fid geometry = Some self)
  /\ (forall e, Geometry.get_geometry_extent geometry = Some e ->
        ((cell_size self == 0)%Q -> insert self fid geometry = None)
        /\ (forall idx, insert self fid geometry = Some idx ->
              ~ (cell_size self == 0)%Q
              /\ extents idx !! fid = Some e
              /\ geometries idx !! fid = geometry)).
Proof.
  split; [apply insert_unchanged |]. intros e He.
  split; [by apply (insert_raises_zero self fid geometry e) |].
  intros idx Hins. split.
  - intros Hz. by rewrite (insert_raises_zero self fid geometry e He Hz) in Hins.
  - apply insert_cases in Hins
      as [[Hnone _] | (e' & g & b & He' & -> & _ & ->)]; [congruence |].
    simpl. rewrite !lookup_insert_eq. split; congruence.
Qed.


Section Queries.
Context {G : Type} `{ArcGeometry G}.

Lemma query_by_extent_elem (idx : SpatialIndex G) (e : Extent) b l :
  cell_bounds (cell_size idx) e = Some b ->
  query_by_extent idx e = Some l ->
  forall x, x ∈ l <-> exists key, in_bounds b key /\ x ∈ bucket (grid idx) key.
Proof.
  intros Hb. unfold query_by_extent. rewrite Hb. intros [= <-] x.
  by rewrite elem_of_elements, collect_cells_elem.
Qed.

Lemma query_by_extent_total (idx : SpatialIndex G) (e : Extent) :
  Py.eq (cell_size idx) 0 = false -> is_Some (query_by_extent idx e).
Proof.
  intros Hcs. unfold query_by_extent. rewrite (cell_bounds_Some _ _ Hcs).
  by eexists.
Qed.

Lemma query_by_extent_NoDup (idx : SpatialIndex G) (e : Extent) l :
  query_by_extent idx e = Some l -> NoDup l.
Proof.
  unfold query_by_extent. destruct (cell_bounds _ e); [| discriminate].
  intros [= <-]. apply NoDup_elements.
Qed.

(** A rectangle occupies at least one cell when the cell size is positive. *)
Lemma own_cell (cs : Q) (e : Extent) b :
  (0 < cs)%Q -> extent_wf e -> cell_bounds cs e = Some b ->
  exists key, in_bounds b key.
Proof.
  intros Hcs [Hx Hy] Hb. apply cell_bounds_inv in Hb as [_ ->].
  exists (Py.floordiv (e_xmin e) cs, Py.floordiv (e_ymin e) cs).
  unfold in_bounds. simpl.
  pose proof (PyFacts.floordiv_mono _ _ cs Hcs Hx).
  pose proof (PyFacts.floordiv_mono _ _ cs Hcs Hy). lia.
Qed.

Lemma extent_query_cover (cs : Q) (ops : list (Z * option G))
    (idx : SpatialIndex G) (b : Z) (e eb : Extent) :
  (0 < cs)%Q ->
  index_inv cs ops idx ->
  extents idx !! b = Some eb ->
  extent_wf e -> extent_wf eb ->
  extents_intersect e eb = true ->
  exists l, query_by_extent idx e = Some l /\ b ∈ l.
Proof.
  intros Hcs Hinv Hb Hwe Hwb Hint.
  pose proof (IndexSoundness.positive_not_zero cs Hcs) as Hnz.
  pose proof (inv_covers _ _ _ Hinv) as Hcov.
  pose proof (inv_cell_size _ _ _ Hinv) as Hsize. subst cs.
  destruct (query_by_extent_total idx e Hnz) as [l Hl].
  exists l. split; [exact Hl |].
  pose proof (cell_bounds_Some _ e Hnz) as Hbe.
  pose proof (cell_bounds_Some _ eb Hnz) as Hbb.
  destruct (IndexSoundness.shared_cell _ e eb _ _ Hcs Hwe Hwb Hint Hbe Hbb)
    as (key & Hke & Hkb).
  apply (query_by_extent_elem idx e _ l Hbe Hl).
  exists key. split; [exact Hke |]. by apply (Hcov b eb _ key Hb Hbb).
Qed.

End Queries.



(** X3. The list returned by [query_candidates] has no repetition, never
    holds the queried id itself, holds only ids that were inserted, is
    empty for an id that is not in the index, and otherwise holds exactly
    the ids that [query_by_extent] returns for the id's own extent, less
    the id itself. *)
Theorem query_candidates_shape {G : Type} `{ArcGeometry G}
    (cs : Q) (ops : list (Z * option G)) (idx : SpatialIndex G)
    (fid : Z) (l : list Z) :
  build_index cs ops = Some idx ->
  query_candidates idx fid = Some l ->
  NoDup l
  /\ (fid ∉ l)
  /\ (forall x, x ∈ l -> is_Some (extents idx !! x) /\ x ∈ ops.*1)
  /\ (extents idx !! fid = None -> l = [])
  /\ (forall e lb, extents idx !! fid = Some e ->
        query_by_extent idx e = Some lb ->
        forall x, x ∈ l <-> x ∈ lb /\ x <> fid).
Proof.
  intros Hbuild Hq. apply build_index_inv in Hbuild as Hinv.
  split; [| split; [| split; [| split]]].
  - unfold query_candidates in Hq. destruct (extents idx !! fid).
    + destruct (cell_bounds _ _); [| discriminate].
      injection Hq as <-. apply NoDup_elements.
    + injection Hq as <-. constructor.
  - intros Hin. by apply (OrderFacts.candidate_not_self idx fid fid l Hq).
  - intros x Hx. split.
    + unfold query_candidates in Hq.
      destruct (extents idx !! fid) as [e |];
        [| injection Hq as <-; by apply elem_of_nil in Hx].
      destruct (cell_bounds _ e) as [b |]; [| discriminate].
      injection Hq as <-.
      apply elem_of_elements, elem_of_difference in Hx as [Hx _].
      apply collect_cells_elem in Hx as (key & _ & Hx).
      by apply (inv_members _ _ _ Hinv key).
    + by apply (ScanFacts.candidates_in_features cs ops idx Hinv fid l).
  - intros Hnone. unfold query_candidates in Hq. rewrite Hnone in Hq.
    by injection Hq as <-.
  - intros e lb He Hlb x.
    unfold query_by_extent in Hlb.
    destruct (cell_bounds (cell_size idx) e) as [b |] eqn:Hb; [| discriminate].
    rewrite (query_candidates_elem idx fid e b l He Hb Hq).
    injection Hlb as <-. rewrite elem_of_elements, collect_cells_elem. tauto.
Qed.

Lemma query_candidates_shape_witness :
  exists (idx : SpatialIndex Rect.RectGeom) l,
    build_index 1 Samples.two_boxes = Some idx
    /\ query_candidates idx 1 = Some l
    /\ NoDup l /\ (1%Z ∉ l).
Proof.
  destruct (build_index 1 Samples.two_boxes) as [idx |] eqn:Hidx;
    [| vm_compute in Hidx; discriminate].
  destruct (query_candidates idx 1) as [l |] eqn:Hl;
    [| vm_compute in Hidx; injection Hidx as <-; vm_compute in Hl;
       discriminate].
  exists idx, l. split; [reflexivity |]. split; [exact Hl |].
  destruct (query_candidates_shape 1 Samples.two_boxes idx 1 l Hidx Hl)
    as (Hnd & Hself & _).
  split; [exact Hnd | exact Hself].
Defined.



End IndexExtras.

(** ** More on the pairwise overlap scan *)

Module ScanExtras.
Import SpatialOps IndexInv IndexFacts ScanInv ScanFacts OverlapStats.

Section Provider.
Context {G : Type} `{ArcGeometry G}.

Variable features : list (Z * option G).
Variables min_overlap_area duplicate_threshold partial_threshold : Q.

Local Abbreviation emitted_ok :=
  (emitted features (extent_map features) min_overlap_area
     duplicate_threshold partial_threshold).

(** A property of records that holds for every record the scan appends
    holds for every record of the outer loop. *)
Lemma outer_loop_forall (idx : SpatialIndex G) (Phi : OverlapResult G -> Prop) :
  (forall fa cands r,
      query_candidates idx fa = Some cands ->
      fid_a r = fa -> fid_b r ∈ cands -> emitted_ok r -> Phi r) ->
  forall fids P R st',
    foldl_opt (overlap_outer features idx (extent_map features)
                 min_overlap_area duplicate_threshold partial_threshold)
              (P, R) fids = Some st' ->
    (forall r, r ∈ R -> Phi r) ->
    forall r, r ∈ st'.2 -> Phi r.
Proof.
  intros Hstep. induction fids as [| fa fids IH]; intros P R st';
    cbn [foldl_opt].
  - intros [= <-] HR. exact HR.
  - destruct (overlap_outer features idx (extent_map features) min_overlap_area
                duplicate_threshold partial_threshold (P, R) fa)
      as [[P1 R1] |] eqn:Hone; [| discriminate].
    intros Hrest HR. apply (IH P1 R1 st' Hrest).
    apply overlap_outer_spec in Hone
      as [[_ [= -> ->]] | (_ & cands & Hq & _ & Rn & HR1 & _ & Hall)];
      [exact HR |].
    simpl in HR1. subst R1. intros r Hr.
    apply elem_of_app in Hr as [Hr | Hr]; [by apply HR |].
    destruct (Hall r Hr) as (_ & Hfa & Hfb & Hem).
    by apply (Hstep fa cands r).
Qed.

(** The same for [find_pairwise_overlaps]. *)
Lemma find_pairwise_overlaps_forall (Phi : OverlapResult G -> Prop) :
  (forall (idx : SpatialIndex G) fa cands r,
      query_candidates idx fa = Some cands ->
      fid_a r = fa -> fid_b r ∈ cands -> emitted_ok r -> Phi r) ->
  forall rs,
    find_pairwise_overlaps features min_overlap_area duplicate_threshold
      partial_threshold = Some rs ->
    forall r, r ∈ rs -> Phi r.
Proof.
  intros Hstep rs. unfold find_pairwise_overlaps.
  destruct features as [| item features'] eqn:Hf.
  { intros [= <-] r Hr. by apply elem_of_nil in Hr. }
  rewrite <- Hf in *. clear Hf item features'.
  destruct (overlap_scan features min_overlap_area duplicate_threshold
              partial_threshold) as [st |] eqn:Hscan; [| discriminate].
  intros [= <-]. revert Hscan. unfold overlap_scan.
  assert (HE : (collect_extents features).1.1 = extent_map features)
    by reflexivity.
  destruct (collect_extents features) as [[E tw] th]. simpl in HE. subst E.
  destruct (decide (size (extent_map features) = 0%nat)).
  { intros [= <-] r Hr. by apply elem_of_nil in Hr. }
  destruct (build_index (derived_cell_size (extent_map features) tw th) features)
    as [idx |]; [| discriminate].
  intros Hloop.
  apply (outer_loop_forall idx Phi (Hstep idx) features.*1 ∅ [] st Hloop).
  intros r Hr. by apply elem_of_nil in Hr.
Qed.

Lemma classify_overlap_label (r d p : Q) :
  classify_overlap r d p = "DUPLICATE"
  \/ classify_overlap r d p = "PARTIAL"
  \/ classify_overlap r d p = "SLIVER".
Proof.
  unfold classify_overlap.
  destruct (Py.le d r); [by left |]. destruct (Py.le p r); auto.
Qed.

End Provider.

(** X6. Every record that [find_pairwise_overlaps] emits has an overlap
    area that is strictly positive and not below [min_overlap_area]; its
    two ids differ; both features passed [validate_polygon_geometry]; their
    extents intersect; its geometry is their intersection; and its type is
    [classify_overlap] of its ratio, one of DUPLICATE, PARTIAL, SLIVER. *)
Theorem emitted_record_facts {G : Type} `{ArcGeometry G}
    (features : list (Z * option G))
    (min_overlap_area duplicate_threshold partial_threshold : Q) :
  exists rs,
    find_pairwise_overlaps features min_overlap_area duplicate_threshold
      partial_threshold = Some rs
    /\ forall r, r ∈ rs ->
         (0 < overlap_area r)%Q
         /\ (min_overlap_area <= overlap_area r)%Q
         /\ fid_a r <> fid_b r
         /\ overlap_type r
            = classify_overlap (overlap_ratio r) duplicate_threshold
                partial_threshold
         /\ (overlap_type r = "DUPLICATE" \/ overlap_type r = "PARTIAL"
             \/ overlap_type r = "SLIVER")
         /\ exists geom_a geom_b ea eb,
              Py.dict_get features (fid_a r) = Some geom_a
              /\ Py.dict_get features (fid_b r) = Some geom_b
              /\ Geometry.validate_polygon_geometry geom_a = true
              /\ Geometry.validate_polygon_geometry geom_b = true
              /\ extent_map features !! fid_a r = Some ea
              /\ extent_map features !! fid_b r = Some eb
              /\ extents_intersect ea eb = true
              /\ Geometry.get_intersection_geometry geom_a geom_b 4
                 = Some (overlap_geometry r).
Proof.
  destruct (find_pairwise_overlaps_spec features min_overlap_area
              duplicate_threshold partial_threshold) as (rs & Hrs & _).
  exists rs. split; [exact Hrs |].
  apply (find_pairwise_overlaps_forall features min_overlap_area
           duplicate_threshold partial_threshold _); [| exact Hrs].
  intros idx fa cands r Hq Hfa Hfb
    (ga & gb & ea & eb & Hga & Hgb & Hva & Hvb & Haa & Hab & Hea & Heb
     & Hint & Hi & Harea & Hmin & Hratio & Htype).
  split; [rewrite Harea; by apply (OverlapClaims.intersection_area_positive ga gb 4) |].
  split; [exact Hmin |].
  split; [rewrite Hfa; intros Heq; symmetry in Heq; revert Heq;
          by apply (OrderFacts.candidate_not_self idx fa (fid_b r) cands) |].
  split; [exact Htype |].
  split; [rewrite Htype; apply classify_overlap_label |].
  exists ga, gb, ea, eb. done.
Qed.

Section Few.
Context {G : Type} `{ArcGeometry G}.

Lemma few_usable_empty (features : list (Z * option G))
    (min_overlap_area duplicate_threshold partial_threshold : Q) :
  (forall a b, usable features (extent_map features) a ->
               usable features (extent_map features) b -> a = b) ->
  find_pairwise_overlaps features min_overlap_area duplicate_threshold
    partial_threshold = Some [].
Proof.
  intros Hfew.
  destruct (find_pairwise_overlaps_spec features min_overlap_area
              duplicate_threshold partial_threshold) as (rs & Hrs & _).
  rewrite Hrs. f_equal. destruct rs as [| r rs]; [reflexivity |]. exfalso.
  apply (find_pairwise_overlaps_forall features min_overlap_area
           duplicate_threshold partial_threshold (fun _ => False))
    with (rs := r :: rs) (r := r); [| exact Hrs | apply elem_of_cons; by left].
  intros idx fa cands r' Hq Hfa Hfb Hem.
  destruct (OrderFacts.emitted_usable _ _ _ _ _ r' Hem) as [Hua Hub].
  apply (OrderFacts.candidate_not_self idx fa (fid_b r') cands Hq Hfb).
  rewrite <- Hfa. symmetry. by apply Hfew.
Qed.

Lemma single_feature_empty (item : Z * option G)
    (min_overlap_area duplicate_threshold partial_threshold : Q) :
  find_pairwise_overlaps [item] min_overlap_area duplicate_threshold
    partial_threshold = Some [].
Proof.
  apply few_usable_empty.
  assert (Hone : forall a, usable [item] (extent_map [item]) a -> a = item.1).
  { intros a (geom & e & Hget & _). destruct item as [k v]. simpl in *.
    destruct (decide (k = a)); [done | discriminate]. }
  intros a b Ha Hb. rewrite (Hone a Ha), (Hone b Hb). reflexivity.
Qed.

End Few.

(** X7. When at most one id of the mapping is usable (a valid polygon of
    positive area with an extent), [find_pairwise_overlaps] returns the
    empty sequence: a feature is never paired with itself. *)
Theorem fewer_than_two_usable_no_overlap {G : Type} `{ArcGeometry G}
    (features : list (Z * option G))
    (min_overlap_area duplicate_threshold partial_threshold : Q) :
  (forall a b, usable features (extent_map features) a ->
               usable features (extent_map features) b -> a = b) ->
  find_pairwise_overlaps features min_overlap_area duplicate_threshold
    partial_threshold = Some [].
Proof. apply few_usable_empty. Qed.

Lemma fewer_than_two_usable_no_overlap_witness :
  find_pairwise_overlaps
    [(1%Z, Rect.box 0 0 1 1); (2%Z, None); (3%Z, Rect.box 0 0 0 1)]
    0 (9 # 10) (1 # 2) = Some [].
Proof.
  apply fewer_than_two_usable_no_overlap.
  assert (Hone : forall a,
             usable [(1%Z, Rect.box 0 0 1 1); (2%Z, None);
                     (3%Z, Rect.box 0 0 0 1)]
               (extent_map [(1%Z, Rect.box 0 0 1 1); (2%Z, None);
                            (3%Z, Rect.box 0 0 0 1)]) a -> a = 1%Z).
  { intros a (geom & e & Hget & Hv & _). simpl in Hget.
    repeat (destruct (decide _) in Hget; [try done |]); try discriminate.
    all: injection Hget as <-; vm_compute in Hv; discriminate. }
  intros a b Ha Hb. rewrite (Hone a Ha), (Hone b Hb). reflexivity.
Defined.

(** X8. [BuildingOverlapChecker._find_overlaps] and
    [find_pairwise_overlaps] are the same function of the mapping, the
    minimum area and the two thresholds: the guard [len(geometries) < 2] of
    the former only short-cuts a case in which the latter finds nothing. *)
Theorem find_overlaps_agree {G : Type} `{ArcGeometry G}
    (geometries : list (Z * option G))
    (min_area duplicate_ratio_min partial_ratio_min : Q) :
  BuildingOverlapChecker_find_overlaps duplicate_ratio_min partial_ratio_min
    geometries min_area
  = find_pairwise_overlaps geometries min_area duplicate_ratio_min
      partial_ratio_min.
Proof.
  unfold BuildingOverlapChecker_find_overlaps.
  destruct geometries as [| x [| y rest]]; simpl length; cbn [Nat.ltb Nat.leb].
  - reflexivity.
  - symmetry. apply single_feature_empty.
  - reflexivity.
Qed.

Section Stats.
Context {G : Type} `{ArcGeometry G}.

Lemma count_overlap_fields (st : Stats) (o : OverlapResult G) :
  duplicates (count_overlap st o)
  = (duplicates st
     + (if String.eqb (overlap_type o) "DUPLICATE" then 1 else 0))%Z
  /\ partials (count_overlap st o)
     = (partials st
        + (if String.eqb (overlap_type o) "DUPLICATE" then 0
           else if String.eqb (overlap_type o) "PARTIAL" then 1 else 0))%Z
  /\ slivers (count_overlap st o)
     = (slivers st
        + (if String.eqb (overlap_type o) "DUPLICATE" then 0
           else if String.eqb (overlap_type o) "PARTIAL" then 0 else 1))%Z
  /\ total_area (count_overlap st o) = (total_area st + overlap_area o)%Q.
Proof.
  unfold count_overlap.
  destruct (String.eqb (overlap_type o) "DUPLICATE");
    [| destruct (String.eqb (overlap_type o) "PARTIAL")];
    cbn [duplicates partials slivers total_area]; repeat split; lia.
Qed.

Lemma calculate_stats_gen (overlaps : list (OverlapResult G)) :
  forall st : Stats,
    let st' := foldl count_overlap st overlaps in
    duplicates st' = (duplicates st + count_type "DUPLICATE" overlaps)%Z
    /\ partials st' = (partials st + count_type "PARTIAL" overlaps)%Z
    /\ (duplicates st' + partials st' + slivers st'
        = duplicates st + partials st + slivers st
          + Z.of_nat (length overlaps))%Z
    /\ (total_area st' == total_area st + area_sum overlaps)%Q.
Proof.
  unfold count_type.
  induction overlaps as [| o overlaps IH]; intros st; cbn [foldl].
  - cbn. repeat split; try lia. lra.
  - destruct (IH (count_overlap st o)) as (H1 & H2 & H3 & H4).
    destruct (count_overlap_fields st o) as (F1 & F2 & F3 & F4).
    cbv zeta. rewrite F1 in H1, H3. rewrite F2 in H2, H3. rewrite F3 in H3.
    rewrite F4 in H4.
    cbn [List.filter area_sum foldr length].
    fold (area_sum overlaps).
    destruct (String.eqb (overlap_type o) "DUPLICATE") eqn:Ed.
    + apply String.eqb_eq in Ed. rewrite Ed in *.
      change (String.eqb "DUPLICATE" "PARTIAL") with false.
      cbn [length].
      repeat split; try lia. rewrite H4. lra.
    + destruct (String.eqb (overlap_type o) "PARTIAL") eqn:Ep; cbn [length].
      * repeat split; try lia. rewrite H4. lra.
      * repeat split; try lia. rewrite H4. lra.
Qed.

Lemma count_types_total (overlaps : list (OverlapResult G)) :
  (forall o, o ∈ overlaps ->
     overlap_type o = "DUPLICATE" \/ overlap_type o = "PARTIAL"
     \/ overlap_type o = "SLIVER") ->
  (count_type "DUPLICATE" overlaps + count_type "PARTIAL" overlaps
   + count_type "SLIVER" overlaps = Z.of_nat (length overlaps))%Z.
Proof.
  unfold count_type. induction overlaps as [| o overlaps IH]; intros Hl.
  - reflexivity.
  - assert (IH' := IH (fun o' Ho' => Hl o' (list_elem_of_further _ _ _ Ho'))).
    cbn [List.filter length].
    destruct (Hl o (list_elem_of_here _ _)) as [E | [E | E]]; rewrite E;
      cbn; lia.
Qed.

End Stats.

(** X10. [_calculate_stats] partitions the records: its three counters add
    up to the number of records, [duplicates] and [partials] count the
    records of those types, [slivers] counts every other record (exactly
    the SLIVER ones when every type is one of the three labels), and
    [total_area] is the sum of the overlap areas. *)
Theorem calculate_stats_partition {G : Type} `{ArcGeometry G}
    (overlaps : list (OverlapResult G)) :
  let stats := _calculate_stats overlaps in
  (duplicates stats + partials stats + slivers stats
   = Z.of_nat (length overlaps))%Z
  /\ duplicates stats = count_type "DUPLICATE" overlaps
  /\ partials stats = count_type "PARTIAL" overlaps
  /\ (total_area stats == area_sum overlaps)%Q
  /\ ((forall o, o ∈ overlaps ->
         overlap_type o = "DUPLICATE" \/ overlap_type o = "PARTIAL"
         \/ overlap_type o = "SLIVER") ->
      slivers stats = count_type "SLIVER" overlaps).
Proof.
  cbv zeta. unfold _calculate_stats.
  destruct (calculate_stats_gen overlaps (mkStats 0 0 0 0%Q))
    as (H1 & H2 & H3 & H4).
  cbn [duplicates partials slivers total_area] in H1, H2, H3, H4.
  split; [lia |]. split; [exact H1 |]. split; [exact H2 |].
  split; [rewrite H4; lra |].
  intros Hlabels. rewrite H1, H2 in H3.
  pose proof (count_types_total overlaps Hlabels) as Htot. lia.
Qed.

End ScanExtras.

(** ** Completeness of the pairwise overlap scan *)

Module ScanComplete.
Import SpatialOps IndexInv IndexFacts ScanInv ScanFacts OrderInv Samples.

Lemma pair_key_inj (a b c d : Z) :
  pair_key a b = pair_key c d -> (a = c /\ b = d) \/ (a = d /\ b = c).
Proof. unfold pair_key. intros [= Hmin Hmax]. lia. Qed.

Lemma keys_functional {V : Type} (d : list (Z * V)) (k : Z) (v1 v2 : V) :
  NoDup d.*1 -> (k, v1) ∈ d -> (k, v2) ∈ d -> v1 = v2.
Proof.
  induction d as [| [k' v'] d IH]; simpl; intros Hnd H1 H2;
    [by apply elem_of_nil in H1 |].
  apply NoDup_cons in Hnd as [Hfresh Hnd].
  apply elem_of_cons in H1 as [E1 | H1];
    apply elem_of_cons in H2 as [E2 | H2].
  - congruence.
  - injection E1 as -> ->. exfalso. apply Hfresh.
    apply list_elem_of_fmap. by exists (k', v2).
  - injection E2 as -> ->. exfalso. apply Hfresh.
    apply list_elem_of_fmap. by exists (k', v1).
  - by apply IH.
Qed.

Lemma dict_get_unique {V : Type} (d : list (Z * V)) (k : Z) (v : V) :
  NoDup d.*1 -> (k, v) ∈ d -> Py.dict_get d k = Some v.
Proof.
  intros Hnd Hin. destruct (PyFacts.dict_get_Some d k) as [v' Hv'].
  { apply list_elem_of_fmap. by exists (k, v). }
  rewrite Hv'. f_equal.
  apply (keys_functional d k v' v Hnd); [| exact Hin].
  by apply PyFacts.dict_get_elem.
Qed.

Section Provider.
Context {G : Type} `{ArcGeometry G}.

Lemma validate_polygon_area (geom : option G) :
  Geometry.validate_polygon_geometry geom = true ->
  (0 < Geometry.get_geometry_area geom)%Q.
Proof.
  unfold Geometry.validate_polygon_geometry.
  destruct (Geometry.is_geometry_null geom); [discriminate |].
  destruct geom as [g |]; [| discriminate].
  destruct (negb _); [discriminate |].
  destruct (Py.le (Geometry.get_geometry_area (Some g)) 0) eqn:E;
    [discriminate |].
  intros _. by apply PyFacts.le_false_iff in E.
Qed.

Lemma extent_map_dom (features : list (Z * option G)) (fid : Z) (e : Extent) :
  extent_map features !! fid = Some e ->
  exists geom, (fid, geom) ∈ features
               /\ Geometry.get_geometry_extent geom = Some e.
Proof.
  induction features as [| [f g] features IH] using rev_ind.
  - unfold extent_map, collect_extents. simpl. by rewrite lookup_empty.
  - rewrite extent_map_snoc.
    destruct (Geometry.get_geometry_extent g) as [eg |] eqn:Hg.
    + destruct (decide (f = fid)) as [-> | Hne].
      * rewrite lookup_insert_eq. intros [= <-]. exists g.
        split; [| exact Hg]. apply elem_of_app. right.
        apply elem_of_cons. by left.
      * rewrite lookup_insert_ne by done. intros Hl.
        destruct (IH Hl) as (geom & Hin & Hext). exists geom.
        split; [| exact Hext]. apply elem_of_app. by left.
    + intros Hl. destruct (IH Hl) as (geom & Hin & Hext). exists geom.
      split; [| exact Hext]. apply elem_of_app. by left.
Qed.

(** With distinct keys, the [extents] dictionary holds the extent of each
    feature that has one. *)
Lemma extent_map_lookup (features : list (Z * option G)) (fid : Z)
    (geom : option G) :
  NoDup features.*1 -> (fid, geom) ∈ features ->
  extent_map features !! fid = Geometry.get_geometry_extent geom.
Proof.
  induction features as [| [f g] features IH] using rev_ind.
  - intros _ Hin. by apply elem_of_nil in Hin.
  - rewrite fmap_app. simpl. intros Hnd Hin.
    apply NoDup_app in Hnd as (Hnd & Hfresh & _).
    assert (Hf : f ∉ features.*1).
    { intros Hf. apply (Hfresh f Hf). apply elem_of_cons. by left. }
    rewrite extent_map_snoc.
    apply elem_of_app in Hin as [Hin | Hin].
    + assert (Hne : f <> fid).
      { intros ->. apply Hf. apply list_elem_of_fmap. by exists (fid, geom). }
      destruct (Geometry.get_geometry_extent g);
        [rewrite lookup_insert_ne by done |]; by apply IH.
    + apply elem_of_cons in Hin as [[= -> ->] | Hin];
        [| by apply elem_of_nil in Hin].
      destruct (Geometry.get_geometry_extent g) as [eg |] eqn:Hg.
      * by rewrite lookup_insert_eq.
      * destruct (extent_map features !! f) as [e |] eqn:Hl; [| reflexivity].
        destruct (extent_map_dom features f e Hl) as (geom' & Hin' & _).
        exfalso. apply Hf. apply list_elem_of_fmap. by exists (f, geom').
Qed.

Variable features : list (Z * option G).
Variable extents : gmap Z Extent.
Variables min_overlap_area duplicate_threshold partial_threshold : Q.

Local Abbreviation inner :=
  (overlap_inner features extents min_overlap_area
     duplicate_threshold partial_threshold).
Local Abbreviation outer :=
  (overlap_outer features).

(** A candidate that passes every check and whose pair is not marked yet is
    reported. *)
Lemma overlap_inner_emits (fa fb : Z) (ga gb : option G) (ea eb : Extent)
    (i : G) (P : gset (Z * Z)) (R : list (OverlapResult G)) :
  (0 < Geometry.get_geometry_area ga)%Q ->
  Py.dict_get features fb = Some gb ->
  Geometry.validate_polygon_geometry gb = true ->
  extents !! fb = Some eb ->
  extents_intersect ea eb = true ->
  Geometry.get_intersection_geometry ga gb 4 = Some i ->
  (min_overlap_area <= Geometry.get_geometry_area (Some i))%Q ->
  pair_key fa fb ∉ P ->
  exists r,
    inner fa ga (Geometry.get_geometry_area ga) ea (P, R) fb
    = Some ({[pair_key fa fb]} ∪ P, R ++ [r])
    /\ fid_a r = fa /\ fid_b r = fb /\ overlap_geometry r = i.
Proof.
  intros Haa Hgb Hvb Heb Hint Hi Hmin Hfresh.
  pose proof (validate_polygon_area gb Hvb) as Hab.
  unfold overlap_inner. fold (pair_key fa fb).
  destruct (decide (pair_key fa fb ∈ P)) as [Hin | _]; [done |].
  rewrite Hgb, Hvb. cbn [negb].
  assert (Hle : Py.le (Geometry.get_geometry_area gb) 0 = false)
    by (by apply PyFacts.le_false_iff).
  rewrite Hle, Heb, Hint. cbn [negb]. rewrite Hi.
  assert (Hlt : Py.lt (Geometry.get_geometry_area (Some i)) min_overlap_area
                = false) by (by apply PyFacts.lt_false_iff).
  rewrite Hlt. eexists. split; [reflexivity |]. done.
Qed.

Lemma inner_loop_emits (fa fb : Z) (ga gb : option G) (ea eb : Extent)
    (i : G) (cands : list Z) :
  Py.dict_get features fa = Some ga ->
  Geometry.validate_polygon_geometry ga = true ->
  extents !! fa = Some ea ->
  Py.dict_get features fb = Some gb ->
  Geometry.validate_polygon_geometry gb = true ->
  extents !! fb = Some eb ->
  extents_intersect ea eb = true ->
  Geometry.get_intersection_geometry ga gb 4 = Some i ->
  (min_overlap_area <= Geometry.get_geometry_area (Some i))%Q ->
  fb ∈ cands ->
  forall P R st',
    pair_key fa fb ∉ P ->
    foldl_opt (inner fa ga (Geometry.get_geometry_area ga) ea) (P, R) cands
    = Some st' ->
    exists r, r ∈ st'.2 /\ fid_a r = fa /\ fid_b r = fb
              /\ overlap_geometry r = i.
Proof.
  intros Hga Hva Hea Hgb Hvb Heb Hint Hi Hmin.
  pose proof (validate_polygon_area ga Hva) as Haa.
  induction cands as [| c cands IH]; intros Hin P R st' Hfresh;
    [by apply elem_of_nil in Hin |].
  cbn [foldl_opt].
  destruct (decide (c = fb)) as [-> | Hne].
  - destruct (overlap_inner_emits fa fb ga gb ea eb i P R
                Haa Hgb Hvb Heb Hint Hi Hmin Hfresh)
      as (r & -> & Hra & Hrb & Hri).
    intros Hrest.
    destruct (inner_loop_spec features extents min_overlap_area
                duplicate_threshold partial_threshold fa ga ea cands
                Hga Hva Haa Hea _ _ st' Hrest) as (_ & Rnew & -> & _).
    exists r. split; [| done].
    apply elem_of_app. left. apply elem_of_app. right.
    apply elem_of_cons. by left.
  - destruct (inner fa ga (Geometry.get_geometry_area ga) ea (P, R) c)
      as [[P1 R1] |] eqn:Hstep; [| discriminate].
    intros Hrest.
    destruct (overlap_inner_shape features extents min_overlap_area
                duplicate_threshold partial_threshold fa ga _ ea P R c _ Hstep)
      as [HP1 _]. simpl in HP1.
    apply (IH ltac:(by apply elem_of_cons in Hin as [-> | Hin]) P1 R1 st');
      [| exact Hrest].
    rewrite HP1. intros Hk. apply elem_of_union in Hk as [Hk | Hk]; [| done].
    apply elem_of_singleton in Hk.
    apply pair_key_inj in Hk as [[_ ->] | [<- <-]]; done.
Qed.

(** The outer loop reports the pair when it reaches [fa] before [fb] and
    before the pair is marked. *)
Lemma outer_loop_emits (idx : SpatialIndex G) (fa fb : Z) (ga gb : option G)
    (ea eb : Extent) (i : G) (cands : list Z) (rest : list Z) :
  Py.dict_get features fa = Some ga ->
  Geometry.validate_polygon_geometry ga = true ->
  extents !! fa = Some ea ->
  Py.dict_get features fb = Some gb ->
  Geometry.validate_polygon_geometry gb = true ->
  extents !! fb = Some eb ->
  extents_intersect ea eb = true ->
  Geometry.get_intersection_geometry ga gb 4 = Some i ->
  (min_overlap_area <= Geometry.get_geometry_area (Some i))%Q ->
  query_candidates idx fa = Some cands -> fb ∈ cands ->
  forall before P R st',
    fa ∉ before -> fb ∉ before ->
    pair_key fa fb ∉ P ->
    foldl_opt (outer idx extents min_overlap_area duplicate_threshold
                 partial_threshold) (P, R) (before ++ fa :: rest)
    = Some st' ->
    exists r, r ∈ st'.2 /\ fid_a r = fa /\ fid_b r = fb
              /\ overlap_geometry r = i.
Proof.
  intros Hga Hva Hea Hgb Hvb Heb Hint Hi Hmin Hq Hcand.
  pose proof (validate_polygon_area ga Hva) as Haa.
  induction before as [| x before IH]; intros P R st' Hna Hnb Hfresh;
    cbn [app foldl_opt].
  - destruct (outer idx extents min_overlap_area duplicate_threshold
                partial_threshold (P, R) fa) as [[P1 R1] |] eqn:Hstep;
      [| discriminate].
    intros Hrest.
    assert (Hr1 : exists r, r ∈ R1 /\ fid_a r = fa /\ fid_b r = fb
                            /\ overlap_geometry r = i).
    { revert Hstep. unfold overlap_outer. rewrite Hga, Hva. cbn [negb].
      assert (Hle : Py.le (Geometry.get_geometry_area ga) 0 = false)
        by (by apply PyFacts.le_false_iff).
      rewrite Hle, Hea, Hq. intros Hloop.
      by apply (inner_loop_emits fa fb ga gb ea eb i cands
                  Hga Hva Hea Hgb Hvb Heb Hint Hi Hmin Hcand P R (P1, R1)). }
    destruct Hr1 as (r & Hr & Hfacts).
    destruct (outer_loop_spec features extents min_overlap_area
                duplicate_threshold partial_threshold idx rest P1 R1 st' Hrest)
      as (_ & Rnew & -> & _).
    exists r. split; [| exact Hfacts]. apply elem_of_app. by left.
  - destruct (outer idx extents min_overlap_area duplicate_threshold
                partial_threshold (P, R) x) as [[P1 R1] |] eqn:Hstep;
      [| discriminate].
    intros Hrest.
    apply (IH P1 R1 st'); [set_solver | set_solver | | exact Hrest].
    apply overlap_outer_spec in Hstep
      as [[_ [= -> ->]] | (_ & cx & _ & HP1 & _)]; [exact Hfresh |].
    simpl in HP1. rewrite HP1. intros Hk.
    apply elem_of_union in Hk as [Hk | Hk]; [| done].
    apply elem_of_list_to_set, list_elem_of_fmap in Hk as (c & Hk & _).
    apply pair_key_inj in Hk as [[-> _] | [_ ->]]; set_solver.
Qed.

End Provider.



End ScanComplete.

(** ** More on dangles and disconnected roads *)

Module DangleExtras.
Import RoadQC DangleSpec RoadInv RoadFacts RoadSpec.

Lemma all_endpoints_elem (ebr : list (Z * list Point)) (ep : Endpoint) :
  ep ∈ all_endpoints ebr
  <-> exists fid pts, (fid, pts) ∈ ebr /\ ep ∈ road_endpoints fid pts.
Proof.
  unfold all_endpoints. rewrite list_elem_of_In, in_flat_map. split.
  - intros ([fid pts] & Hin & Hep). exists fid, pts.
    split; [by apply list_elem_of_In |]. by apply list_elem_of_In.
  - intros (fid & pts & Hin & Hep). exists (fid, pts).
    split; [by apply list_elem_of_In |]. by apply list_elem_of_In.
Qed.

Lemma road_endpoints_elem (fid : Z) (pts : list Point) (ep : Endpoint) :
  ep ∈ road_endpoints fid pts
  <-> exists (i : nat) (p : Point),
        pts !! i = Some p /\ ep = (fid, p.1, p.2, Z.of_nat i).
Proof.
  unfold road_endpoints. rewrite list_elem_of_lookup. split.
  - intros (i & Hi). rewrite list_lookup_imap in Hi.
    destruct (pts !! i) as [p |] eqn:Hp; [| discriminate].
    injection Hi as <-. by exists i, p.
  - intros (i & p & Hp & ->). exists i. by rewrite list_lookup_imap, Hp.
Qed.

Lemma road_endpoints_fid (fid : Z) (pts : list Point) (ep : Endpoint) :
  ep ∈ road_endpoints fid pts -> ep_fid ep = fid.
Proof. rewrite road_endpoints_elem. by intros (i & p & _ & ->). Qed.

Lemma road_endpoints_length (fid : Z) (pts : list Point) :
  length (road_endpoints fid pts) = length pts.
Proof. unfold road_endpoints. by rewrite length_imap. Qed.

(** The scan never takes an endpoint for connected without an endpoint of
    another road within the squared tolerance, whatever the tolerance. *)
Lemma is_connected_sound (eps : list Endpoint)
    (g : gmap (Z * Z) (list HashEntry)) (cell tol_sq : Q) (ep : Endpoint) :
  hash_ok cell eps g ->
  is_connected g cell tol_sq ep = true ->
  exists o, o ∈ eps /\ ep_fid o <> ep_fid ep
            /\ within (ep_x ep) (ep_y ep) (ep_x o) (ep_y o) tol_sq = true.
Proof.
  intros Hok. destruct ep as [[[fid x] y] idx]. unfold is_connected.
  destruct (_grid_key x y cell) as [gx gy].
  rewrite scan_dx_true. unfold ep_fid, ep_x, ep_y. simpl.
  intros (dx & dy & _ & _ & e & He & Hf & Hw).
  apply Hok in He as [[i Hi] _].
  exists (e.1.1, e.1.2, e.2, i). split; [exact Hi |]. simpl. done.
Qed.

(** The predicate that [find_dangles] filters the flat endpoint list by. *)
Lemma find_dangles_filter (ebr : list (Z * list Point)) (tolerance : Q) :
  exists connected : Endpoint -> bool,
    find_dangles ebr tolerance
    = List.filter (fun ep => negb (connected ep)) (all_endpoints ebr)
    /\ forall ep, connected ep = true ->
                  has_neighbour (all_endpoints ebr) tolerance ep = true.
Proof.
  unfold find_dangles.
  destruct (flatten_roads_spec (Py.max tolerance eps_cell) ebr) as [Heps Hok].
  destruct (flatten_roads (Py.max tolerance eps_cell) ebr) as [all_eps grid].
  simpl in Heps, Hok. subst all_eps.
  exists (is_connected grid (Py.max tolerance eps_cell) (tolerance * tolerance)).
  split; [by rewrite foldl_keep_unless |].
  intros ep Hc. apply has_neighbour_true.
  by apply (is_connected_sound _ grid (Py.max tolerance eps_cell)).
Qed.

Lemma filter_length_le {A : Type} (p : A -> bool) (l : list A) :
  (length (List.filter p l) <= length l)%nat.
Proof. induction l as [| a l IH]; simpl; [lia |]. destruct (p a); simpl; lia. Qed.

Lemma filter_sublist {A : Type} (p : A -> bool) (l : list A) :
  sublist (List.filter p l) l.
Proof.
  induction l as [| a l IH]; cbn [List.filter]; [constructor |].
  destruct (p a); [by apply sublist_skip | by apply sublist_cons].
Qed.

Lemma filter_length_all {A : Type} (p : A -> bool) (l : list A) :
  (length l <= length (List.filter p l))%nat
  <-> forall a, a ∈ l -> p a = true.
Proof.
  induction l as [| a l IH]; simpl.
  - split; [intros _ a Ha; by apply elem_of_nil in Ha | lia].
  - pose proof (filter_length_le p l) as Hle.
    destruct (p a) eqn:Hp; simpl.
    + rewrite <- Nat.succ_le_mono, IH. split.
      * intros Hall x Hx. apply elem_of_cons in Hx as [-> | Hx]; auto.
      * intros Hall x Hx. apply Hall. apply elem_of_cons. by right.
    + split; [lia |]. intros Hall.
      rewrite (Hall a) in Hp; [discriminate | apply elem_of_cons; by left].
Qed.

Lemma filter_comm {A : Type} (p q : A -> bool) (l : list A) :
  List.filter p (List.filter q l) = List.filter q (List.filter p l).
Proof.
  induction l as [| a l IH]; simpl; [reflexivity |].
  destruct (p a) eqn:Hp, (q a) eqn:Hq; simpl; rewrite ?Hp, ?Hq, IH; reflexivity.
Qed.

Lemma filter_length_mono {A : Type} (p1 p2 q : A -> bool) (l : list A) :
  (forall a, p2 a = true -> p1 a = true) ->
  (length (List.filter q (List.filter p2 l))
   <= length (List.filter q (List.filter p1 l)))%nat.
Proof.
  intros Himp. induction l as [| a l IH]; simpl; [lia |].
  destruct (p2 a) eqn:H2.
  - rewrite (Himp a H2). simpl. destruct (q a); simpl; lia.
  - destruct (p1 a); simpl; [destruct (q a); simpl |]; lia.
Qed.

Lemma filter_all {A : Type} (p : A -> bool) (l : list A) :
  (forall a, a ∈ l -> p a = true) -> List.filter p l = l.
Proof.
  induction l as [| a l IH]; simpl; intros Hall; [reflexivity |].
  rewrite (Hall a) by (apply elem_of_cons; by left).
  f_equal. apply IH. intros x Hx. apply Hall. apply elem_of_cons. by right.
Qed.

Lemma filter_none {A : Type} (p : A -> bool) (l : list A) :
  (forall a, a ∈ l -> p a = false) -> List.filter p l = [].
Proof.
  induction l as [| a l IH]; simpl; intros Hall; [reflexivity |].
  rewrite (Hall a) by (apply elem_of_cons; by left).
  apply IH. intros x Hx. apply Hall. apply elem_of_cons. by right.
Qed.

(** With distinct road ids, the entries of [all_eps] that carry the id of a
    road are the endpoints of that road. *)
Lemma endpoints_of_road (ebr : list (Z * list Point)) (fid : Z)
    (pts : list Point) :
  NoDup ebr.*1 -> (fid, pts) ∈ ebr ->
  List.filter (fun ep => (ep_fid ep =? fid)%Z) (all_endpoints ebr)
  = road_endpoints fid pts.
Proof.
  unfold all_endpoints. fold road_endpoints.
  induction ebr as [| [f ps] ebr IH]; intros Hnd Hin;
    [by apply elem_of_nil in Hin |].
  simpl in Hnd. apply NoDup_cons in Hnd as [Hfresh Hnd].
  cbn [flat_map]. rewrite List.filter_app.
  change (imap (fun i (p : Point) => ((f, ps).1, p.1, p.2, Z.of_nat i)) (f, ps).2)
    with (road_endpoints f ps).
  apply elem_of_cons in Hin as [[= <- <-] | Hin].
  - rewrite filter_all.
    + rewrite filter_none; [by rewrite app_nil_r |].
      intros ep Hep. apply list_elem_of_In, in_flat_map in Hep
        as ([f' ps'] & Hin' & Hep).
      apply list_elem_of_In in Hin', Hep. simpl in Hep.
      apply (road_endpoints_fid f' ps') in Hep. rewrite Hep.
      apply Z.eqb_neq. intros ->. apply Hfresh.
      apply list_elem_of_fmap. by exists (fid, ps').
    + intros ep Hep. apply road_endpoints_fid in Hep. by apply Z.eqb_eq.
  - rewrite filter_none.
    + simpl. by apply IH.
    + intros ep Hep. apply road_endpoints_fid in Hep. rewrite Hep.
      apply Z.eqb_neq. intros ->. apply Hfresh.
      apply list_elem_of_fmap. by exists (fid, pts).
Qed.

Lemma tolerance_square_mono (t1 t2 : Q) :
  (0 <= t1)%Q -> (t1 <= t2)%Q -> (t1 * t1 <= t2 * t2)%Q.
Proof. intros H0 H12. nra. Qed.

Lemma has_neighbour_mono (eps : list Endpoint) (t1 t2 : Q) (ep : Endpoint) :
  (0 <= t1)%Q -> (t1 <= t2)%Q ->
  has_neighbour eps t1 ep = true -> has_neighbour eps t2 ep = true.
Proof.
  intros H0 H12. rewrite !has_neighbour_true.
  intros (o & Hin & Hf & Hw). exists o. split; [exact Hin |].
  split; [exact Hf |]. apply within_iff in Hw. apply within_iff.
  pose proof (tolerance_square_mono t1 t2 H0 H12). lra.
Qed.




(** X13.  With distinct road ids, a road never has more dangles than
    endpoints, so the test [dangle_count >= len(pts)] of
    [find_disconnected] holds exactly when every endpoint of the road is in
    the dangle list: the reported roads are those whose every endpoint is a
    dangle. *)
Theorem disconnected_iff_every_endpoint_dangles
    (endpoints_by_road : list (Z * list Point)) (tolerance : Q)
    (fid : Z) (pts : list Point) :
  NoDup endpoints_by_road.*1 ->
  (fid, pts) ∈ endpoints_by_road ->
  (dangles_of fid (find_dangles endpoints_by_road tolerance)
   <= Z.of_nat (length pts))%Z
  /\ (fid ∈ (find_disconnected endpoints_by_road tolerance).1
      <-> forall (i : nat) (p : Point),
            pts !! i = Some p ->
            (fid, p.1, p.2, Z.of_nat i)
              ∈ find_dangles endpoints_by_road tolerance).
Proof.
  intros Hnd Hin.
  destruct (find_dangles_filter endpoints_by_road tolerance)
    as (connected & Hfilter & _).
  assert (Hcount : dangles_of fid (find_dangles endpoints_by_road tolerance)
                   = Z.of_nat (length (List.filter
                                         (fun ep => negb (connected ep))
                                         (road_endpoints fid pts)))).
  { unfold dangles_of. rewrite Hfilter, filter_comm.
    by rewrite (endpoints_of_road endpoints_by_road fid pts Hnd Hin). }
  pose proof (filter_length_le (fun ep => negb (connected ep))
                (road_endpoints fid pts)) as Hle.
  rewrite road_endpoints_length in Hle.
  split; [lia |].
  rewrite find_disconnected_member. split.
  - intros (pts' & Hin' & Hge) i p Hp.
    assert (pts' = pts) as ->.
    { clear -Hnd Hin Hin'.
      induction endpoints_by_road as [| [f ps] ebr IH];
        [by apply elem_of_nil in Hin |].
      simpl in Hnd. apply NoDup_cons in Hnd as [Hfresh Hnd].
      apply elem_of_cons in Hin as [E1 | Hin];
        apply elem_of_cons in Hin' as [E2 | Hin'].
      - congruence.
      - injection E1 as -> ->. exfalso. apply Hfresh.
        apply list_elem_of_fmap. by exists (f, pts').
      - injection E2 as -> ->. exfalso. apply Hfresh.
        apply list_elem_of_fmap. by exists (f, pts).
      - by apply IH. }
    rewrite Hcount in Hge.
    assert (Hall : (length (road_endpoints fid pts)
                    <= length (List.filter (fun ep => negb (connected ep))
                                 (road_endpoints fid pts)))%nat)
      by (rewrite road_endpoints_length; lia).
    rewrite filter_length_all in Hall.
    rewrite Hfilter. apply list_elem_of_In, filter_In. split.
    + apply list_elem_of_In, all_endpoints_elem. exists fid, pts.
      split; [exact Hin |]. apply road_endpoints_elem. by exists i, p.
    + apply Hall. apply road_endpoints_elem. by exists i, p.
  - intros Hall. exists pts. split; [exact Hin |]. rewrite Hcount.
    assert (Hlen : (length (road_endpoints fid pts)
                    <= length (List.filter (fun ep => negb (connected ep))
                                 (road_endpoints fid pts)))%nat).
    { apply filter_length_all. intros ep Hep.
      apply road_endpoints_elem in Hep as (i & p & Hp & ->).
      specialize (Hall i p Hp). rewrite Hfilter in Hall.
      by apply list_elem_of_In, filter_In in Hall as [_ Hk]. }
    rewrite road_endpoints_length in Hlen. lia.
Qed.

Lemma disconnected_iff_every_endpoint_dangles_witness :
  2%Z ∈ (find_disconnected
           [(1%Z, [(0, 0); (1, 0)]%Q); (2%Z, [(2, 0); (3, 0)]%Q)] (1 # 2)).1.
Proof.
  destruct (disconnected_iff_every_endpoint_dangles
              [(1%Z, [(0, 0); (1, 0)]%Q); (2%Z, [(2, 0); (3, 0)]%Q)] (1 # 2)
              2 [(2, 0); (3, 0)]%Q) as [_ Hiff].
  - simpl. repeat constructor; set_solver.
  - set_solver.
  - apply Hiff. intros i p Hp.
    destruct i as [| [| i]]; simpl in Hp; [| | discriminate];
      injection Hp as <-; vm_compute; repeat constructor.
Defined.

End DangleExtras.

(** ** More on the self-intersection sweep *)

Module SweepExtras.
Import RoadQC SegmentSpec SegmentFacts ChainSpec.

(** *** The crossing test as one formula *)

Lemma segments_cross_formula (p1 q1 p2 q2 : Point) :
  let d1 := _cross2d p2.1 p2.2 q2.1 q2.2 p1.1 p1.2 in
  let d2 := _cross2d p2.1 p2.2 q2.1 q2.2 q1.1 q1.2 in
  let d3 := _cross2d p1.1 p1.2 q1.1 q1.2 p2.1 p2.2 in
  let d4 := _cross2d p1.1 p1.2 q1.1 q1.2 q2.1 q2.2 in
  _segments_cross p1 q1 p2 q2
  = ((((Py.lt 0 d1 && Py.lt d2 0) || (Py.lt d1 0 && Py.lt 0 d2))
      && ((Py.lt 0 d3 && Py.lt d4 0) || (Py.lt d3 0 && Py.lt 0 d4)))
     || (Py.eq d1 0 && _on_segment p2.1 p2.2 p1.1 p1.2 q2.1 q2.2)
     || (Py.eq d2 0 && _on_segment p2.1 p2.2 q1.1 q1.2 q2.1 q2.2)
     || (Py.eq d3 0 && _on_segment p1.1 p1.2 p2.1 p2.2 q1.1 q1.2)
     || (Py.eq d4 0 && _on_segment p1.1 p1.2 q2.1 q2.2 q1.1 q1.2))%bool.
Proof.
  cbv zeta. unfold _segments_cross.
  repeat match goal with
         | |- context [if ?b then true else _] => destruct b
         end; reflexivity.
Qed.

(** X14.  The crossing test does not depend on the order in which the two
    segments are passed. *)
Theorem segments_cross_symmetric (p1 q1 p2 q2 : Point) :
  _segments_cross p1 q1 p2 q2 = _segments_cross p2 q2 p1 q1.
Proof.
  rewrite (segments_cross_formula p1 q1 p2 q2).
  rewrite (segments_cross_formula p2 q2 p1 q1).
  cbv zeta.
  set (d1 := _cross2d p2.1 p2.2 q2.1 q2.2 p1.1 p1.2).
  set (d2 := _cross2d p2.1 p2.2 q2.1 q2.2 q1.1 q1.2).
  set (d3 := _cross2d p1.1 p1.2 q1.1 q1.2 p2.1 p2.2).
  set (d4 := _cross2d p1.1 p1.2 q1.1 q1.2 q2.1 q2.2).
  set (A := ((Py.lt 0 d1 && Py.lt d2 0) || (Py.lt d1 0 && Py.lt 0 d2))%bool).
  set (B := ((Py.lt 0 d3 && Py.lt d4 0) || (Py.lt d3 0 && Py.lt 0 d4))%bool).
  set (c1 := (Py.eq d1 0 && _)%bool). set (c2 := (Py.eq d2 0 && _)%bool).
  set (c3 := (Py.eq d3 0 && _)%bool). set (c4 := (Py.eq d4 0 && _)%bool).
  destruct A, B, c1, c2, c3, c4; reflexivity.
Qed.

(** *** One entry per road *)

Lemma reported_ids_gen (vbr : list (Z * list (list Point))) :
  forall results,
    exists new,
      foldl (fun results (item : Z * list (list Point)) =>
               match scan_parts item.2 with
               | Some pt => results ++ [(item.1, pt.1, pt.2)]
               | None => results
               end) results vbr
      = results ++ new
      /\ sublist (reported_ids new) vbr.*1.
Proof.
  induction vbr as [| [fid parts] vbr IH]; intros results; simpl.
  - exists []. by rewrite app_nil_r.
  - destruct (scan_parts parts) as [pt |].
    + destruct (IH (results ++ [(fid, pt.1, pt.2)])) as (new & -> & Hsub).
      exists ((fid, pt.1, pt.2) :: new). split; [by rewrite <- app_assoc |].
      simpl. by apply sublist_skip.
    + destruct (IH results) as (new & -> & Hsub).
      exists new. split; [reflexivity |]. by apply sublist_cons.
Qed.

(** X17.  [find_self_intersections] reports each item of the mapping at
    most once and in the order of the mapping: the ids of its entries are a
    sub-list of the keys.  With distinct keys no road id is reported
    twice. *)
Theorem one_entry_per_road (vertices_by_road : list (Z * list (list Point))) :
  sublist (reported_ids (find_self_intersections vertices_by_road))
          vertices_by_road.*1
  /\ (length (find_self_intersections vertices_by_road)
      <= length vertices_by_road)%nat
  /\ (NoDup vertices_by_road.*1 ->
      NoDup (reported_ids (find_self_intersections vertices_by_road))).
Proof.
  unfold find_self_intersections.
  destruct (reported_ids_gen vertices_by_road []) as (new & -> & Hsub).
  simpl. split; [exact Hsub |]. split.
  - apply sublist_length in Hsub. unfold reported_ids in Hsub.
    by rewrite !length_fmap in Hsub.
  - intros Hnd. by eapply sublist_NoDup.
Qed.

End SweepExtras.

(** ** Building-road conflicts *)

Module ConflictFacts.
Import SpatialOps IndexInv IndexFacts PyDict RoadConflict.

(** *** Dictionary assignment *)

Lemma dict_set_keys {V : Type} (d : list (Z * V)) (k : Z) (v : V) :
  (dict_set d k v).*1 = if decide (k ∈ d.*1) then d.*1 else d.*1 ++ [k].
Proof.
  induction d as [| [k' v'] d IH].
  - destruct (decide (k ∈ ([] : list (Z * V)).*1)) as [Hin | _];
      [by apply elem_of_nil in Hin | reflexivity].
  - cbn [dict_set]. destruct (decide (k' = k)) as [-> | Hne].
    + rewrite !fmap_cons. cbn [fst].
      destruct (decide (k ∈ k :: d.*1)) as [_ | Hn]; [done |].
      exfalso. apply Hn. apply elem_of_cons. by left.
    + rewrite !fmap_cons. cbn [fst]. rewrite IH.
      destruct (decide (k ∈ d.*1)) as [Hin | Hnin];
        destruct (decide (k ∈ k' :: d.*1)) as [Hin' | Hn]; try done.
      * exfalso. apply Hn. apply elem_of_cons. by right.
      * apply elem_of_cons in Hin' as [-> | Hin']; done.
Qed.

Lemma dict_set_NoDup {V : Type} (d : list (Z * V)) (k : Z) (v : V) :
  NoDup d.*1 -> NoDup (dict_set d k v).*1.
Proof.
  intros Hnd. rewrite dict_set_keys. destruct (decide (k ∈ d.*1)); [done |].
  apply NoDup_app. split; [exact Hnd |]. split; [| apply NoDup_singleton].
  intros x Hx Hk. apply list_elem_of_singleton in Hk. by subst.
Qed.

Lemma dict_set_elem {V : Type} (d : list (Z * V)) (k : Z) (v : V) k' v' :
  NoDup d.*1 ->
  (k', v') ∈ dict_set d k v ->
  (k' = k /\ v' = v) \/ (k' <> k /\ (k', v') ∈ d).
Proof.
  induction d as [| [k0 v0] d IH]; simpl; intros Hnd.
  - intros Hin. apply list_elem_of_singleton in Hin. injection Hin as -> ->.
    by left.
  - apply NoDup_cons in Hnd as [Hfresh Hnd].
    destruct (decide (k0 = k)) as [-> | Hne].
    + intros Hin. apply elem_of_cons in Hin as [E | Hin];
        [injection E as -> ->; by left |].
      right. split; [| apply elem_of_cons; by right].
      intros ->. apply Hfresh. apply list_elem_of_fmap. by exists (k, v').
    + intros Hin. apply elem_of_cons in Hin as [E | Hin].
      * injection E as -> ->. right. split; [exact Hne |].
        apply elem_of_cons. by left.
      * destruct (IH Hnd Hin) as [Hl | [Hr1 Hr2]]; [by left |].
        right. split; [exact Hr1 |]. apply elem_of_cons. by right.
Qed.

Lemma dict_set_here {V : Type} (d : list (Z * V)) (k : Z) (v : V) :
  (k, v) ∈ dict_set d k v.
Proof.
  induction d as [| [k0 v0] d IH]; simpl.
  - apply elem_of_cons. by left.
  - destruct (decide (k0 = k)); apply elem_of_cons; [by left | by right].
Qed.

Lemma dict_set_other {V : Type} (d : list (Z * V)) (k : Z) (v : V) k' v' :
  k' <> k -> (k', v') ∈ d -> (k', v') ∈ dict_set d k v.
Proof.
  intros Hne. induction d as [| [k0 v0] d IH]; simpl; intros Hin;
    [by apply elem_of_nil in Hin |].
  apply elem_of_cons in Hin as [E | Hin].
  - injection E as <- <-. destruct (decide (k' = k)); [done |].
    apply elem_of_cons. by left.
  - destruct (decide (k0 = k)); apply elem_of_cons; right; auto.
Qed.

Section Provider.
Context {G : Type} `{ArcGeometry G}.

(** *** The building index *)

(** The extents dictionary after storing again the extent of every
    feature of [l]. *)
Local Abbreviation store_extents :=
  (foldl (fun (E : gmap Z Extent) (item : Z * option G) =>
            match Geometry.get_geometry_extent item.2 with
            | Some e => <[item.1 := e]> E
            | None => E
            end)).

Lemma collect_extents_gen (l : list (Z * option G)) :
  forall E (tw th : Q),
    (foldl (fun acc (item : Z * option G) =>
              let '(extents, total_width, total_height) := acc in
              match Geometry.get_geometry_extent item.2 with
              | Some extent =>
                  (<[item.1 := extent]> extents,
                   total_width + (e_xmax extent - e_xmin extent),
                   total_height + (e_ymax extent - e_ymin extent))%Q
              | None => acc
              end) (E, tw, th) l).1.1
    = store_extents E l.
Proof.
  induction l as [| [k g] l IH]; intros E tw th; simpl; [reflexivity |].
  destruct (Geometry.get_geometry_extent g); apply IH.
Qed.

Lemma extent_map_store (l : list (Z * option G)) :
  extent_map l = store_extents ∅ l.
Proof. unfold extent_map, collect_extents. apply collect_extents_gen. Qed.

Lemma store_extents_union (l : list (Z * option G)) :
  forall E, store_extents E l = store_extents ∅ l ∪ E.
Proof.
  induction l as [| [k g] l IH]; intros E; simpl.
  - by rewrite (left_id_L ∅ (∪)).
  - destruct (Geometry.get_geometry_extent g) as [e |]; [| apply IH].
    rewrite (IH (<[k := e]> E)), (IH (<[k := e]> ∅)).
    rewrite <- (assoc_L (∪)). f_equal.
    rewrite insert_union_singleton_l.
    by rewrite insert_empty.
Qed.

Lemma store_extents_again (l : list (Z * option G)) :
  store_extents (extent_map l) l = extent_map l.
Proof.
  rewrite store_extents_union, <- extent_map_store.
  apply (idemp_L (∪)).
Qed.

Lemma index_buildings_gen (l : list (Z * option G)) :
  forall (E : gmap Z Extent) (idx0 : SpatialIndex G),
    foldl_opt (fun st (item : Z * option G) =>
                 match Geometry.get_geometry_extent item.2 with
                 | Some extent =>
                     match insert st.2 item.1 item.2 with
                     | Some building_index =>
                         Some (<[item.1 := extent]> st.1, building_index)
                     | None => None
                     end
                 | None => Some st
                 end) (E, idx0) l
    = match foldl_opt (fun sindex (item : Z * option G) =>
                         insert sindex item.1 item.2) idx0 l with
      | Some idx => Some (store_extents E l, idx)
      | None => None
      end.
Proof.
  induction l as [| [k g] l IH]; intros E idx0; cbn [foldl_opt foldl];
    [reflexivity |].
  cbn [fst snd].
  destruct (Geometry.get_geometry_extent g) as [e |] eqn:He.
  - destruct (insert idx0 k g) as [idx1 |]; [apply IH | reflexivity].
  - rewrite (IndexExtras.insert_unchanged idx0 k g He). apply IH.
Qed.

(** The second loop leaves the extents as the first loop built them and
    builds the index of [build_index]. *)
Lemma index_buildings_spec (cs : Q) (buildings : list (Z * option G)) :
  index_buildings cs (extent_map buildings) buildings
  = match build_index cs buildings with
    | Some idx => Some (extent_map buildings, idx)
    | None => None
    end.
Proof.
  unfold index_buildings, build_index. rewrite index_buildings_gen.
  by rewrite store_extents_again.
Qed.

Lemma conflict_cell_size_positive (E : gmap Z Extent) (tw th d : Q) :
  (0 < conflict_cell_size E tw th d)%Q.
Proof.
  unfold conflict_cell_size.
  match goal with |- context [Py.max ?a 10] =>
    destruct (PyFacts.max_spec a 10) as [[Hlt Ea] | [Hle Ea]]; rewrite Ea end;
    match goal with |- (0 < Py.max ?a ?b)%Q =>
      destruct (PyFacts.max_spec a b) as [[Hlt' ->] | [Hle' ->]] end; lra.
Qed.

(** *** The buffered roads *)

Variable roads : list (Z * option G).
Variable buffer_distance : Q.

Local Abbreviation buffer_step :=
  (fun (st : list (Z * G) * gmap Z Extent) (item : Z * option G) =>
     if negb (Geometry.validate_line_geometry item.2) then st
     else match Geometry.buffer_geometry item.2 buffer_distance with
          | None => st
          | Some buffered =>
              match Geometry.get_geometry_extent (Some buffered) with
              | None => st
              | Some bext =>
                  (dict_set st.1 item.1 buffered, <[item.1 := bext]> st.2)
              end
          end).

Lemma buffered_ok_weaken prefix st x :
  buffered_ok buffer_distance prefix st -> buffered_ok buffer_distance (prefix ++ [x]) st.
Proof.
  intros [Hnd Hall]. split; [exact Hnd |]. intros k v Hin.
  destruct (Hall k v Hin) as (rg & bext & Hp & Hb & Hl).
  exists rg, bext. split; [apply elem_of_app; by left | done].
Qed.

Lemma buffered_ok_step prefix st (item : Z * option G) :
  buffered_ok buffer_distance prefix st -> buffered_ok buffer_distance (prefix ++ [item]) (buffer_step st item).
Proof.
  intros Hok. pose proof (buffered_ok_weaken prefix st item Hok) as Hweak.
  destruct item as [k rg]. cbn [fst snd].
  destruct (Geometry.validate_line_geometry rg) eqn:Hv; cbn [negb];
    [| exact Hweak].
  destruct (Geometry.buffer_geometry rg buffer_distance) as [buffered |] eqn:Hb;
    [| exact Hweak].
  destruct (Geometry.get_geometry_extent (Some buffered)) as [bext |] eqn:He;
    [| exact Hweak].
  destruct Hweak as [Hnd Hall]. split; cbn [fst snd].
  - by apply dict_set_NoDup.
  - intros k' v' Hin. apply (dict_set_elem _ _ _ _ _ Hnd) in Hin
      as [[-> ->] | [Hne Hin]].
    + exists rg, bext. split; [apply elem_of_app; right; apply elem_of_cons; by left |].
      split; [done |]. by rewrite lookup_insert_eq.
    + destruct (Hall k' v' Hin) as (rg' & bext' & Hp & Hbuf & Hl).
      exists rg', bext'. split; [exact Hp |]. split; [exact Hbuf |].
      by rewrite lookup_insert_ne.
Qed.

Lemma buffer_roads_ok :
  buffered_ok buffer_distance roads (buffer_roads roads buffer_distance).
Proof.
  unfold buffer_roads.
  induction roads as [| item l IH] using rev_ind.
  - split; [constructor |]. intros k v Hin. by apply elem_of_nil in Hin.
  - rewrite foldl_app. cbn [foldl]. by apply buffered_ok_step.
Qed.

(** With distinct road ids, every road that can be buffered is in the
    dictionary. *)
Lemma buffer_roads_complete (k : Z) (rg : option G) (buffered : G)
    (bext : Extent) :
  NoDup roads.*1 -> (k, rg) ∈ roads -> bufferable buffer_distance rg buffered bext ->
  (k, buffered) ∈ (buffer_roads roads buffer_distance).1.
Proof.
  unfold buffer_roads.
  induction roads as [| [k' rg'] l IH] using rev_ind;
    intros Hnd Hin (Hv & Hb & He); [by apply elem_of_nil in Hin |].
  rewrite fmap_app in Hnd. apply NoDup_app in Hnd as (Hnd & Hfresh & _).
  rewrite foldl_app. cbn [foldl fst snd].
  apply elem_of_app in Hin as [Hin | Hin].
  - assert (Hne : k <> k').
    { intros ->. apply (Hfresh k'); [| apply elem_of_cons; by left].
      apply list_elem_of_fmap. by exists (k', rg). }
    specialize (IH Hnd Hin (conj Hv (conj Hb He))).
    destruct (negb _); [exact IH |].
    destruct (Geometry.buffer_geometry rg' buffer_distance); [| exact IH].
    destruct (Geometry.get_geometry_extent (Some g)); [| exact IH].
    cbn [fst]. by apply dict_set_other.
  - apply list_elem_of_singleton in Hin. injection Hin as <- <-.
    rewrite Hv, Hb, He. cbn [negb fst]. apply dict_set_here.
Qed.

(** *** The candidate loop *)

Lemma keys_of_buildings (new : list (ConflictResult G)) :
  NoDup (building_fid <$> new) -> NoDup (conflict_key <$> new).
Proof.
  induction new as [| r new IH]; [constructor |].
  rewrite !fmap_cons. intros Hnd. apply NoDup_cons in Hnd as [Hf Hn].
  apply NoDup_cons. split; [| by apply IH].
  intros Hdup. apply list_elem_of_fmap in Hdup as (r' & Heq & Hr').
  apply Hf. apply list_elem_of_fmap. exists r'. split; [| exact Hr'].
  unfold conflict_key in Heq. congruence.
Qed.

Variable buildings : list (Z * option G).
Variable min_area : Q.

Local Abbreviation inner :=
  (conflict_inner buildings (extent_map buildings) min_area buffer_distance).
Local Abbreviation record_ok :=
  (conflict_ok buildings roads buffer_distance min_area).

Lemma conflict_inner_spec (rf : Z) (rg : option G) (buffered : G)
    (bext : Extent) (results : list (ConflictResult G)) (b : Z) :
  (rf, rg) ∈ roads -> bufferable buffer_distance rg buffered bext ->
  inner rf buffered bext results b = results
  \/ exists r, inner rf buffered bext results b = results ++ [r]
               /\ building_fid r = b /\ road_fid r = rf /\ record_ok r.
Proof.
  intros Hrg (Hv & Hb & He). unfold conflict_inner.
  destruct (Py.dict_get buildings b) as [[bg |] |] eqn:Hbg; [| by left ..].
  destruct (Geometry.validate_polygon_geometry (Some bg)) eqn:Hvb; cbn [negb];
    [| by left].
  destruct (extent_map buildings !! b) as [be |] eqn:Hbe; [| by left].
  destruct (extents_intersect bext be) eqn:Hint; cbn [negb]; [| by left].
  destruct (Geometry.get_intersection_geometry (Some bg) (Some buffered) 4)
    as [i |] eqn:Hi; [| by left].
  destruct (Py.lt (Geometry.get_geometry_area (Some i)) min_area) eqn:Hmin;
    [by left |].
  apply PyFacts.lt_false_iff in Hmin.
  right. eexists. split; [reflexivity |]. cbn.
  split; [reflexivity |]. split; [reflexivity |].
  exists bg, rg, buffered, be, bext. cbn. repeat split; try done.
  by apply (OverlapClaims.intersection_area_positive (Some bg) (Some buffered) 4).
Qed.

Lemma conflict_inner_emits (rf : Z) (buffered : G) (bext : Extent)
    (results : list (ConflictResult G)) (b : Z) (bg i : G) (be : Extent) :
  Py.dict_get buildings b = Some (Some bg) ->
  Geometry.validate_polygon_geometry (Some bg) = true ->
  extent_map buildings !! b = Some be ->
  extents_intersect bext be = true ->
  Geometry.get_intersection_geometry (Some bg) (Some buffered) 4 = Some i ->
  (min_area <= Geometry.get_geometry_area (Some i))%Q ->
  inner rf buffered bext results b
  = results ++ [mkConflictResult b rf i (Geometry.get_geometry_area (Some i))
                  buffer_distance].
Proof.
  intros Hbg Hvb Hbe Hint Hi Hmin. unfold conflict_inner.
  rewrite Hbg, Hvb, Hbe, Hint, Hi. cbn [negb].
  assert (Hlt : Py.lt (Geometry.get_geometry_area (Some i)) min_area = false)
    by (by apply PyFacts.lt_false_iff).
  by rewrite Hlt.
Qed.

Lemma conflict_inner_loop (rf : Z) (rg : option G) (buffered : G)
    (bext : Extent) (cands : list Z) :
  (rf, rg) ∈ roads -> bufferable buffer_distance rg buffered bext ->
  NoDup cands ->
  forall results,
    exists new,
      foldl (inner rf buffered bext) results cands = results ++ new
      /\ NoDup (building_fid <$> new)
      /\ forall r, r ∈ new ->
                   building_fid r ∈ cands /\ road_fid r = rf /\ record_ok r.
Proof.
  intros Hrg Hbuf.
  induction cands as [| b cands IH]; intros Hnd results; cbn [foldl].
  - exists []. rewrite app_nil_r. split; [reflexivity |].
    split; [constructor |]. intros r Hr. by apply elem_of_nil in Hr.
  - apply NoDup_cons in Hnd as [Hfresh Hnd].
    destruct (conflict_inner_spec rf rg buffered bext results b Hrg Hbuf)
      as [-> | (r & -> & Hrb & Hrr & Hok)].
    + destruct (IH Hnd results) as (new & -> & Hnew & Hall).
      exists new. split; [reflexivity |]. split; [exact Hnew |].
      intros r Hr. destruct (Hall r Hr) as (Hc & Hf & Hok).
      split; [apply elem_of_cons; by right | done].
    + destruct (IH Hnd (results ++ [r])) as (new & -> & Hnew & Hall).
      exists (r :: new). split; [by rewrite <- app_assoc |]. split.
      * rewrite fmap_cons. apply NoDup_cons. split; [| exact Hnew].
        intros Hdup. apply list_elem_of_fmap in Hdup as (r' & Heq & Hr').
        destruct (Hall r' Hr') as (Hc & _). apply Hfresh. congruence.
      * intros r' Hr'. apply elem_of_cons in Hr' as [-> | Hr'].
        -- split; [rewrite Hrb; apply elem_of_cons; by left | done].
        -- destruct (Hall r' Hr') as (Hc & Hf & Hok').
           split; [apply elem_of_cons; by right | done].
Qed.

Lemma conflict_inner_loop_emits (rf : Z) (rg : option G) (buffered : G)
    (bext : Extent) (cands : list Z) (b : Z) (bg i : G) (be : Extent) :
  (rf, rg) ∈ roads -> bufferable buffer_distance rg buffered bext ->
  NoDup cands ->
  Py.dict_get buildings b = Some (Some bg) ->
  Geometry.validate_polygon_geometry (Some bg) = true ->
  extent_map buildings !! b = Some be ->
  extents_intersect bext be = true ->
  Geometry.get_intersection_geometry (Some bg) (Some buffered) 4 = Some i ->
  (min_area <= Geometry.get_geometry_area (Some i))%Q ->
  b ∈ cands ->
  forall results,
    mkConflictResult b rf i (Geometry.get_geometry_area (Some i))
      buffer_distance
    ∈ foldl (inner rf buffered bext) results cands.
Proof.
  intros Hrg Hbuf Hnd Hbg Hvb Hbe Hint Hi Hmin.
  induction cands as [| c cands IH]; intros Hin results;
    [by apply elem_of_nil in Hin |].
  apply NoDup_cons in Hnd as [Hfresh Hnd]. cbn [foldl].
  apply elem_of_cons in Hin as [<- | Hin].
  - rewrite (conflict_inner_emits rf buffered bext results b bg i be)
      by done.
    destruct (conflict_inner_loop rf rg buffered bext cands Hrg Hbuf Hnd
                (results ++ [mkConflictResult b rf i
                               (Geometry.get_geometry_area (Some i))
                               buffer_distance]))
      as (new & -> & _).
    apply elem_of_app. left. apply elem_of_app. right.
    apply elem_of_cons. by left.
  - by apply IH.
Qed.

(** *** The loop over the buffered roads *)

Variable idx : SpatialIndex G.
Variable buffered_extents : gmap Z Extent.

Local Abbreviation outer :=
  (conflict_outer buildings (extent_map buildings) idx buffered_extents
     min_area buffer_distance).

Local Abbreviation items_ok :=
  (RoadConflict.items_ok roads buffer_distance buffered_extents).

Lemma conflict_outer_loop (items : list (Z * G)) :
  Py.eq (cell_size idx) 0 = false ->
  items_ok items ->
  forall results,
    exists new,
      foldl_opt outer results items = Some (results ++ new)
      /\ (NoDup items.*1 -> NoDup (conflict_key <$> new))
      /\ forall r, r ∈ new -> road_fid r ∈ items.*1 /\ record_ok r.
Proof.
  intros Hcs.
  induction items as [| [k v] items IH]; intros Hok results; cbn [foldl_opt].
  - exists []. rewrite app_nil_r. split; [reflexivity |].
    split; [constructor |]. intros r Hr. by apply elem_of_nil in Hr.
  - destruct (Hok k v) as (rg & bext & Hrg & Hbuf & Hl);
      [apply elem_of_cons; by left |].
    unfold conflict_outer at 1. cbn [fst snd]. rewrite Hl.
    destruct (IndexExtras.query_by_extent_total idx bext Hcs) as [cands Hq].
    rewrite Hq.
    pose proof (IndexExtras.query_by_extent_NoDup idx bext cands Hq) as Hndc.
    destruct (conflict_inner_loop k rg v bext cands Hrg Hbuf Hndc results)
      as (new1 & -> & Hnd1 & Hall1).
    destruct (IH (fun k' v' Hin => Hok k' v' (list_elem_of_further _ _ _ Hin))
                 (results ++ new1)) as (new2 & -> & Hnd2 & Hall2).
    exists (new1 ++ new2). split; [by rewrite <- app_assoc |]. split.
    + rewrite fmap_cons. cbn [fst]. intros Hnd.
      apply NoDup_cons in Hnd as [Hfresh Hnd].
      rewrite fmap_app. apply NoDup_app. split; [| split; [| by apply Hnd2]].
      * by apply keys_of_buildings.
      * intros key H1 H2.
        apply list_elem_of_fmap in H1 as (r1 & -> & Hr1).
        apply list_elem_of_fmap in H2 as (r2 & Heq & Hr2).
        destruct (Hall1 r1 Hr1) as (_ & Hf1 & _).
        destruct (Hall2 r2 Hr2) as (Hf2 & _).
        apply Hfresh. unfold conflict_key in Heq. injection Heq as _ Heq.
        by rewrite <- Hf1, Heq.
    + intros r Hr. rewrite fmap_cons. cbn [fst].
      apply elem_of_app in Hr as [Hr | Hr].
      * destruct (Hall1 r Hr) as (_ & Hf & Hokr).
        split; [rewrite Hf; apply elem_of_cons; by left | exact Hokr].
      * destruct (Hall2 r Hr) as (Hf & Hokr).
        split; [apply elem_of_cons; by right | exact Hokr].
Qed.

Lemma conflict_outer_loop_emits (items : list (Z * G)) (rf : Z)
    (buffered : G) (bext : Extent) (b : Z) (bg i : G) (be : Extent)
    (cands : list Z) :
  Py.eq (cell_size idx) 0 = false ->
  items_ok items ->
  (rf, buffered) ∈ items ->
  buffered_extents !! rf = Some bext ->
  query_by_extent idx bext = Some cands -> b ∈ cands ->
  Py.dict_get buildings b = Some (Some bg) ->
  Geometry.validate_polygon_geometry (Some bg) = true ->
  extent_map buildings !! b = Some be ->
  extents_intersect bext be = true ->
  Geometry.get_intersection_geometry (Some bg) (Some buffered) 4 = Some i ->
  (min_area <= Geometry.get_geometry_area (Some i))%Q ->
  forall results res,
    foldl_opt outer results items = Some res ->
    mkConflictResult b rf i (Geometry.get_geometry_area (Some i))
      buffer_distance ∈ res.
Proof.
  intros Hcs Hok Hin Hl Hq Hb Hbg Hvb Hbe Hint Hi Hmin.
  induction items as [| [k v] items IH]; intros results res;
    [by apply elem_of_nil in Hin |].
  cbn [foldl_opt].
  destruct (outer results (k, v)) as [res1 |] eqn:Hstep; [| discriminate].
  intros Hrest.
  assert (Hok' : items_ok items)
    by (intros k' v' Hin'; apply Hok; by apply elem_of_cons; right).
  apply elem_of_cons in Hin as [E | Hin].
  - injection E as <- <-.
    destruct (Hok rf buffered) as (rg & bext' & Hrg & Hbuf & Hl');
      [apply elem_of_cons; by left |].
    assert (bext' = bext) as -> by congruence.
    revert Hstep. unfold conflict_outer. cbn [fst snd]. rewrite Hl, Hq.
    intros [= <-].
    pose proof (IndexExtras.query_by_extent_NoDup idx bext cands Hq) as Hndc.
    pose proof (conflict_inner_loop_emits rf rg buffered bext cands b bg i be
                  Hrg Hbuf Hndc Hbg Hvb Hbe Hint Hi Hmin Hb results) as Hemit.
    destruct (conflict_outer_loop items Hcs Hok'
                (foldl (inner rf buffered bext) results cands))
      as (new & Hnew & _).
    rewrite Hnew in Hrest. injection Hrest as <-.
    apply elem_of_app. by left.
  - by apply (IH Hok' Hin res1 res).
Qed.

End Provider.

(** *** The whole function *)

Section Engine.
Context {G : Type} `{ArcGeometry G}.

Lemma find_conflicts_unfold (buildings roads : list (Z * option G))
    (buffer_distance min_area : Q) :
  exists cs idx,
    (0 < cs)%Q
    /\ build_index cs buildings = Some idx
    /\ _find_conflicts buildings roads buffer_distance min_area
       = foldl_opt (conflict_outer buildings (extent_map buildings) idx
                      (buffer_roads roads buffer_distance).2
                      min_area buffer_distance)
                   [] (buffer_roads roads buffer_distance).1.
Proof.
  unfold _find_conflicts.
  assert (HE : (collect_extents buildings).1.1 = extent_map buildings)
    by reflexivity.
  destruct (collect_extents buildings) as [[E tw] th]. simpl in HE. subst E.
  set (cs := conflict_cell_size (extent_map buildings) tw th buffer_distance).
  pose proof (conflict_cell_size_positive (extent_map buildings) tw th
                buffer_distance) as Hpos. fold cs in Hpos.
  pose proof (IndexSoundness.positive_not_zero cs Hpos) as Hnz.
  destruct (build_index_total cs buildings Hnz) as [idx Hidx].
  exists cs, idx. split; [exact Hpos |]. split; [exact Hidx |].
  rewrite index_buildings_spec, Hidx.
  by destruct (buffer_roads roads buffer_distance).
Qed.

Lemma buffer_roads_items (roads : list (Z * option G)) (buffer_distance : Q) :
  RoadConflict.items_ok roads buffer_distance
    (buffer_roads roads buffer_distance).2
    (buffer_roads roads buffer_distance).1.
Proof.
  destruct (buffer_roads_ok roads buffer_distance) as [_ Hall]. exact Hall.
Qed.

End Engine.

Section Results.
Context {G : Type} `{ArcGeometry G}.

Lemma find_conflicts_spec (buildings roads : list (Z * option G))
    (buffer_distance min_area : Q) :
  exists results,
    _find_conflicts buildings roads buffer_distance min_area = Some results
    /\ NoDup (conflict_key <$> results)
    /\ forall r, r ∈ results ->
                 conflict_ok buildings roads buffer_distance min_area r.
Proof.
  destruct (find_conflicts_unfold buildings roads buffer_distance min_area)
    as (cs & idx & Hpos & Hidx & ->).
  pose proof (build_index_inv cs buildings idx Hidx) as Hinv.
  assert (Hnz : Py.eq (cell_size idx) 0 = false).
  { rewrite (inv_cell_size _ _ _ Hinv).
    by apply IndexSoundness.positive_not_zero. }
  destruct (conflict_outer_loop roads buffer_distance buildings min_area idx
              (buffer_roads roads buffer_distance).2
              (buffer_roads roads buffer_distance).1 Hnz
              (buffer_roads_items roads buffer_distance) [])
    as (new & Hnew & Hnd & Hall).
  exists new. split; [exact Hnew |]. split.
  - apply Hnd. by destruct (buffer_roads_ok roads buffer_distance).
  - intros r Hr. by destruct (Hall r Hr).
Qed.

Lemma find_conflicts_emits (buildings roads : list (Z * option G))
    (buffer_distance min_area : Q)
    (b rf : Z) (bg : G) (rg : option G) (buffered i : G) (be bext : Extent) :
  NoDup buildings.*1 -> NoDup roads.*1 ->
  (b, Some bg) ∈ buildings -> (rf, rg) ∈ roads ->
  Geometry.validate_polygon_geometry (Some bg) = true ->
  Geometry.get_geometry_extent (Some bg) = Some be ->
  bufferable buffer_distance rg buffered bext ->
  extent_wf be -> extent_wf bext ->
  extents_intersect bext be = true ->
  Geometry.get_intersection_geometry (Some bg) (Some buffered) 4 = Some i ->
  (min_area <= Geometry.get_geometry_area (Some i))%Q ->
  exists results,
    _find_conflicts buildings roads buffer_distance min_area = Some results
    /\ mkConflictResult b rf i (Geometry.get_geometry_area (Some i))
         buffer_distance ∈ results.
Proof.
  intros Hndb Hndr Hinb Hinr Hvb Hxb Hbuf Hwb Hwr Hint Hi Hmin.
  destruct (find_conflicts_unfold buildings roads buffer_distance min_area)
    as (cs & idx & Hpos & Hidx & ->).
  pose proof (build_index_inv cs buildings idx Hidx) as Hinv.
  assert (Hnz : Py.eq (cell_size idx) 0 = false).
  { rewrite (inv_cell_size _ _ _ Hinv).
    by apply IndexSoundness.positive_not_zero. }
  pose proof (buffer_roads_items roads buffer_distance) as Hitems.
  destruct (conflict_outer_loop roads buffer_distance buildings min_area idx
              (buffer_roads roads buffer_distance).2
              (buffer_roads roads buffer_distance).1 Hnz Hitems [])
    as (new & Hnew & _).
  exists new. split; [exact Hnew |].
  pose proof (ScanComplete.dict_get_unique buildings b (Some bg) Hndb Hinb)
    as Hbg.
  assert (Hbe : extent_map buildings !! b = Some be)
    by (by rewrite (ScanComplete.extent_map_lookup buildings b (Some bg)
                      Hndb Hinb)).
  pose proof (buffer_roads_complete roads buffer_distance rf rg buffered bext
                Hndr Hinr Hbuf) as Hitem.
  destruct (Hitems rf buffered Hitem) as (rg' & bext' & _ & (_ & _ & Hx') & Hl).
  destruct Hbuf as (Hvr & Hbuf & Hxr).
  assert (bext' = bext) as -> by congruence.
  destruct (IndexExtras.extent_query_cover cs buildings idx b bext be)
    as (cands & Hq & Hcand); try done.
  { by rewrite (inv_extents _ _ _ Hinv). }
  by apply (conflict_outer_loop_emits roads buffer_distance buildings min_area
              idx (buffer_roads roads buffer_distance).2
              (buffer_roads roads buffer_distance).1 rf buffered bext b bg i be
              cands Hnz Hitems Hitem Hl Hq Hcand Hbg Hvb Hbe Hint Hi Hmin
              [] new).
Qed.

(** *** The brute-force search of [core/spatial_ops.py] *)

Lemma brute_force_gen (features : list (Z * option G)) (buffer : option G)
    (be : Extent) (m : Q) :
  forall results (x : Z * G * Q),
    x ∈ foldl (fun results (item : Z * option G) =>
                 if negb (Geometry.validate_polygon_geometry item.2)
                 then results
                 else
                   match Geometry.get_geometry_extent item.2 with
                   | None => results
                   | Some feat_extent =>
                       if negb (extents_intersect be feat_extent)
                       then results
                       else
                         match Geometry.get_intersection_geometry
                                 item.2 buffer 4 with
                         | None => results
                         | Some intersection =>
                             let inter_area :=
                               Geometry.get_geometry_area (Some intersection) in
                             if Py.le m inter_area
                             then results ++ [(item.1, intersection, inter_area)]
                             else results
                         end
                   end) results features
    <-> x ∈ results
        \/ exists geom fe,
             (x.1.1, geom) ∈ features
             /\ Geometry.validate_polygon_geometry geom = true
             /\ Geometry.get_geometry_extent geom = Some fe
             /\ extents_intersect be fe = true
             /\ Geometry.get_intersection_geometry geom buffer 4 = Some x.1.2
             /\ x.2 = Geometry.get_geometry_area (Some x.1.2)
             /\ (m <= x.2)%Q.
Proof.
  induction features as [| [fid geom] features IH]; intros results x;
    cbn [foldl].
  - split; [by left |]. intros [Hx | (geom & fe & Hin & _)]; [exact Hx |].
    by apply elem_of_nil in Hin.
  - rewrite IH. cbn [fst snd]. clear IH.
    assert (Htail : forall P : Prop,
              (exists geom' fe,
                 (x.1.1, geom') ∈ features
                 /\ Geometry.validate_polygon_geometry geom' = true
                 /\ Geometry.get_geometry_extent geom' = Some fe
                 /\ extents_intersect be fe = true
                 /\ Geometry.get_intersection_geometry geom' buffer 4
                    = Some x.1.2
                 /\ x.2 = Geometry.get_geometry_area (Some x.1.2)
                 /\ (m <= x.2)%Q) ->
              exists geom' fe,
                 (x.1.1, geom') ∈ (fid, geom) :: features
                 /\ Geometry.validate_polygon_geometry geom' = true
                 /\ Geometry.get_geometry_extent geom' = Some fe
                 /\ extents_intersect be fe = true
                 /\ Geometry.get_intersection_geometry geom' buffer 4
                    = Some x.1.2
                 /\ x.2 = Geometry.get_geometry_area (Some x.1.2)
                 /\ (m <= x.2)%Q).
    { intros _ (geom' & fe & Hin & Hrest). exists geom', fe.
      split; [apply elem_of_cons; by right | exact Hrest]. }
    split.
    + intros [Hx | Hex]; [| right; by apply (Htail True)].
      destruct (Geometry.validate_polygon_geometry geom) eqn:Hv; cbn [negb] in Hx;
        [| by left].
      destruct (Geometry.get_geometry_extent geom) as [fe |] eqn:Hfe;
        [| by left].
      destruct (extents_intersect be fe) eqn:Hint; cbn [negb] in Hx;
        [| by left].
      destruct (Geometry.get_intersection_geometry geom buffer 4) as [i |] eqn:Hi;
        [| by left].
      destruct (Py.le m (Geometry.get_geometry_area (Some i))) eqn:Hm;
        [| by left].
      apply elem_of_app in Hx as [Hx | Hx]; [by left |].
      apply list_elem_of_singleton in Hx. subst x. cbn [fst snd].
      right. exists geom, fe. split; [apply elem_of_cons; by left |].
      apply PyFacts.le_iff in Hm. done.
    + intros [Hx | (geom' & fe & Hin & Hv & Hfe & Hint & Hi & Ha & Hm)].
      * left. destruct (negb _); [exact Hx |].
        destruct (Geometry.get_geometry_extent geom); [| exact Hx].
        destruct (negb _); [exact Hx |].
        destruct (Geometry.get_intersection_geometry geom buffer 4);
          [| exact Hx].
        destruct (Py.le _ _); [apply elem_of_app; by left | exact Hx].
      * apply elem_of_cons in Hin as [E | Hin].
        -- injection E as E1 E2. subst geom'. left.
           rewrite Hv, Hfe, Hint, Hi. cbn [negb].
           assert (Hle : Py.le m (Geometry.get_geometry_area (Some x.1.2)) = true)
             by (apply PyFacts.le_iff; by rewrite <- Ha).
           rewrite Hle. apply elem_of_app. right.
           apply list_elem_of_singleton.
           destruct x as [[xf xi] xa]. cbn [fst snd] in *. by subst.
        -- right. exists geom', fe. done.
Qed.

Lemma brute_force_elem (features : list (Z * option G)) (buffer : option G)
    (m : Q) (x : Z * G * Q) :
  x ∈ find_features_intersecting_buffer features buffer m
  <-> exists geom fe be,
        (x.1.1, geom) ∈ features
        /\ Geometry.validate_polygon_geometry geom = true
        /\ Geometry.get_geometry_extent geom = Some fe
        /\ Geometry.get_geometry_extent buffer = Some be
        /\ extents_intersect be fe = true
        /\ Geometry.get_intersection_geometry geom buffer 4 = Some x.1.2
        /\ x.2 = Geometry.get_geometry_area (Some x.1.2)
        /\ (m <= x.2)%Q.
Proof.
  unfold find_features_intersecting_buffer.
  destruct (Geometry.is_geometry_null buffer) eqn:Hnull.
  { split; [intros Hx; by apply elem_of_nil in Hx |].
    intros (geom & fe & be & _ & _ & _ & Hbe & _). revert Hbe.
    unfold Geometry.get_geometry_extent. by rewrite Hnull. }
  destruct (Geometry.get_geometry_extent buffer) as [be |] eqn:Hbe.
  - rewrite brute_force_gen. split.
    + intros [Hx | (geom & fe & Hrest)]; [by apply elem_of_nil in Hx |].
      exists geom, fe, be.
      destruct Hrest as (H1 & H2 & H3 & H4 & H5 & H6 & H7). done.
    + intros (geom & fe & be' & H1 & H2 & H3 & [= <-] & H5 & H6 & H7 & H8).
      right. exists geom, fe. done.
  - split; [intros Hx; by apply elem_of_nil in Hx |].
    intros (geom & fe & be & _ & _ & _ & Hbe' & _). discriminate.
Qed.

End Results.

(** X18.  [_find_conflicts] returns for every input (no exception leaves
    it: the cell size of the building index is at least 30, and every key
    of [buffered_roads] has an entry in [buffered_extents]), and every
    record went through the whole emission path: its building is a valid
    polygon of the mapping with an extent, its road is a valid line of the
    mapping whose buffer exists and has an extent that intersects the
    building's, [conflict_geometry] is
    [get_intersection_geometry(building, buffer)], [conflict_area] is its
    area, which is positive and at least [min_area], and
    [road_buffer_distance] is the buffer distance of the call. *)
Theorem find_conflicts_records {G : Type} `{ArcGeometry G}
    (buildings roads : list (Z * option G)) (buffer_distance min_area : Q) :
  exists results,
    _find_conflicts buildings roads buffer_distance min_area = Some results
    /\ forall r, r ∈ results ->
                 conflict_ok buildings roads buffer_distance min_area r.
Proof.
  destruct (find_conflicts_spec buildings roads buffer_distance min_area)
    as (results & Hres & _ & Hall).
  by exists results.
Qed.

(** X19.  No [(building, road)] pair is reported twice by
    [_find_conflicts]: the keys of [buffered_roads] are distinct and the
    candidate list of one road holds each building once. *)
Theorem find_conflicts_distinct_pairs {G : Type} `{ArcGeometry G}
    (buildings roads : list (Z * option G)) (buffer_distance min_area : Q) :
  exists results,
    _find_conflicts buildings roads buffer_distance min_area = Some results
    /\ NoDup (conflict_key <$> results).
Proof.
  destruct (find_conflicts_spec buildings roads buffer_distance min_area)
    as (results & Hres & Hnd & _).
  by exists results.
Qed.



(** X21.  [find_features_intersecting_buffer] returns exactly the triples
    [(fid, intersection, area)] of the features that are valid polygons
    with an extent that intersects the extent of the buffer, whose
    [get_intersection_geometry] with the buffer exists and has an area of
    at least [min_intersection_area]; for a null buffer, or one without an
    extent, it returns the empty list. *)
Theorem find_features_intersecting_buffer_exact {G : Type} `{ArcGeometry G}
    (features : list (Z * option G)) (buffer : option G)
    (min_intersection_area : Q) :
  (forall x : Z * G * Q,
     x ∈ find_features_intersecting_buffer features buffer
           min_intersection_area
     <-> exists geom fe be,
           (x.1.1, geom) ∈ features
           /\ Geometry.validate_polygon_geometry geom = true
           /\ Geometry.get_geometry_extent geom = Some fe
           /\ Geometry.get_geometry_extent buffer = Some be
           /\ extents_intersect be fe = true
           /\ Geometry.get_intersection_geometry geom buffer 4 = Some x.1.2
           /\ x.2 = Geometry.get_geometry_area (Some x.1.2)
           /\ (min_intersection_area <= x.2)%Q)
  /\ (Geometry.get_geometry_extent buffer = None ->
      find_features_intersecting_buffer features buffer min_intersection_area
      = []).
Proof.
  split; [intros x; apply brute_force_elem |].
  intros Hnone. unfold find_features_intersecting_buffer.
  destruct (Geometry.is_geometry_null buffer); [reflexivity |].
  by rewrite Hnone.
Qed.



End ConflictFacts.

(** ** Reading the features *)

Module CursorFacts.
Import PyDict Cursor.

Lemma dict_set_fresh {V : Type} (d : list (Z * V)) (k : Z) (v : V) :
  k ∉ d.*1 -> dict_set d k v = d ++ [(k, v)].
Proof.
  induction d as [| [k' v'] d IH]; simpl; intros Hk; [reflexivity |].
  destruct (decide (k' = k)) as [-> | Hne].
  - exfalso. apply Hk. apply elem_of_cons. by left.
  - f_equal. apply IH. intros Hin. apply Hk. apply elem_of_cons. by right.
Qed.

Lemma dict_set_member {V : Type} (d : list (Z * V)) (k : Z) (v : V) k' v' :
  (k', v') ∈ dict_set d k v -> (k', v') = (k, v) \/ (k', v') ∈ d.
Proof.
  induction d as [| [k0 v0] d IH]; simpl.
  - intros Hin. apply list_elem_of_singleton in Hin. by left.
  - destruct (decide (k0 = k)) as [-> | Hne]; intros Hin;
      apply elem_of_cons in Hin as [E | Hin].
    + by left.
    + right. apply elem_of_cons. by right.
    + right. apply elem_of_cons. by left.
    + destruct (IH Hin) as [Hl | Hr]; [by left |].
      right. apply elem_of_cons. by right.
Qed.

Section Provider.
Context {G : Type}.

Local Abbreviation read_step :=
  (fun (result : list (Z * option G)) (row : Z * option G) =>
     match row.2 with
     | Some geometry => dict_set result row.1 (Some geometry)
     | None => result
     end).

Lemma read_snoc (rows : list (Z * option G)) (row : Z * option G) :
  read_geometries_to_dict (rows ++ [row])
  = read_step (read_geometries_to_dict rows) row.
Proof. unfold read_geometries_to_dict. by rewrite foldl_app. Qed.

Lemma read_keys_NoDup (rows : list (Z * option G)) :
  NoDup (read_geometries_to_dict rows).*1.
Proof.
  induction rows as [| [k g] rows IH] using rev_ind; [constructor |].
  rewrite read_snoc. cbn [snd fst]. destruct g as [g |]; [| exact IH].
  by apply ConflictFacts.dict_set_NoDup.
Qed.

Lemma read_values (rows : list (Z * option G)) (k : Z) (v : option G) :
  (k, v) ∈ read_geometries_to_dict rows ->
  (exists g, v = Some g) /\ (k, v) ∈ rows.
Proof.
  induction rows as [| [k' g'] rows IH] using rev_ind.
  - intros Hin. by apply elem_of_nil in Hin.
  - rewrite read_snoc. cbn [snd fst]. destruct g' as [g' |].
    + intros Hin. apply dict_set_member in Hin as [[= -> ->] | Hin].
      * split; [by exists g' |]. apply elem_of_app. right.
        apply elem_of_cons. by left.
      * destruct (IH Hin) as [Hv Hr]. split; [exact Hv |].
        apply elem_of_app. by left.
    + intros Hin. destruct (IH Hin) as [Hv Hr]. split; [exact Hv |].
      apply elem_of_app. by left.
Qed.

Lemma read_keys (rows : list (Z * option G)) (k : Z) (g : G) :
  (k, Some g) ∈ rows -> k ∈ (read_geometries_to_dict rows).*1.
Proof.
  induction rows as [| [k' g'] rows IH] using rev_ind.
  - intros Hin. by apply elem_of_nil in Hin.
  - rewrite read_snoc. cbn [snd fst]. intros Hin.
    apply elem_of_app in Hin as [Hin | Hin].
    + specialize (IH Hin). destruct g' as [g' |]; [| exact IH].
      rewrite ConflictFacts.dict_set_keys.
      destruct (decide (k' ∈ _)); [exact IH |]. apply elem_of_app. by left.
    + apply list_elem_of_singleton in Hin. injection Hin as <- <-.
      rewrite ConflictFacts.dict_set_keys.
      destruct (decide (k ∈ _)) as [Hk | _]; [exact Hk |].
      apply elem_of_app. right. apply elem_of_cons. by left.
Qed.

Lemma read_distinct (rows : list (Z * option G)) :
  NoDup rows.*1 ->
  read_geometries_to_dict rows
  = List.filter (fun row : Z * option G => bool_decide (is_Some row.2)) rows.
Proof.
  induction rows as [| [k g] rows IH] using rev_ind; [reflexivity |].
  rewrite fmap_app. intros Hnd. apply NoDup_app in Hnd as (Hnd & Hfresh & _).
  rewrite read_snoc, List.filter_app, (IH Hnd). cbn [snd fst List.filter].
  destruct g as [g |].
  - rewrite bool_decide_true by (by eexists).
    apply dict_set_fresh. intros Hin.
    apply list_elem_of_fmap in Hin as ([k' v'] & -> & Hin).
    apply list_elem_of_In, filter_In in Hin as [Hin _].
    apply list_elem_of_In in Hin. apply (Hfresh k').
    + apply list_elem_of_fmap. by exists (k', v').
    + apply elem_of_cons. by left.
  - rewrite bool_decide_false by (intros [x Hx]; discriminate).
    by rewrite app_nil_r.
Qed.

End Provider.

(** X23.  The mapping that [read_geometries_to_dict] builds from the rows
    of a cursor has distinct keys and no [None] value; every entry is a row
    of the cursor, and every row with a geometry has its id among the keys.
    When the ids of the rows are distinct, the mapping is the list of the
    rows that have a geometry, in cursor order. *)
Theorem read_geometries_to_dict_mapping {G : Type}
    (rows : list (Z * option G)) :
  NoDup (read_geometries_to_dict rows).*1
  /\ (forall k v, (k, v) ∈ read_geometries_to_dict rows ->
                  (exists g, v = Some g) /\ (k, v) ∈ rows)
  /\ (forall k g, (k, Some g) ∈ rows ->
                  k ∈ (read_geometries_to_dict rows).*1)
  /\ (NoDup rows.*1 ->
      read_geometries_to_dict rows
      = List.filter (fun row : Z * option G => bool_decide (is_Some row.2))
          rows).
Proof.
  split; [apply read_keys_NoDup |]. split; [apply read_values |].
  split; [apply read_keys | apply read_distinct].
Qed.

End CursorFacts.

(** ** The UTM zone *)

Module UtmFacts.
Import Utm.

Lemma py_int_floor (x : Q) : (0 <= x)%Q -> py_int x = Qfloor x.
Proof.
  intros Hx. unfold py_int. destruct x as [n d]. simpl.
  apply Z.quot_div_nonneg; [| lia].
  assert (Hn : (0 * Z.pos d <= n * 1)%Z) by exact Hx. lia.
Qed.

Lemma floor_bounds (x : Q) :
  (inject_Z (Qfloor x) <= x)%Q /\ (x < inject_Z (Qfloor x + 1))%Q.
Proof. split; [apply Qfloor_le | apply Qlt_floor]. Qed.

Lemma zone_bounds (lon : Q) :
  (-180 <= lon)%Q ->
  (inject_Z (6 * (utm_zone lon - 1) - 180) <= lon)%Q
  /\ (lon < inject_Z (6 * utm_zone lon - 180))%Q.
Proof.
  intros Hlo. unfold utm_zone.
  assert (H0 : (0 <= (lon + 180) / 6)%Q).
  { apply Qle_shift_div_l; lra. }
  rewrite (py_int_floor _ H0).
  destruct (floor_bounds ((lon + 180) / 6)) as [Hfl Hfu].
  generalize dependent (Qfloor ((lon + 180) / 6)). intros z Hfl Hfu.
  assert (E : (lon == 6 * ((lon + 180) / 6) - 180)%Q) by field.
  assert (A1 : (inject_Z (6 * (z + 1 - 1) - 180) == 6 * inject_Z z - 180)%Q).
  { replace (6 * (z + 1 - 1) - 180)%Z with (6 * z + -180)%Z by lia.
    rewrite inject_Z_plus, inject_Z_mult.
    change (inject_Z 6) with 6%Q. change (inject_Z (-180)) with (-180)%Q. ring. }
  assert (A2 : (inject_Z (6 * (z + 1) - 180) == 6 * inject_Z z + 6 - 180)%Q).
  { replace (6 * (z + 1) - 180)%Z with (6 * z + -174)%Z by lia.
    rewrite inject_Z_plus, inject_Z_mult.
    change (inject_Z 6) with 6%Q. change (inject_Z (-174)) with (-174)%Q. ring. }
  rewrite inject_Z_plus in Hfu. change (inject_Z 1) with 1%Q in Hfu.
  rewrite A1, A2. split; lra.
Qed.

Lemma py_int_mono (x y : Q) : (0 <= x)%Q -> (x <= y)%Q -> (py_int x <= py_int y)%Z.
Proof.
  intros Hx Hxy. rewrite !py_int_floor by lra. by apply Qfloor_resp_le.
Qed.

Lemma zone_of_band_start (k : Z) :
  (0 <= k)%Z -> utm_zone (inject_Z (6 * k - 180)) = (k + 1)%Z.
Proof.
  intros Hk. unfold utm_zone. f_equal.
  assert (E : ((inject_Z (6 * k - 180) + 180) / 6 == inject_Z k)%Q).
  { replace (6 * k - 180)%Z with (6 * k + -180)%Z by lia.
    rewrite inject_Z_plus, inject_Z_mult.
    change (inject_Z 6) with 6%Q. change (inject_Z (-180)) with (-180)%Q.
    field. }
  assert (H0 : (0 <= (inject_Z (6 * k - 180) + 180) / 6)%Q).
  { rewrite E. change 0%Q with (inject_Z 0). by rewrite <- Zle_Qle. }
  rewrite (py_int_floor _ H0), E. apply Qfloor_Z.
Qed.



End UtmFacts.

(** ** Null and valid geometries *)

Module ValidityFacts.
Import Geometry.

Section Provider.
Context {G : Type} `{ArcGeometry G}.

Lemma null_area (g : option G) :
  is_geometry_null g = true -> get_geometry_area g = 0%Q.
Proof. intros Hn. unfold get_geometry_area. by rewrite Hn. Qed.

Lemma null_intersection_l (g other : option G) (d : Z) :
  is_geometry_null g = true -> get_intersection_geometry g other d = None.
Proof.
  intros Hn. unfold get_intersection_geometry.
  destruct g as [a |]; [| reflexivity]. destruct other as [b |]; [| reflexivity].
  by rewrite Hn.
Qed.

Lemma null_intersection_r (g other : option G) (d : Z) :
  is_geometry_null g = true -> get_intersection_geometry other g d = None.
Proof.
  intros Hn. unfold get_intersection_geometry.
  destruct other as [b |]; [| reflexivity]. destruct g as [a |]; [| reflexivity].
  rewrite Hn. by rewrite orb_true_r.
Qed.

End Provider.

(** X25.  A null geometry ([None], no points, a polygon of area 0 or a
    line of length 0) is inert everywhere: its area is 0, it has no extent,
    it is neither a valid polygon nor a valid line, it cannot be buffered,
    it intersects nothing, and inserting it leaves a [SpatialIndex] as it
    is. *)
Theorem null_geometry_is_inert {G : Type} `{ArcGeometry G}
    (g : option G) :
  is_geometry_null g = true ->
  get_geometry_area g = 0%Q
  /\ get_geometry_extent g = None
  /\ validate_polygon_geometry g = false
  /\ validate_line_geometry g = false
  /\ (forall distance, buffer_geometry g distance = None)
  /\ (forall other d, get_intersection_geometry g other d = None
                      /\ get_intersection_geometry other g d = None)
  /\ (forall (idx : SpatialOps.SpatialIndex G) fid,
        SpatialOps.insert idx fid g = Some idx).
Proof.
  intros Hn. split; [by apply null_area |].
  split; [unfold get_geometry_extent; by rewrite Hn |].
  split; [unfold validate_polygon_geometry; by rewrite Hn |].
  split; [unfold validate_line_geometry; by rewrite Hn |].
  split; [intros distance; unfold buffer_geometry; by rewrite Hn |].
  split.
  - intros other d.
    split; [by apply null_intersection_l | by apply null_intersection_r].
  - intros idx fid. unfold SpatialOps.insert. by rewrite Hn.
Qed.

Lemma null_geometry_is_inert_witness :
  get_geometry_area (Some (Rect.mkRect "Polygon" 5 (0, 0, 0, 3)%Q)) = 0%Q
  /\ get_geometry_extent (Some (Rect.mkRect "Polygon" 5 (0, 0, 0, 3)%Q)) = None
  /\ validate_polygon_geometry (Some (Rect.mkRect "Polygon" 5 (0, 0, 0, 3)%Q))
     = false
  /\ validate_line_geometry (Some (Rect.mkRect "Polygon" 5 (0, 0, 0, 3)%Q))
     = false
  /\ (forall distance,
        buffer_geometry (Some (Rect.mkRect "Polygon" 5 (0, 0, 0, 3)%Q)) distance
        = None)
  /\ (forall other d,
        get_intersection_geometry
          (Some (Rect.mkRect "Polygon" 5 (0, 0, 0, 3)%Q)) other d = None
        /\ get_intersection_geometry other
             (Some (Rect.mkRect "Polygon" 5 (0, 0, 0, 3)%Q)) d = None)
  /\ (forall (idx : SpatialOps.SpatialIndex Rect.RectGeom) fid,
        SpatialOps.insert idx fid
          (Some (Rect.mkRect "Polygon" 5 (0, 0, 0, 3)%Q)) = Some idx).
Proof.
  apply (null_geometry_is_inert (Some (Rect.mkRect "Polygon" 5 (0, 0, 0, 3)%Q))).
  reflexivity.
Defined.

(** X26.  No geometry passes both [validate_polygon_geometry] and
    [validate_line_geometry]: the former wants the lower-cased type to be
    ["polygon"], which does not contain ["line"].  A valid polygon is not
    null and has a positive area; a valid line is not null and has a
    positive length. *)
Theorem polygon_and_line_exclusive {G : Type} `{ArcGeometry G}
    (g : option G) :
  (validate_polygon_geometry g && validate_line_geometry g)%bool = false
  /\ (validate_polygon_geometry g = true ->
      is_geometry_null g = false /\ (0 < get_geometry_area g)%Q)
  /\ (validate_line_geometry g = true ->
      is_geometry_null g = false
      /\ exists line, g = Some line /\ (0 < geom_length line)%Q).
Proof.
  split; [| split].
  - unfold validate_polygon_geometry, validate_line_geometry.
    destruct (is_geometry_null g); [reflexivity |].
    destruct g as [x |]; [| reflexivity].
    destruct (String.eqb (Py.lower (geom_type x)) "polygon") eqn:Hty;
      cbn [negb]; [| reflexivity].
    apply String.eqb_eq in Hty. rewrite Hty.
    by rewrite andb_false_r.
  - unfold validate_polygon_geometry.
    destruct (is_geometry_null g); [discriminate |].
    destruct g as [x |]; [| discriminate].
    destruct (negb _); [discriminate |].
    destruct (Py.le (get_geometry_area (Some x)) 0) eqn:Ha; [discriminate |].
    intros _. split; [reflexivity | by apply PyFacts.le_false_iff].
  - unfold validate_line_geometry.
    destruct (is_geometry_null g); [discriminate |].
    destruct g as [x |]; [| discriminate].
    destruct (negb _); [discriminate |].
    destruct (Py.le (geom_length x) 0) eqn:Hl; [discriminate |].
    intros _. split; [reflexivity |]. exists x.
    split; [reflexivity | by apply PyFacts.le_false_iff].
Qed.

End ValidityFacts.

(** ** The progress tracker *)

Module MessagingFacts.
Import Messaging.

(** The number of reports made once the indices below [n] were passed. *)
Local Abbreviation reports s n := (Z.max 0 ((n - 1) / s))%Z.

Lemma reports_step (s n : Z) :
  (1 <= s)%Z -> (0 <= n)%Z ->
  ((s <= n - s * reports s n)%Z
   -> reports s (n + 1) = (reports s n + 1)%Z /\ n = (s * (reports s n + 1))%Z)
  /\ ((n - s * reports s n < s)%Z -> reports s (n + 1) = reports s n).
Proof.
  intros Hs Hn.
  replace (n + 1 - 1)%Z with n by lia.
  destruct (Z.eq_dec n 0%Z) as [-> | Hn0].
  - replace ((0 - 1) / s)%Z with (-1)%Z
      by (apply (Z.div_unique (0 - 1)%Z s (-1)%Z (s - 1)%Z); lia).
    rewrite Z.div_0_l by lia. split; lia.
  - pose proof (Z.mul_div_le (n - 1)%Z s ltac:(lia)) as Hq1.
    pose proof (Z.mul_succ_div_gt (n - 1)%Z s ltac:(lia)) as Hq2.
    assert (Hq0 : (0 <= (n - 1) / s)%Z) by (apply Z.div_pos; lia).
    rewrite (Z.max_r 0%Z ((n - 1) / s)%Z) by lia.
    set (q := ((n - 1) / s)%Z) in *.
    split.
    + intros Hrep.
      assert (En : n = (s * (q + 1))%Z) by lia.
      split; [| exact En].
      assert (Ediv : (n / s = q + 1)%Z).
      { symmetry. apply (Z.div_unique n s (q + 1)%Z 0%Z); lia. }
      rewrite Ediv. lia.
    + intros Hskip.
      assert (Ediv : (n / s = q)%Z).
      { symmetry. apply (Z.div_unique n s q (n - s * q)%Z); lia. }
      rewrite Ediv. lia.
Qed.

Lemma positions_app (l1 l2 : list ProgressorCall) :
  positions (l1 ++ l2) = positions l1 ++ positions l2.
Proof. unfold positions. by rewrite omap_app. Qed.

Lemma run_updates_snoc (self : ProgressTracker) status (idxs : list Z) (idx : Z) :
  run_updates self status (idxs ++ [idx])
  = let st := run_updates self status idxs in
    let '(tracker, calls) := update st.1 (Some idx) (status idx) in
    (tracker, st.2 ++ calls).
Proof. unfold run_updates. by rewrite foldl_app. Qed.

Lemma run_updates_range (lbl : string) (t s : Z) status (n : nat) :
  (1 <= s)%Z ->
  let st := run_updates (ProgressTracker_init lbl t s) status
              (Py.range 0 (Z.of_nat n)) in
  step_size st.1 = s
  /\ _last_reported st.1 = (s * reports s (Z.of_nat n))%Z
  /\ positions st.2
     = (fun k => (k * s)%Z) <$> seqZ 1 (reports s (Z.of_nat n)).
Proof.
  intros Hs. induction n as [| n IH]; cbv zeta.
  - change (Z.of_nat 0) with 0%Z. change (Py.range 0 0) with (@nil Z).
    replace ((0 - 1) / s)%Z with (-1)%Z
      by (apply (Z.div_unique (0 - 1)%Z s (-1)%Z (s - 1)%Z); lia).
    change (Z.max 0 (-1)) with 0%Z. unfold run_updates. cbn.
    split; [reflexivity |]. split; [lia | reflexivity].
  - cbv zeta in IH.
    assert (Hrange : Py.range 0 (Z.of_nat (S n))
                     = Py.range 0 (Z.of_nat n) ++ [Z.of_nat n]).
    { unfold Py.range. replace (Z.of_nat (S n) - 0)%Z with (Z.of_nat n - 0 + 1)%Z
        by lia.
      rewrite seqZ_app by lia. f_equal.
      replace (0 + (Z.of_nat n - 0))%Z with (Z.of_nat n) by lia. reflexivity. }
    rewrite Hrange, run_updates_snoc. cbv zeta.
    destruct (run_updates (ProgressTracker_init lbl t s) status
                (Py.range 0 (Z.of_nat n))) as [tr calls].
    cbn [fst snd] in IH |- *. destruct IH as (Hstep & Hlast & Hpos).
    destruct (reports_step s (Z.of_nat n) Hs ltac:(lia)) as [Hrep Hskip].
    replace (Z.of_nat (S n)) with (Z.of_nat n + 1)%Z by lia.
    unfold update. rewrite Hstep, Hlast.
    destruct (Z.leb_spec s (Z.of_nat n - s * reports s (Z.of_nat n)))
      as [Hle | Hgt]; cbn [fst snd step_size _last_reported].
    + destruct (Hrep Hle) as [Eq En]. rewrite Eq.
      split; [reflexivity |]. split; [exact En |].
      rewrite !positions_app, Hpos.
      rewrite seqZ_app by lia. rewrite fmap_app. f_equal.
      assert (Hlabel : positions
                         match status (Z.of_nat n) with
                         | Some str =>
                             if String.eqb str "" then []
                             else [SetProgressorLabel str]
                         | None => []
                         end = []).
      { destruct (status (Z.of_nat n)) as [str |]; [| reflexivity].
        by destruct (String.eqb str ""). }
      rewrite Hlabel. cbn [app positions omap].
      change (seqZ (1 + reports s (Z.of_nat n)) 1)
        with [(0 + (1 + reports s (Z.of_nat n)))%Z].
      cbn [fmap list_fmap].
      change (positions [SetProgressorPosition (Z.of_nat n)])
        with [Z.of_nat n].
      f_equal. lia.
    + rewrite (Hskip Hgt). split; [reflexivity |]. split; [reflexivity |].
      by rewrite app_nil_r.
Qed.

(** X27.  With a step size of at least 1, the loop
    [for idx in range(n): progress.update(idx, ...)] of the two checkers
    moves the progress bar exactly at the positive multiples of the step
    size below [n], in increasing order, whatever the status texts: the
    positions passed to [SetProgressorPosition] are
    [step_size, 2 * step_size, ...], [(n - 1) // step_size] of them. *)
Theorem progress_positions (lbl : string) (t s : Z)
    (status : Z -> option string) (n : nat) :
  (1 <= s)%Z ->
  positions (run_updates (ProgressTracker_init lbl t s) status
               (Py.range 0 (Z.of_nat n))).2
  = (fun k => (k * s)%Z) <$> seqZ 1 ((Z.of_nat n - 1) / s).
Proof.
  intros Hs.
  destruct (run_updates_range lbl t s status n Hs) as (_ & _ & ->).
  destruct (Z.max_spec 0%Z ((Z.of_nat n - 1) / s)%Z) as [[_ ->] | [Hneg ->]];
    [reflexivity |].
  destruct (Z.eq_dec ((Z.of_nat n - 1) / s)%Z 0%Z) as [-> | Hne]; [reflexivity |].
  rewrite !seqZ_nil by lia. reflexivity.
Qed.

Lemma progress_positions_witness :
  positions (run_updates (ProgressTracker_init "Checking road conflicts" 10 3)
               (fun _ => None) (Py.range 0 (Z.of_nat 10))).2
  = (fun k => (k * 3)%Z) <$> seqZ 1 ((Z.of_nat 10 - 1) / 3).
Proof.
  apply (progress_positions "Checking road conflicts" 10 3 (fun _ => None) 10).
  lia.
Defined.

End MessagingFacts.

(** ** The written rows *)

Module WriterFacts.
Import SpatialOps RoadConflict OverlapStats Writers.

Section Provider.
Context {G : Type} `{ArcGeometry G}.
Variable projectAs : G -> Attempt G.

Lemma write_overlaps_gen (reproject : bool) (timestamp : string)
    (overlaps : list (OverlapResult G)) :
  forall (rows : list (OverlapRow (G := G))) (count : Z),
    foldl (fun (st : list OverlapRow * Z) (overlap : OverlapResult G) =>
             let geom := reprojected projectAs reproject
                           (overlap_geometry overlap) in
             (st.1 ++ [(geom, fid_a overlap, fid_b overlap,
                        overlap_area overlap, overlap_ratio overlap,
                        overlap_type overlap, timestamp)],
              (st.2 + 1)%Z))
          (rows, count) overlaps
    = (rows ++ ((fun overlap : OverlapResult G =>
                   (reprojected projectAs reproject (overlap_geometry overlap),
                    fid_a overlap, fid_b overlap, overlap_area overlap,
                    overlap_ratio overlap, overlap_type overlap, timestamp))
                <$> overlaps),
       (count + Z.of_nat (length overlaps))%Z).
Proof.
  induction overlaps as [| o overlaps IH]; intros rows count; cbn [foldl].
  - rewrite app_nil_r. cbn. f_equal. lia.
  - rewrite IH. cbn [fst snd fmap list_fmap length]. rewrite <- app_assoc.
    f_equal. lia.
Qed.

Lemma write_conflicts_gen (reproject : bool) (timestamp : string)
    (conflicts : list (ConflictResult G)) :
  forall (rows : list (ConflictRow (G := G))) (count : Z),
    foldl (fun (st : list ConflictRow * Z) (conflict : ConflictResult G) =>
             let geom := reprojected projectAs reproject
                           (conflict_geometry conflict) in
             (st.1 ++ [(geom, building_fid conflict, road_fid conflict,
                        conflict_area conflict,
                        road_buffer_distance conflict, timestamp)],
              (st.2 + 1)%Z))
          (rows, count) conflicts
    = (rows ++ ((fun conflict : ConflictResult G =>
                   (reprojected projectAs reproject
                      (conflict_geometry conflict),
                    building_fid conflict, road_fid conflict,
                    conflict_area conflict, road_buffer_distance conflict,
                    timestamp))
                <$> conflicts),
       (count + Z.of_nat (length conflicts))%Z).
Proof.
  induction conflicts as [| c conflicts IH]; intros rows count; cbn [foldl].
  - rewrite app_nil_r. cbn. f_equal. lia.
  - rewrite IH. cbn [fst snd fmap list_fmap length]. rewrite <- app_assoc.
    f_equal. lia.
Qed.

Lemma reprojected_cases (reproject : bool) (geom : G) :
  (reproject = false -> reprojected projectAs reproject geom = geom)
  /\ (reprojected projectAs reproject geom = geom
      \/ projectAs geom = Ok (reprojected projectAs reproject geom)).
Proof.
  unfold reprojected. destruct reproject; [| by split; [| left]].
  split; [discriminate |].
  destruct (projectAs geom) as [g |]; [by right | by left].
Qed.

End Provider.



End WriterFacts.

(** ** The engine, for any arithmetic *)

Module EngineFacts.
Import Engine.

Lemma foldl_opt_Some {A B : Type} (f : A -> B -> option A) (g : A -> B -> A)
    (l : list B) :
  (forall a x, f a x = Some (g a x)) ->
  forall a, foldl_opt f a l = Some (foldl g a l).
Proof.
  intros Hfg. induction l as [| x l IH]; intros a; cbn [foldl_opt foldl].
  - reflexivity.
  - rewrite Hfg. apply IH.
Qed.

Section Dangles.
Context {F : Type}.
Variable grid_key : F -> F -> option (Z * Z).
Variable near : F -> F -> F -> F -> option bool.

Local Abbreviation hash_ok := (hash_ok grid_key).
Local Abbreviation hit := (hit near).
Local Abbreviation miss := (miss near).

(** *** The hash built by step 1 *)

Lemma hash_starts_ok : hash_ok [] ∅.
Proof.
  intros key e. rewrite lookup_empty. simpl. split.
  - intros Hin. by apply elem_of_nil in Hin.
  - intros [[i Hin] _]. by apply elem_of_nil in Hin.
Qed.

Lemma hash_append_ok eps g fid (x y : F) i key :
  grid_key x y = Some key ->
  hash_ok eps g ->
  hash_ok (eps ++ [(fid, x, y, i)]) (hash_append g key (fid, x, y)).
Proof.
  intros Hkey Hok key' e. unfold hash_append.
  destruct (decide (key = key')) as [<- | Hne].
  - rewrite lookup_insert_eq. simpl. rewrite elem_of_app, list_elem_of_singleton.
    rewrite (Hok key e). split.
    + intros [[[j Hj] Hk] | ->].
      * split; [| exact Hk]. exists j. apply elem_of_app. by left.
      * split; [| exact Hkey]. exists i. apply elem_of_app. right.
        by apply list_elem_of_singleton.
    + intros [[j Hj] Hk]. apply elem_of_app in Hj as [Hj | Hj].
      * left. split; [by exists j | exact Hk].
      * right. apply list_elem_of_singleton in Hj.
        destruct e as [[ef ex] ey]. simpl in *. congruence.
  - rewrite lookup_insert_ne by exact Hne. rewrite (Hok key' e). split.
    + intros [[j Hj] Hk]. split; [| exact Hk]. exists j.
      apply elem_of_app. by left.
    + intros [[j Hj] Hk]. split; [| exact Hk]. exists j.
      apply elem_of_app in Hj as [Hj | Hj]; [exact Hj |].
      apply list_elem_of_singleton in Hj.
      destruct e as [[ef ex] ey]. simpl in *.
      injection Hj as -> -> -> ->. congruence.
Qed.

(** The inner loop of step 1, for any numbering [f] of the points. *)
Lemma flatten_points_reads (fid : Z) (pts : list (@Point F)) :
  forall (f : nat -> Z) eps g st',
    hash_ok eps g ->
    foldl_opt (fun st (ip : Z * Point) =>
                 match grid_key ip.2.1 ip.2.2 with
                 | Some key =>
                     Some (st.1 ++ [(fid, ip.2.1, ip.2.2, ip.1)],
                           hash_append st.2 key (fid, ip.2.1, ip.2.2))
                 | None => None
                 end)
              (eps, g) (imap (fun i a => (f i, a)) pts) = Some st' ->
    st'.1 = eps ++ imap (fun i (p : Point) => (fid, p.1, p.2, f i)) pts
    /\ hash_ok st'.1 st'.2.
Proof.
  induction pts as [| [x y] pts IH]; intros f eps g st' Hok; cbn [imap foldl_opt].
  - intros [= <-]. simpl. by rewrite app_nil_r.
  - cbn [fst snd].
    destruct (grid_key x y) as [key |] eqn:Hkey; [| discriminate].
    intros Hrest.
    destruct (IH (f ∘ S) _ _ st'
                (hash_append_ok eps g fid x y (f 0%nat) key Hkey Hok) Hrest)
      as [E1 E2].
    split; [| exact E2]. rewrite E1. by rewrite <- app_assoc.
Qed.

Lemma flatten_points_returns (fid : Z) (pts : list (@Point F)) :
  forall (f : nat -> Z) st,
    (forall p, p ∈ pts -> is_Some (grid_key p.1 p.2)) ->
    is_Some
      (foldl_opt (fun st (ip : Z * Point) =>
                    match grid_key ip.2.1 ip.2.2 with
                    | Some key =>
                        Some (st.1 ++ [(fid, ip.2.1, ip.2.2, ip.1)],
                              hash_append st.2 key (fid, ip.2.1, ip.2.2))
                    | None => None
                    end)
                 st (imap (fun i a => (f i, a)) pts)).
Proof.
  induction pts as [| [x y] pts IH]; intros f st Hall; cbn [imap foldl_opt].
  - by eexists.
  - cbn [fst snd].
    destruct (Hall (x, y)) as [key Hkey]; [apply elem_of_cons; by left |].
    cbn [fst snd] in Hkey. rewrite Hkey. apply (IH (f ∘ S)).
    intros p Hp. apply Hall. apply elem_of_cons. by right.
Qed.

Lemma flatten_roads_reads (ebr : list (Z * list (@Point F))) :
  forall st st',
    hash_ok st.1 st.2 ->
    foldl_opt (fun st (item : Z * list Point) =>
                 flatten_points grid_key item.1 st item.2) st ebr = Some st' ->
    st'.1 = st.1 ++ all_endpoints ebr /\ hash_ok st'.1 st'.2.
Proof.
  induction ebr as [| [fid pts] ebr IH]; intros [eps g] st' Hok;
    cbn [foldl_opt fst snd].
  - intros [= <-]. simpl. by rewrite app_nil_r.
  - destruct (flatten_points grid_key fid (eps, g) pts) as [st1 |] eqn:H1;
      [| discriminate].
    intros Hrest.
    destruct (flatten_points_reads fid pts Z.of_nat eps g st1 Hok H1) as [E1 E2].
    destruct (IH st1 st' E2 Hrest) as [F1 F2].
    split; [| exact F2]. destruct st1 as [eps1 g1]. cbn [fst snd] in E1, F1.
    subst eps1. etransitivity; [exact F1 |]. cbn [all_endpoints flat_map fst snd].
    by rewrite <- app_assoc.
Qed.

Lemma endpoint_of_mapping (ebr : list (Z * list (@Point F))) (ep : Endpoint) :
  ep ∈ all_endpoints ebr
  <-> exists fid pts (i : nat) (p : Point),
        (fid, pts) ∈ ebr /\ pts !! i = Some p
        /\ ep = (fid, p.1, p.2, Z.of_nat i).
Proof.
  unfold all_endpoints. rewrite list_elem_of_In, in_flat_map. split.
  - intros ([fid pts] & Hin & Hep). apply list_elem_of_In in Hep.
    apply list_elem_of_lookup in Hep as [i Hi]. rewrite list_lookup_imap in Hi.
    simpl in Hi. destruct (pts !! i) as [p |] eqn:Hp; [| discriminate].
    injection Hi as <-. exists fid, pts, i, p.
    split; [by apply list_elem_of_In | done].
  - intros (fid & pts & i & p & Hin & Hp & ->). exists (fid, pts).
    split; [by apply list_elem_of_In |]. apply list_elem_of_In.
    apply list_elem_of_lookup. exists i. rewrite list_lookup_imap. simpl.
    by rewrite Hp.
Qed.

Lemma flatten_roads_returns (ebr : list (Z * list (@Point F))) :
  forall st,
    (forall ep, ep ∈ all_endpoints ebr ->
                is_Some (grid_key (ep_x ep) (ep_y ep))) ->
    is_Some (foldl_opt (fun st (item : Z * list Point) =>
                          flatten_points grid_key item.1 st item.2) st ebr).
Proof.
  induction ebr as [| [fid pts] ebr IH]; intros st Hall; cbn [foldl_opt fst snd].
  - by eexists.
  - destruct (flatten_points_returns fid pts Z.of_nat st) as [st1 H1].
    { intros p Hp. apply list_elem_of_lookup in Hp as [i Hi].
      apply (Hall (fid, p.1, p.2, Z.of_nat i)). apply endpoint_of_mapping.
      exists fid, pts, i, p. split; [apply elem_of_cons; by left | done]. }
    unfold flatten_points, RoadQC.enumerate. rewrite H1. apply IH.
    intros ep Hep. apply Hall. apply endpoint_of_mapping.
    apply endpoint_of_mapping in Hep as (f & ps & i & p & Hin & Hp & ->).
    exists f, ps, i, p. split; [apply elem_of_cons; by right | done].
Qed.

Lemma flatten_roads_hash (ebr : list (Z * list (@Point F))) eps g :
  flatten_roads grid_key ebr = Some (eps, g) ->
  eps = all_endpoints ebr /\ hash_ok eps g.
Proof.
  intros Hfl.
  destruct (flatten_roads_reads ebr ([], ∅) (eps, g) hash_starts_ok Hfl)
    as [E1 E2].
  simpl in E1, E2. by subst eps.
Qed.

(** *** The neighbourhood scan *)

Lemma bucket_scan_hit (fid : Z) (x y : F) (bucket : list HashEntry) :
  scan_bucket near fid x y bucket = Some true ->
  exists e : HashEntry, e ∈ bucket /\ e.1.1 <> fid
            /\ near x y e.1.2 e.2 = Some true.
Proof.
  induction bucket as [| [[ofid ox] oy] bucket IH]; cbn [scan_bucket];
    [discriminate |].
  destruct (decide (ofid = fid)) as [-> | Hne].
  - intros Hrest. destruct (IH Hrest) as (e & He & Hf & Hw).
    exists e. split; [apply elem_of_cons; by right | done].
  - destruct (near x y ox oy) as [[|] |] eqn:Hw; [| | discriminate].
    + intros _. exists (ofid, ox, oy).
      split; [apply elem_of_cons; by left | done].
    + intros Hrest. destruct (IH Hrest) as (e & He & Hf & Hw').
      exists e. split; [apply elem_of_cons; by right | done].
Qed.

Lemma bucket_scan_miss (fid : Z) (x y : F) (bucket : list HashEntry) :
  scan_bucket near fid x y bucket = Some false ->
  forall e : HashEntry, e ∈ bucket -> e.1.1 <> fid ->
            near x y e.1.2 e.2 = Some false.
Proof.
  induction bucket as [| [[ofid ox] oy] bucket IH]; cbn [scan_bucket].
  - intros _ e He. by apply elem_of_nil in He.
  - destruct (decide (ofid = fid)) as [-> | Hne].
    + intros Hrest e He Hf. apply elem_of_cons in He as [-> | He];
        [simpl in Hf; contradiction | by apply IH].
    + destruct (near x y ox oy) as [[|] |] eqn:Hw; [discriminate | | discriminate].
      intros Hrest e He Hf. apply elem_of_cons in He as [-> | He];
        [exact Hw | by apply IH].
Qed.

Lemma bucket_scan_returns (fid : Z) (x y : F) (bucket : list HashEntry) :
  (forall e : HashEntry, e ∈ bucket -> e.1.1 <> fid ->
             is_Some (near x y e.1.2 e.2)) ->
  is_Some (scan_bucket near fid x y bucket).
Proof.
  induction bucket as [| [[ofid ox] oy] bucket IH]; cbn [scan_bucket];
    intros Hall; [by eexists |].
  assert (Hrest : is_Some (scan_bucket near fid x y bucket)).
  { apply IH. intros e He. apply Hall. apply elem_of_cons. by right. }
  destruct (decide (ofid = fid)) as [-> | Hne]; [exact Hrest |].
  destruct (Hall (ofid, ox, oy)) as [b Hb];
    [apply elem_of_cons; by left | exact Hne |].
  simpl in Hb. rewrite Hb. destruct b; [by eexists | exact Hrest].
Qed.

Lemma row_scan_hit g gx gy dx fid (x y : F) dys :
  scan_dy near g gx gy dx fid x y dys = Some true ->
  exists dy, dy ∈ dys /\ hit g ((gx + dx)%Z, (gy + dy)%Z) fid x y.
Proof.
  induction dys as [| dy dys IH]; cbn [scan_dy]; [discriminate |].
  destruct (g !! ((gx + dx)%Z, (gy + dy)%Z)) as [bucket |] eqn:Hb.
  - destruct (scan_bucket near fid x y bucket) as [[|] |] eqn:Hs;
      [| | discriminate].
    + intros _. exists dy. split; [apply elem_of_cons; by left |].
      unfold Engine.hit. rewrite Hb. simpl. by apply bucket_scan_hit.
    + intros Hrest. destruct (IH Hrest) as (dy' & Hdy' & Hh).
      exists dy'. split; [apply elem_of_cons; by right | exact Hh].
  - intros Hrest. destruct (IH Hrest) as (dy' & Hdy' & Hh).
    exists dy'. split; [apply elem_of_cons; by right | exact Hh].
Qed.

Lemma row_scan_miss g gx gy dx fid (x y : F) dys :
  scan_dy near g gx gy dx fid x y dys = Some false ->
  forall dy, dy ∈ dys -> miss g ((gx + dx)%Z, (gy + dy)%Z) fid x y.
Proof.
  induction dys as [| dy dys IH]; cbn [scan_dy].
  - intros _ dy Hdy. by apply elem_of_nil in Hdy.
  - destruct (g !! ((gx + dx)%Z, (gy + dy)%Z)) as [bucket |] eqn:Hb.
    + destruct (scan_bucket near fid x y bucket) as [[|] |] eqn:Hs;
        [discriminate | | discriminate].
      intros Hrest dy' Hdy'. apply elem_of_cons in Hdy' as [-> | Hdy'];
        [| by apply IH].
      unfold Engine.miss. rewrite Hb. simpl. by apply bucket_scan_miss.
    + intros Hrest dy' Hdy'. apply elem_of_cons in Hdy' as [-> | Hdy'];
        [| by apply IH].
      unfold Engine.miss. rewrite Hb. simpl. intros e He.
      by apply elem_of_nil in He.
Qed.

Lemma row_scan_returns g gx gy dx fid (x y : F) dys :
  (forall key (e : HashEntry), e ∈ default [] (g !! key) -> e.1.1 <> fid ->
             is_Some (near x y e.1.2 e.2)) ->
  is_Some (scan_dy near g gx gy dx fid x y dys).
Proof.
  intros Hall. induction dys as [| dy dys IH]; cbn [scan_dy]; [by eexists |].
  destruct (g !! ((gx + dx)%Z, (gy + dy)%Z)) as [bucket |] eqn:Hb; [| exact IH].
  destruct (bucket_scan_returns fid x y bucket) as [b Hs].
  { intros e He. apply (Hall ((gx + dx)%Z, (gy + dy)%Z)). by rewrite Hb. }
  rewrite Hs. destruct b; [by eexists | exact IH].
Qed.

Lemma block_scan_hit g gx gy fid (x y : F) dxs :
  scan_dx near g gx gy fid x y dxs = Some true ->
  exists dx dy, dx ∈ dxs /\ dy ∈ [-1; 0; 1]%Z
                /\ hit g ((gx + dx)%Z, (gy + dy)%Z) fid x y.
Proof.
  induction dxs as [| dx dxs IH]; cbn [scan_dx]; [discriminate |].
  destruct (scan_dy near g gx gy dx fid x y [-1; 0; 1]%Z) as [[|] |] eqn:Hs;
    [| | discriminate].
  - intros _. apply row_scan_hit in Hs as (dy & Hdy & Hh).
    exists dx, dy. split; [apply elem_of_cons; by left | done].
  - intros Hrest. destruct (IH Hrest) as (dx' & dy & Hdx' & Hdy & Hh).
    exists dx', dy. split; [apply elem_of_cons; by right | done].
Qed.

Lemma block_scan_miss g gx gy fid (x y : F) dxs :
  scan_dx near g gx gy fid x y dxs = Some false ->
  forall dx dy, dx ∈ dxs -> dy ∈ [-1; 0; 1]%Z ->
                miss g ((gx + dx)%Z, (gy + dy)%Z) fid x y.
Proof.
  induction dxs as [| dx dxs IH]; cbn [scan_dx].
  - intros _ dx dy Hdx. by apply elem_of_nil in Hdx.
  - destruct (scan_dy near g gx gy dx fid x y [-1; 0; 1]%Z) as [[|] |] eqn:Hs;
      [discriminate | | discriminate].
    intros Hrest dx' dy Hdx' Hdy. apply elem_of_cons in Hdx' as [-> | Hdx'];
      [by apply (row_scan_miss _ _ _ _ _ _ _ _ Hs) | by apply IH].
Qed.

Lemma block_scan_returns g gx gy fid (x y : F) dxs :
  (forall key (e : HashEntry), e ∈ default [] (g !! key) -> e.1.1 <> fid ->
             is_Some (near x y e.1.2 e.2)) ->
  is_Some (scan_dx near g gx gy fid x y dxs).
Proof.
  intros Hall. induction dxs as [| dx dxs IH]; cbn [scan_dx]; [by eexists |].
  destruct (row_scan_returns g gx gy dx fid x y [-1; 0; 1]%Z Hall) as [b Hs].
  rewrite Hs. destruct b; [by eexists | exact IH].
Qed.

(** *** What the scan of one endpoint answers *)

Lemma passes_true (a o : Endpoint) :
  passes near a o = true
  <-> near (ep_x a) (ep_y a) (ep_x o) (ep_y o) = Some true.
Proof.
  unfold passes. destruct (near _ _ _ _) as [[|] |]; split; congruence.
Qed.

Lemma adjacent_offsets (k k' : Z * Z) :
  adjacent k k' = true
  <-> exists dx dy, dx ∈ [-1; 0; 1]%Z /\ dy ∈ [-1; 0; 1]%Z
                    /\ k' = ((k.1 + dx)%Z, (k.2 + dy)%Z).
Proof.
  unfold adjacent. rewrite !andb_true_iff, !Z.leb_le. split.
  - intros [[[H1 H2] H3] H4].
    exists (k'.1 - k.1)%Z, (k'.2 - k.2)%Z. split; [| split].
    + rewrite !elem_of_cons. lia.
    + rewrite !elem_of_cons. lia.
    + destruct k' as [a b]. simpl. f_equal; lia.
  - intros (dx & dy & Hdx & Hdy & ->). simpl.
    rewrite !elem_of_cons in Hdx, Hdy.
    destruct Hdx as [-> | [-> | [-> | Hdx]]]; [| | | by apply elem_of_nil in Hdx];
      destruct Hdy as [-> | [-> | [-> | Hdy]]];
      try (by apply elem_of_nil in Hdy); lia.
Qed.

Lemma block_neighbour_true (eps : list Endpoint) (ep : Endpoint) :
  block_neighbour grid_key near eps ep = true
  <-> exists o, o ∈ eps /\ ep_fid o <> ep_fid ep
                /\ in_block grid_key ep o = true /\ passes near ep o = true.
Proof.
  unfold block_neighbour. rewrite existsb_exists. split.
  - intros (o & Hin & Hb). apply andb_true_iff in Hb as [Hb Hp].
    apply andb_true_iff in Hb as [Hf Hk].
    exists o. split; [by apply list_elem_of_In |].
    apply negb_true_iff, Z.eqb_neq in Hf. done.
  - intros (o & Hin & Hf & Hk & Hp). exists o.
    split; [by apply list_elem_of_In |].
    rewrite Hk, Hp, !andb_true_r. by apply negb_true_iff, Z.eqb_neq.
Qed.

Lemma naive_neighbour_true (eps : list Endpoint) (ep : Endpoint) :
  has_neighbour near eps ep = true
  <-> exists o, o ∈ eps /\ ep_fid o <> ep_fid ep /\ passes near ep o = true.
Proof.
  unfold has_neighbour. rewrite existsb_exists. split.
  - intros (o & Hin & Hb). apply andb_true_iff in Hb as [Hf Hp].
    exists o. split; [by apply list_elem_of_In |].
    apply negb_true_iff, Z.eqb_neq in Hf. done.
  - intros (o & Hin & Hf & Hp). exists o.
    split; [by apply list_elem_of_In |].
    rewrite Hp, andb_true_r. by apply negb_true_iff, Z.eqb_neq.
Qed.

(** The scan answers [True] exactly when an endpoint of another road that
    is hashed into the 3x3 block passes the test. *)
Lemma is_connected_reads (eps : list Endpoint)
    (g : gmap (Z * Z) (list HashEntry)) (ep : Endpoint) (b : bool) :
  hash_ok eps g ->
  is_connected grid_key near g ep = Some b ->
  b = block_neighbour grid_key near eps ep.
Proof.
  intros Hok. unfold is_connected.
  destruct (grid_key (ep_x ep) (ep_y ep)) as [[gx gy] |] eqn:Hkey;
    [| discriminate].
  destruct b; intros Hscan.
  - symmetry. apply block_neighbour_true.
    apply block_scan_hit in Hscan as (dx & dy & Hdx & Hdy & e & He & Hf & Hw).
    apply Hok in He as [[i Hi] Hk].
    exists (e.1.1, e.1.2, e.2, i). split; [exact Hi |].
    split; [exact Hf |]. split.
    + unfold in_block. rewrite Hkey. cbn [ep_x ep_y fst snd]. rewrite Hk.
      apply adjacent_offsets. by exists dx, dy.
    + by apply passes_true.
  - destruct (block_neighbour grid_key near eps ep) eqn:Hbn; [| reflexivity].
    exfalso. apply block_neighbour_true in Hbn as (o & Hin & Hf & Hk & Hp).
    unfold in_block in Hk. rewrite Hkey in Hk.
    destruct (grid_key (ep_x o) (ep_y o)) as [k' |] eqn:Hko; [| discriminate].
    apply adjacent_offsets in Hk as (dx & dy & Hdx & Hdy & ->).
    apply passes_true in Hp.
    pose proof (block_scan_miss g gx gy (ep_fid ep) (ep_x ep) (ep_y ep) _
                  Hscan dx dy Hdx Hdy) as Hmiss.
    destruct o as [[[ofid ox] oy] oi].
    cbn [ep_fid ep_x ep_y fst snd] in *.
    assert (Hentry : ((ofid, ox, oy) : HashEntry)
                       ∈ default [] (g !! ((gx + dx)%Z, (gy + dy)%Z))).
    { apply Hok. simpl. split; [by exists oi | exact Hko]. }
    specialize (Hmiss _ Hentry Hf). simpl in Hmiss. congruence.
Qed.

Lemma computable_key (eps : list Endpoint) (ep : Endpoint) :
  computable grid_key near eps = true -> ep ∈ eps ->
  is_Some (grid_key (ep_x ep) (ep_y ep)).
Proof.
  unfold computable. rewrite forallb_forall. intros Hall Hin.
  specialize (Hall ep (proj1 (list_elem_of_In _ _) Hin)).
  apply andb_true_iff in Hall as [Hk _].
  destruct (grid_key _ _); [by eexists | discriminate].
Qed.

Lemma computable_test (eps : list Endpoint) (a o : Endpoint) :
  computable grid_key near eps = true -> a ∈ eps -> o ∈ eps ->
  ep_fid o <> ep_fid a ->
  is_Some (near (ep_x a) (ep_y a) (ep_x o) (ep_y o)).
Proof.
  unfold computable. rewrite forallb_forall. intros Hall Ha Ho Hf.
  specialize (Hall a (proj1 (list_elem_of_In _ _) Ha)).
  apply andb_true_iff in Hall as [_ Hall]. rewrite forallb_forall in Hall.
  specialize (Hall o (proj1 (list_elem_of_In _ _) Ho)).
  apply orb_true_iff in Hall as [Heq | Hr].
  - apply Z.eqb_eq in Heq. contradiction.
  - destruct (near _ _ _ _); [by eexists | discriminate].
Qed.

Lemma is_connected_returns (eps : list Endpoint)
    (g : gmap (Z * Z) (list HashEntry)) (ep : Endpoint) :
  hash_ok eps g -> computable grid_key near eps = true -> ep ∈ eps ->
  is_Some (is_connected grid_key near g ep).
Proof.
  intros Hok Hcomp Hin. unfold is_connected.
  destruct (computable_key eps ep Hcomp Hin) as [[gx gy] ->].
  apply block_scan_returns. intros key e He Hf.
  apply Hok in He as [[i Hi] _].
  by apply (computable_test eps ep (e.1.1, e.1.2, e.2, i) Hcomp Hin Hi).
Qed.

(** *** Step 2 *)

Lemma dangles_fold (g : gmap (Z * Z) (list HashEntry))
    (p : Endpoint -> bool) (l : list Endpoint) :
  (forall ep b, ep ∈ l -> is_connected grid_key near g ep = Some b -> b = p ep) ->
  forall acc ds,
    foldl_opt (fun dangles ep =>
                 match is_connected grid_key near g ep with
                 | Some true => Some dangles
                 | Some false => Some (dangles ++ [ep])
                 | None => None
                 end) acc l = Some ds ->
    ds = acc ++ List.filter (fun ep => negb (p ep)) l.
Proof.
  induction l as [| ep l IH]; intros Hp acc ds; cbn [foldl_opt List.filter].
  - intros [= <-]. by rewrite app_nil_r.
  - assert (Hl : forall ep' b, ep' ∈ l ->
                   is_connected grid_key near g ep' = Some b -> b = p ep').
    { intros ep' b Hin. apply Hp. apply elem_of_cons. by right. }
    destruct (is_connected grid_key near g ep) as [b |] eqn:Hc; [| discriminate].
    rewrite <- (Hp ep b (list_elem_of_here _ _) Hc).
    destruct b; simpl; intros Hrest.
    + by apply IH.
    + rewrite (IH Hl _ _ Hrest). by rewrite <- app_assoc.
Qed.

Lemma dangles_fold_total (g : gmap (Z * Z) (list HashEntry))
    (l : list Endpoint) :
  (forall ep, ep ∈ l -> is_Some (is_connected grid_key near g ep)) ->
  forall acc,
    is_Some (foldl_opt (fun dangles ep =>
                          match is_connected grid_key near g ep with
                          | Some true => Some dangles
                          | Some false => Some (dangles ++ [ep])
                          | None => None
                          end) acc l).
Proof.
  induction l as [| ep l IH]; intros Hall acc; cbn [foldl_opt]; [by eexists |].
  destruct (Hall ep (list_elem_of_here _ _)) as [b ->].
  destruct b; apply IH; intros ep' Hin; apply Hall; apply elem_of_cons; by right.
Qed.

Lemma find_dangles_reads (ebr : list (Z * list (@Point F))) ds :
  find_dangles grid_key near ebr = Some ds ->
  ds = List.filter (fun ep => negb (block_neighbour grid_key near
                                      (all_endpoints ebr) ep))
                   (all_endpoints ebr).
Proof.
  unfold find_dangles.
  destruct (flatten_roads grid_key ebr) as [[eps g] |] eqn:Hfl; [| discriminate].
  destruct (flatten_roads_hash ebr eps g Hfl) as [-> Hok].
  intros Hfold.
  apply (dangles_fold g (block_neighbour grid_key near (all_endpoints ebr)))
    in Hfold; [exact Hfold |].
  intros ep b _. by apply is_connected_reads.
Qed.

Lemma find_dangles_returns (ebr : list (Z * list (@Point F))) :
  computable grid_key near (all_endpoints ebr) = true ->
  is_Some (find_dangles grid_key near ebr).
Proof.
  intros Hcomp. unfold find_dangles.
  destruct (flatten_roads_returns ebr ([], ∅)) as [[eps g] Hfl].
  { intros ep Hin. by apply (computable_key (all_endpoints ebr)). }
  fold (flatten_roads grid_key ebr) in Hfl. rewrite Hfl.
  destruct (flatten_roads_hash ebr eps g Hfl) as [-> Hok].
  apply dangles_fold_total. intros ep Hin.
  by apply (is_connected_returns (all_endpoints ebr)).
Qed.

(** When the block misses nothing, the block test is the naive test. *)
Lemma adequate_block (eps : list Endpoint) (ep : Endpoint) :
  block_adequate grid_key near eps = true -> ep ∈ eps ->
  block_neighbour grid_key near eps ep = has_neighbour near eps ep.
Proof.
  unfold block_adequate. rewrite forallb_forall. intros Had Hin.
  specialize (Had ep (proj1 (list_elem_of_In _ _) Hin)).
  rewrite forallb_forall in Had.
  apply eq_true_iff_eq. rewrite block_neighbour_true, naive_neighbour_true. split.
  - intros (o & Ho & Hf & _ & Hp). by exists o.
  - intros (o & Ho & Hf & Hp). exists o. split; [exact Ho |].
    split; [exact Hf |]. split; [| exact Hp].
    specialize (Had o (proj1 (list_elem_of_In _ _) Ho)).
    apply orb_true_iff in Had as [Had | Hk]; [| exact Hk].
    apply orb_true_iff in Had as [Heq | Hnp].
    + apply Z.eqb_eq in Heq. contradiction.
    + rewrite Hp in Hnp. discriminate.
Qed.

Lemma filter_ext_elem {A : Type} (p q : A -> bool) (l : list A) :
  (forall a, a ∈ l -> p a = q a) -> List.filter p l = List.filter q l.
Proof.
  intros Hpq. apply filter_ext_in. intros a Ha. apply Hpq.
  by apply list_elem_of_In.
Qed.

End Dangles.

Section Sweep.
Context {F : Type}.
Local Abbreviation P := (@Point F).
Variable segments_cross : P -> P -> P -> P -> bool.
Variable intersection_point : P -> P -> P -> P -> option P.
Variable origin : P.

Local Abbreviation report := (report segments_cross intersection_point origin).
Local Abbreviation scan_j := (scan_j segments_cross intersection_point origin).
Local Abbreviation scan_i := (scan_i segments_cross intersection_point origin).
Local Abbreviation scan_parts :=
  (scan_parts segments_cross intersection_point origin).
Local Abbreviation quiet := (quiet segments_cross intersection_point origin).
Local Abbreviation first_crossing :=
  (first_crossing segments_cross intersection_point origin).

Lemma inner_loop_step (part : list P) (i j : Z) (rest : list Z) :
  scan_j part i (j :: rest)
  = match report part i j with
    | Some pt => Some pt
    | None => scan_j part i rest
    end.
Proof.
  cbn [Engine.scan_j]. unfold Engine.report.
  destruct (segments_cross _ _ _ _); [| reflexivity].
  by destruct (intersection_point _ _ _ _).
Qed.

(** The inner loop returns the point of the first reported [j]. *)
Lemma inner_loop_seq (part : list P) (i : Z) (k : nat) :
  forall a,
    (forall pt,
       scan_j part i (seqZ a (Z.of_nat k)) = Some pt
       <-> exists j, (a <= j < a + Z.of_nat k)%Z /\ report part i j = Some pt
                     /\ forall j', (a <= j' < j)%Z -> report part i j' = None)
    /\ (scan_j part i (seqZ a (Z.of_nat k)) = None
        <-> forall j, (a <= j < a + Z.of_nat k)%Z -> report part i j = None).
Proof.
  induction k as [| k IH]; intros a.
  - change (Z.of_nat 0) with 0%Z. rewrite seqZ_nil by lia. cbn [Engine.scan_j].
    split.
    + intros pt. split; [discriminate |]. intros (j & Hj & _). lia.
    + split; [| reflexivity]. intros _ j Hj. lia.
  - rewrite seqZ_cons by lia. rewrite inner_loop_step.
    replace (Z.pred (Z.of_nat (S k))) with (Z.of_nat k) by lia.
    destruct (IH (Z.succ a)) as [IHs IHn].
    destruct (report part i a) as [p |] eqn:Ha.
    + split.
      * intros pt. split.
        -- intros [= ->]. exists a. split; [lia |]. split; [exact Ha |].
           intros j' Hj'. lia.
        -- intros (j & Hj & Hr & Hfirst).
           destruct (decide (j = a)) as [-> | Hne]; [congruence |].
           rewrite (Hfirst a) in Ha by lia. discriminate.
      * split; [discriminate |]. intros Hall.
        rewrite (Hall a) in Ha by lia. discriminate.
    + split.
      * intros pt. rewrite IHs. split.
        -- intros (j & Hj & Hr & Hfirst). exists j. split; [lia |].
           split; [exact Hr |]. intros j' Hj'.
           destruct (decide (j' = a)) as [-> | Hne]; [exact Ha |].
           apply Hfirst. lia.
        -- intros (j & Hj & Hr & Hfirst). exists j.
           assert (j <> a) by congruence.
           split; [lia |]. split; [exact Hr |]. intros j' Hj'.
           apply Hfirst. lia.
      * rewrite IHn. split.
        -- intros Hall j Hj.
           destruct (decide (j = a)) as [-> | Hne]; [exact Ha |].
           apply Hall. lia.
        -- intros Hall j Hj. apply Hall. lia.
Qed.

Lemma inner_loop_first (part : list P) (n i : Z) (pt : P) :
  scan_j part i (Py.range (i + 2) (n - 1)) = Some pt
  <-> exists j, (i + 2 <= j)%Z /\ (j + 1 < n)%Z /\ report part i j = Some pt
                /\ forall j', (i + 2 <= j' < j)%Z -> report part i j' = None.
Proof.
  unfold Py.range.
  destruct (Z_le_gt_dec (n - 1 - (i + 2)) 0) as [Hempty | Hpos].
  - rewrite seqZ_nil by lia. cbn [Engine.scan_j].
    split; [discriminate |]. intros (j & ? & ? & _). lia.
  - rewrite <- (Z2Nat.id (n - 1 - (i + 2))) by lia.
    rewrite (proj1 (inner_loop_seq part i _ (i + 2)%Z) pt).
    rewrite Z2Nat.id by lia. split.
    + intros (j & Hj & Hr & Hfirst). exists j. repeat split; try lia; done.
    + intros (j & H1 & H2 & Hr & Hfirst). exists j. split; [lia | done].
Qed.

Lemma inner_loop_none (part : list P) (n i : Z) :
  scan_j part i (Py.range (i + 2) (n - 1)) = None
  <-> forall j, (i + 2 <= j)%Z -> (j + 1 < n)%Z -> report part i j = None.
Proof.
  unfold Py.range.
  destruct (Z_le_gt_dec (n - 1 - (i + 2)) 0) as [Hempty | Hpos].
  - rewrite seqZ_nil by lia. cbn [Engine.scan_j].
    split; [| reflexivity]. intros _ j ? ?. lia.
  - rewrite <- (Z2Nat.id (n - 1 - (i + 2))) by lia.
    rewrite (proj2 (inner_loop_seq part i _ (i + 2)%Z)).
    rewrite Z2Nat.id by lia. split.
    + intros Hall j H1 H2. apply Hall. lia.
    + intros Hall j Hj. apply Hall; lia.
Qed.

(** The outer loop returns the point of the first reported pair. *)
Lemma outer_loop_seq (part : list P) (n : Z) (k : nat) :
  forall a,
    (forall pt,
       scan_i part n (seqZ a (Z.of_nat k)) = Some pt
       <-> exists i j,
             (a <= i < a + Z.of_nat k)%Z /\ (i + 2 <= j)%Z /\ (j + 1 < n)%Z
             /\ report part i j = Some pt
             /\ (forall j', (i + 2 <= j' < j)%Z -> report part i j' = None)
             /\ (forall i' j', (a <= i' < i)%Z -> (i' + 2 <= j')%Z ->
                               (j' + 1 < n)%Z -> report part i' j' = None))
    /\ (scan_i part n (seqZ a (Z.of_nat k)) = None
        <-> forall i j, (a <= i < a + Z.of_nat k)%Z -> (i + 2 <= j)%Z ->
                        (j + 1 < n)%Z -> report part i j = None).
Proof.
  induction k as [| k IH]; intros a.
  - change (Z.of_nat 0) with 0%Z. rewrite seqZ_nil by lia. cbn [Engine.scan_i].
    split.
    + intros pt. split; [discriminate |]. intros (i & j & Hi & _). lia.
    + split; [| reflexivity]. intros _ i j Hi. lia.
  - rewrite seqZ_cons by lia. cbn [Engine.scan_i].
    replace (Z.pred (Z.of_nat (S k))) with (Z.of_nat k) by lia.
    destruct (IH (Z.succ a)) as [IHs IHn].
    destruct (Engine.scan_j segments_cross intersection_point origin part a
                (Py.range (a + 2) (n - 1))) as [p |] eqn:Ha.
    + apply inner_loop_first in Ha as (j0 & H1 & H2 & Hr0 & Hf0). split.
      * intros pt. split.
        -- intros [= ->]. exists a, j0. repeat split; try lia; try done.
        -- intros (i & j & Hi & Hj1 & Hj2 & Hr & Hfirst & Hprev).
           destruct (decide (i = a)) as [-> | Hne].
           ++ destruct (Z.lt_trichotomy j j0) as [Hlt | [-> | Hgt]].
              ** rewrite (Hf0 j) in Hr by lia. discriminate.
              ** congruence.
              ** rewrite (Hfirst j0) in Hr0 by lia. discriminate.
           ++ rewrite (Hprev a j0) in Hr0 by lia. discriminate.
      * split; [discriminate |]. intros Hall.
        rewrite (Hall a j0) in Hr0 by lia. discriminate.
    + pose proof (proj1 (inner_loop_none part n a) Ha) as Hnone. split.
      * intros pt. rewrite IHs. split.
        -- intros (i & j & Hi & Hj1 & Hj2 & Hr & Hfirst & Hprev).
           exists i, j. repeat split; try lia; try done.
           intros i' j' Hi' Hj1' Hj2'.
           destruct (decide (i' = a)) as [-> | Hne]; [by apply Hnone |].
           apply Hprev; lia.
        -- intros (i & j & Hi & Hj1 & Hj2 & Hr & Hfirst & Hprev).
           exists i, j.
           assert (i <> a).
           { intros ->. rewrite (Hnone j) in Hr by lia. discriminate. }
           repeat split; try lia; try done.
           intros i' j' Hi' Hj1' Hj2'. apply Hprev; lia.
      * rewrite IHn. split.
        -- intros Hall i j Hi Hj1 Hj2.
           destruct (decide (i = a)) as [-> | Hne]; [by apply Hnone |].
           apply Hall; lia.
        -- intros Hall i j Hi Hj1 Hj2. apply Hall; lia.
Qed.

Lemma outer_loop_first (part : list P) (n : Z) (pt : P) :
  scan_i part n (Py.range 0 (n - 1)) = Some pt
  <-> exists i j,
        visited n i j /\ report part i j = Some pt
        /\ forall i' j', visited n i' j' -> earlier i' j' i j ->
                         report part i' j' = None.
Proof.
  unfold Py.range, visited, earlier.
  destruct (Z_le_gt_dec (n - 1 - 0) 0) as [Hempty | Hpos].
  - rewrite seqZ_nil by lia. cbn [Engine.scan_i].
    split; [discriminate |]. intros (i & j & ? & _). lia.
  - rewrite <- (Z2Nat.id (n - 1 - 0)) by lia.
    rewrite (proj1 (outer_loop_seq part n _ 0%Z) pt).
    rewrite Z2Nat.id by lia. split.
    + intros (i & j & Hi & Hj1 & Hj2 & Hr & Hfirst & Hprev).
      exists i, j. split; [lia |]. split; [exact Hr |].
      intros i' j' (H0 & H1 & H2) [Hlt | [-> Hlt]].
      * apply Hprev; lia.
      * apply Hfirst. lia.
    + intros (i & j & (H0 & H1 & H2) & Hr & Hfirst).
      exists i, j. repeat split; try lia; try done.
      * intros j' Hj'. apply Hfirst; [lia | right; lia].
      * intros i' j' Hi' Hj1' Hj2'. apply Hfirst; [lia | left; lia].
Qed.

Lemma outer_loop_none (part : list P) (n : Z) :
  scan_i part n (Py.range 0 (n - 1)) = None
  <-> forall i j, visited n i j -> report part i j = None.
Proof.
  unfold Py.range, visited.
  destruct (Z_le_gt_dec (n - 1 - 0) 0) as [Hempty | Hpos].
  - rewrite seqZ_nil by lia. cbn [Engine.scan_i].
    split; [| reflexivity]. intros _ i j ?. lia.
  - rewrite <- (Z2Nat.id (n - 1 - 0)) by lia.
    rewrite (proj2 (outer_loop_seq part n _ 0%Z)).
    rewrite Z2Nat.id by lia. split.
    + intros Hall i j (H0 & H1 & H2). apply Hall; lia.
    + intros Hall i j Hi Hj1 Hj2. apply Hall. lia.
Qed.

(** The loop over the parts returns the point of the first crossing. *)
Lemma parts_loop_first (parts : list (list P)) (pt : P) :
  scan_parts parts = Some pt <-> first_crossing parts pt.
Proof.
  split.
  - induction parts as [| part parts IH]; cbn [Engine.scan_parts];
      [discriminate |].
    destruct (Z.of_nat (length part) <? 4)%Z eqn:Hshort.
    + apply Z.ltb_lt in Hshort. intros Hrest.
      destruct (IH Hrest)
        as (before & p & after & i & j & -> & Hlen & Hv & Hr & Hfirst & Hq).
      exists (part :: before), p, after, i, j.
      split; [reflexivity |]. repeat (split; [done |]).
      intros part' Hin Hlen'. apply elem_of_cons in Hin as [-> | Hin];
        [lia | by apply Hq].
    + apply Z.ltb_ge in Hshort.
      destruct (Engine.scan_i segments_cross intersection_point origin part
                  (Z.of_nat (length part))
                  (Py.range 0 (Z.of_nat (length part) - 1)))
        as [p |] eqn:Hi.
      * intros [= ->]. apply outer_loop_first in Hi as (i & j & Hv & Hr & Hfirst).
        exists [], part, parts, i, j. split; [reflexivity |].
        repeat (split; [done |]). intros part' Hin. by apply elem_of_nil in Hin.
      * intros Hrest.
        destruct (IH Hrest)
          as (before & p & after & i & j & -> & Hlen & Hv & Hr & Hfirst & Hq).
        exists (part :: before), p, after, i, j.
        split; [reflexivity |]. repeat (split; [done |]).
        intros part' Hin Hlen'. apply elem_of_cons in Hin as [-> | Hin];
          [| by apply Hq].
        exact (proj1 (outer_loop_none part _) Hi).
  - intros (before & part & after & i & j & -> & Hlen & Hv & Hr & Hfirst & Hq).
    induction before as [| p0 before IH]; cbn [app Engine.scan_parts].
    + destruct (Z.ltb_spec (Z.of_nat (length part)) 4) as [Hlt | _]; [lia |].
      assert (Hsome : scan_i part (Z.of_nat (length part))
                        (Py.range 0 (Z.of_nat (length part) - 1)) = Some pt)
        by (apply outer_loop_first; by exists i, j).
      by rewrite Hsome.
    + assert (Hrest : forall part', part' ∈ before ->
                        (4 <= Z.of_nat (length part'))%Z -> quiet part').
      { intros part' Hin. apply Hq. apply elem_of_cons. by right. }
      destruct (Z.ltb_spec (Z.of_nat (length p0)) 4) as [Hlt | Hge];
        [by apply IH |].
      assert (Hnone : scan_i p0 (Z.of_nat (length p0))
                        (Py.range 0 (Z.of_nat (length p0) - 1)) = None).
      { apply outer_loop_none.
        apply (Hq p0); [apply elem_of_cons; by left | exact Hge]. }
      rewrite Hnone. by apply IH.
Qed.

Lemma sweep_fold_entries (vbr : list (Z * list (list P))) :
  forall (results : list (Z * F * F)) fid x y,
    (fid, x, y)
      ∈ foldl (fun results (item : Z * list (list Point)) =>
                 match scan_parts item.2 with
                 | Some pt => results ++ [(item.1, pt.1, pt.2)]
                 | None => results
                 end) results vbr
    <-> (fid, x, y) ∈ results
        \/ exists parts, (fid, parts) ∈ vbr /\ scan_parts parts = Some (x, y).
Proof.
  induction vbr as [| [fid' parts] vbr IH]; intros results fid x y;
    cbn [foldl fst snd].
  - split; [by left |]. intros [Hin | (ps & Hps & _)]; [exact Hin |].
    by apply elem_of_nil in Hps.
  - rewrite IH. split.
    + intros [Hin | (ps & Hps & Hpt)].
      * destruct (Engine.scan_parts segments_cross intersection_point origin
                    parts) as [[px py] |] eqn:Hpt; [| by left].
        apply elem_of_app in Hin as [Hin | Hin]; [by left |].
        apply list_elem_of_singleton in Hin. injection Hin as -> -> ->.
        right. exists parts. split; [apply elem_of_cons; by left | exact Hpt].
      * right. exists ps. split; [apply elem_of_cons; by right | exact Hpt].
    + intros [Hin | (ps & Hps & Hpt)].
      * left. destruct (Engine.scan_parts _ _ _ parts); [| exact Hin].
        apply elem_of_app. by left.
      * apply elem_of_cons in Hps as [[= -> ->] | Hps].
        -- left. rewrite Hpt. apply elem_of_app. right.
           by apply list_elem_of_singleton.
        -- right. by exists ps.
Qed.

End Sweep.

End EngineFacts.

(** ** The idealised engine is the engine at the exact operations *)

Module ExactFacts.
Import RoadQC.

Lemma flatten_points_exact (cell : Q) (fid : Z) st (pts : list Point) :
  Engine.flatten_points (Exact.grid_key cell) fid st pts
  = Some (flatten_points cell fid st pts).
Proof.
  unfold Engine.flatten_points, flatten_points.
  apply EngineFacts.foldl_opt_Some. by intros st' [i [x y]].
Qed.

Lemma flatten_roads_exact (cell : Q) (ebr : list (Z * list Point)) :
  Engine.flatten_roads (Exact.grid_key cell) ebr
  = Some (flatten_roads cell ebr).
Proof.
  unfold Engine.flatten_roads, flatten_roads.
  apply EngineFacts.foldl_opt_Some. intros st item.
  apply flatten_points_exact.
Qed.

Lemma scan_bucket_exact (t : Q) fid x y (bucket : list HashEntry) :
  Engine.scan_bucket (Exact.near t) fid x y bucket
  = Some (scan_bucket fid x y t bucket).
Proof.
  induction bucket as [| [[ofid ox] oy] bucket IH];
    cbn [Engine.scan_bucket scan_bucket]; [reflexivity |].
  destruct (decide (ofid = fid)); [exact IH |].
  unfold Exact.near at 1. by destruct (within x y ox oy t).
Qed.

Lemma scan_dy_exact (t : Q) g gx gy dx fid x y dys :
  Engine.scan_dy (Exact.near t) g gx gy dx fid x y dys
  = Some (scan_dy g gx gy dx fid x y t dys).
Proof.
  induction dys as [| dy dys IH]; cbn [Engine.scan_dy scan_dy]; [reflexivity |].
  unfold Engine.HashEntry, HashEntry in *.
  destruct (g !! ((gx + dx)%Z, (gy + dy)%Z)) as [bucket |]; [| exact IH].
  rewrite scan_bucket_exact. by destruct (scan_bucket fid x y t bucket).
Qed.

Lemma scan_dx_exact (t : Q) g gx gy fid x y dxs :
  Engine.scan_dx (Exact.near t) g gx gy fid x y dxs
  = Some (scan_dx g gx gy fid x y t dxs).
Proof.
  induction dxs as [| dx dxs IH]; cbn [Engine.scan_dx scan_dx]; [reflexivity |].
  rewrite scan_dy_exact.
  by destruct (scan_dy g gx gy dx fid x y t [-1; 0; 1]%Z).
Qed.

Lemma is_connected_exact (cell t : Q) g (ep : Endpoint) :
  Engine.is_connected (Exact.grid_key cell) (Exact.near t) g ep
  = Some (is_connected g cell t ep).
Proof.
  destruct ep as [[[fid x] y] i]. unfold Engine.is_connected, is_connected.
  cbn [Engine.ep_fid Engine.ep_x Engine.ep_y fst snd]. unfold Exact.grid_key.
  destruct (_grid_key x y cell) as [gx gy]. apply scan_dx_exact.
Qed.

(** [RoadQC.find_dangles] is [Engine.find_dangles] at the exact
    operations, which never raise. *)
Lemma find_dangles_exact (ebr : list (Z * list Point)) (tolerance : Q) :
  Engine.find_dangles (Exact.grid_key (Py.max tolerance eps_cell))
                      (Exact.near (tolerance * tolerance)) ebr
  = Some (find_dangles ebr tolerance).
Proof.
  unfold Engine.find_dangles, find_dangles. rewrite flatten_roads_exact.
  destruct (flatten_roads (Py.max tolerance eps_cell) ebr) as [all_eps grid].
  apply EngineFacts.foldl_opt_Some. intros dangles ep.
  rewrite is_connected_exact. by destruct (is_connected _ _ _ ep).
Qed.

(** Without rounding the 3x3 block misses nothing, for every input and
    every tolerance [>= 0]. *)
Lemma exact_block_adequate (ebr : list (Z * list Point)) (tolerance : Q) :
  (0 <= tolerance)%Q ->
  Engine.block_adequate (Exact.grid_key (Py.max tolerance eps_cell))
                        (Exact.near (tolerance * tolerance))
                        (Engine.all_endpoints ebr) = true.
Proof.
  intros Htol. unfold Engine.block_adequate.
  apply forallb_forall. intros a _. apply forallb_forall. intros o _.
  destruct (Engine.ep_fid o =? Engine.ep_fid a)%Z; [reflexivity |].
  destruct (Engine.passes _ a o) eqn:Hp; [| reflexivity]. simpl.
  apply EngineFacts.passes_true in Hp. unfold Exact.near in Hp.
  injection Hp as Hw.
  destruct (RoadFacts.neighbour_cell tolerance _ _ _ _ Htol Hw)
    as (dx & dy & Hdx & Hdy & Hcell).
  unfold Engine.in_block, Exact.grid_key.
  apply EngineFacts.adjacent_offsets. by exists dx, dy.
Qed.

(** [RoadQC.find_self_intersections] is [Engine.find_self_intersections]
    at the exact [_segments_cross] and [_intersection_point]. *)
Lemma find_self_intersections_exact
    (vbr : list (Z * list (list Point))) :
  find_self_intersections vbr
  = Engine.find_self_intersections _segments_cross _intersection_point
      (0%Q, 0%Q) vbr.
Proof. reflexivity. Qed.

End ExactFacts.

(** ** The engine as the code computes it *)

Module EngineClaims.
Import Engine PrimFloat.




(** X15.  For any [_segments_cross] and [_intersection_point], so for the
    code's own binary64 arithmetic: [(fid, x, y)] is an entry of
    [find_self_intersections] exactly when the mapping has an item
    [fid: parts] and [(x, y)] is what [_intersection_point] returns for the
    first pair of segments [i], [j], in the order of the loops, that
    [_segments_cross] accepts and for which [_intersection_point] returns a
    point: the pair lies in the first part with such a pair, that part has
    at least four vertices, and [j >= i + 2]. *)
Theorem entries_are_first_crossings {F : Type}
    (segments_cross : @Point F -> Point -> Point -> Point -> bool)
    (intersection_point : @Point F -> Point -> Point -> Point -> option Point)
    (origin : @Point F)
    (vertices_by_road : list (Z * list (list Point))) (fid : Z) (x y : F) :
  (fid, x, y)
    ∈ find_self_intersections segments_cross intersection_point origin
        vertices_by_road
  <-> exists parts,
        (fid, parts) ∈ vertices_by_road
        /\ first_crossing segments_cross intersection_point origin parts (x, y).
Proof.
  unfold find_self_intersections. rewrite EngineFacts.sweep_fold_entries.
  split.
  - intros [Hin | (parts & Hps & Hpt)]; [by apply elem_of_nil in Hin |].
    exists parts. split; [exact Hps |]. by apply EngineFacts.parts_loop_first.
  - intros (parts & Hps & Hfc). right. exists parts.
    split; [exact Hps |]. by apply EngineFacts.parts_loop_first.
Qed.

Lemma entries_are_first_crossings_witness :
  exists parts,
    (7%Z, parts) ∈ Samples64.bow_tie
    /\ first_crossing Binary64._segments_cross Binary64._intersection_point
         (0, 0)%float parts (1, 1)%float.
Proof.
  apply (entries_are_first_crossings Binary64._segments_cross
           Binary64._intersection_point (0, 0)%float Samples64.bow_tie
           7 1%float 1%float).
  vm_compute. apply list_elem_of_here.
Defined.

(** The sweep in binary64 can report a simple open polyline: the first and
    the last segment of [near_miss] have no point in common, and the code
    reports the road. *)
Example open_polyline_reported_by_rounding :
  ~ SegmentSpec.segments_meet (0, 0)%Q (134217729, 134217728)%Q
      (134217728, 134217727)%Q (134217728, 0)%Q
  /\ Binary64.find_self_intersections Samples64.near_miss
     = [(7%Z, 134217728, 134217727)%float].
Proof.
  split.
  - intros ([rx ry] & (t & Ht0 & Ht1 & Hx1 & Hy1) & (u & Hu0 & Hu1 & Hx2 & Hy2)).
    cbn [fst snd] in *. lra.
  - vm_compute. reflexivity.
Qed.

End EngineClaims.
